(** * transform-to-omnipub: a shallow embedding of [transform.go]

    The Go program reads JSON article files, renders each one into an HTML
    fragment plus a metadata mapping, and posts both to a remote endpoint
    from a pool of worker goroutines.  This development embeds the functions
    of [transform.go] as Rocq definitions and proves the properties stated
    about them.

    Conventions.
    - A Go [string] is a byte sequence; it is embedded as [string], one
      [ascii] per byte.
    - A Go [map[string]any] is a [gmap string any].
    - A Go [error] result is [option error] ([None] is [nil]); a
      [(T, error)] result is [error + T].
    - Go's [int] and [uint64] are [Z]; the wrap-around of [uint64] is
      written out where the program does arithmetic on it. *)

From Stdlib Require Import ZArith Lia List Ascii String DecimalString.
From Stdlib Require Import Permutation.
From stdpp Require Import base gmap strings list.

Local Open Scope Z_scope.

(* ===================================================================== *)
(** * Part I: definitions                                                  *)
(* ===================================================================== *)

(** ** Byte-string helpers *)

Module Str.

(** [s[n:]] *)
Fixpoint drop (n : nat) (s : string) : string :=
  match n, s with
  | O, _ => s
  | S _, EmptyString => EmptyString
  | S n', String _ s' => drop n' s'
  end.

(** [s[:n]] (the whole of [s] when it is shorter) *)
Fixpoint take (n : nat) (s : string) : string :=
  match n, s with
  | O, _ => EmptyString
  | S _, EmptyString => EmptyString
  | S n', String c s' => String c (take n' s')
  end.

Fixpoint rev_append (s acc : string) : string :=
  match s with
  | EmptyString => acc
  | String c s' => rev_append s' (String c acc)
  end.

Definition rev (s : string) : string := rev_append s EmptyString.

Fixpoint repeat (c : ascii) (n : nat) : string :=
  match n with
  | O => EmptyString
  | S n' => String c (repeat c n')
  end.

(** [strings.Contains(s, sub)]: [sub] occurs in [s] at some offset. *)
Fixpoint contains (sub s : string) : bool :=
  String.prefix sub s ||
  match s with
  | EmptyString => false
  | String _ s' => contains sub s'
  end.

(** The propositional reading of an occurrence. *)
Definition occurs (sub s : string) : Prop :=
  exists pre post, s = pre +:+ sub +:+ post.

(** The last byte of [s]. *)
Fixpoint last (s : string) : option ascii :=
  match s with
  | EmptyString => None
  | String c EmptyString => Some c
  | String _ s' => last s'
  end.

(** The byte [c] is one of the bytes of [s]. *)
Fixpoint has_byte (c : ascii) (s : string) : bool :=
  match s with
  | EmptyString => false
  | String d s' => Ascii.eqb c d || has_byte c s'
  end.

End Str.

(** The double quote, as a one-byte string and as a byte. *)
Definition dquote_byte : ascii := ascii_of_nat 34.
Definition dq : string := String dquote_byte EmptyString.

(** The line feed, as a byte and as a one-byte string. *)
Definition newline_byte : ascii := ascii_of_nat 10.
Definition nl : string := String newline_byte EmptyString.

(** ** [strings.Replacer]

    [strings.NewReplacer(old1, new1, old2, new2, ...)] followed by
    [Replace(s)]: the input is scanned from left to right; at each offset
    the [old] strings are compared in argument order, the first one that is
    a prefix of the rest of the input is replaced by its [new] string and
    the scan resumes after the match; where none matches one byte is copied.
    Matches therefore never overlap.  The model covers replacers whose
    [old] strings are distinct and non-empty, which is the case of both
    replacers of this program. *)

Module Replacer.

Definition t := list (string * string).

Definition lookup (oldnew : t) (s : string) : option (string * string) :=
  List.find (fun p => String.prefix (fst p) s) oldnew.

(** The scanning loop; [fuel] bounds the number of iterations and
    [String.length s] always suffices (lemma [Replace_unfold]). *)
Fixpoint loop (oldnew : t) (fuel : nat) (s : string) : string :=
  match fuel with
  | O => s
  | S fuel' =>
      match s with
      | EmptyString => EmptyString
      | String c rest =>
          match lookup oldnew s with
          | Some (old, new) =>
              new +:+ loop oldnew fuel' (Str.drop (String.length old) s)
          | None => String c (loop oldnew fuel' rest)
          end
      end
  end.

Definition Replace (oldnew : t) (s : string) : string :=
  loop oldnew (String.length s) s.

Definition keys_nonempty (oldnew : t) : Prop :=
  Forall (fun p => fst p <> EmptyString) oldnew.

End Replacer.

(** ** [html.EscapeString]

    [html.EscapeString] is a [strings.Replacer] over five one-byte keys. *)

Definition htmlEscaper : Replacer.t :=
  [ ("&", "&amp;");
    ("'", "&#39;");
    ("<", "&lt;");
    (">", "&gt;");
    (dq, "&#34;") ].

Definition EscapeString (s : string) : string :=
  Replacer.Replace htmlEscaper s.

(** What escaping is to do, byte by byte: the five special bytes become
    entities, every other byte stays.  [EscapeString_cons] compares
    [EscapeString] with it. *)
Definition escape_byte (c : ascii) : string :=
  if Ascii.eqb c "&" then "&amp;"
  else if Ascii.eqb c "'" then "&#39;"
  else if Ascii.eqb c "<" then "&lt;"
  else if Ascii.eqb c ">" then "&gt;"
  else if Ascii.eqb c dquote_byte then "&#34;"
  else String c EmptyString.

Fixpoint escape_spec (s : string) : string :=
  match s with
  | EmptyString => EmptyString
  | String c r => escape_byte c +:+ escape_spec r
  end.

(** The bytes that would end a text node or an attribute value. *)
Definition markup_free (s : string) : Prop :=
  Str.has_byte "<" s = false /\ Str.has_byte ">" s = false /\
  Str.has_byte dquote_byte s = false /\ Str.has_byte "'" s = false.

(** ** [fmt.Sprintf]

    The verbs the program uses: [%s] with a string operand, [%d] with an
    integer operand, and [%%].  An operand is inserted as it is: it is never
    scanned for verbs.  Malformed uses produce the markers of package [fmt]:
    [%!v(MISSING)] for a missing operand, [%!v(type=value)] for an operand
    of the other kind, [%!(EXTRA ...)] for operands left over and
    [%!(NOVERB)] for a lone [%] at the end.  The program has none. *)

Inductive arg : Type :=
| ArgS (s : string)
| ArgD (n : Z).

Definition itoa (n : Z) : string := NilZero.string_of_int (Z.to_int n).

Definition show_arg (a : arg) : string :=
  match a with
  | ArgS s => "string=" +:+ s
  | ArgD n => "int=" +:+ itoa n
  end.

Fixpoint join (sep : string) (l : list string) : string :=
  match l with
  | [] => EmptyString
  | [x] => x
  | x :: l' => x +:+ sep +:+ join sep l'
  end.

Fixpoint Sprintf (format : string) (args : list arg) : string :=
  match format with
  | EmptyString =>
      match args with
      | [] => EmptyString
      | _ => "%!(EXTRA " +:+ join ", " (List.map show_arg args) +:+ ")"
      end
  | String c rest =>
      if Ascii.eqb c "%"%char then
        match rest with
        | EmptyString => "%!(NOVERB)"
        | String v rest' =>
            if Ascii.eqb v "%"%char then String "%"%char (Sprintf rest' args)
            else
              match args with
              | [] => "%!" +:+ String v "(MISSING)" +:+ Sprintf rest' []
              | ArgS s :: args' =>
                  if Ascii.eqb v "s"%char then s +:+ Sprintf rest' args'
                  else "%!" +:+ String v "(string=" +:+ s +:+ ")"
                         +:+ Sprintf rest' args'
              | ArgD n :: args' =>
                  if Ascii.eqb v "d"%char then itoa n +:+ Sprintf rest' args'
                  else "%!" +:+ String v "(int=" +:+ itoa n +:+ ")"
                         +:+ Sprintf rest' args'
              end
        end
      else String c (Sprintf rest args)
  end.

(** ** [strings.Builder] *)

Module Builder.
Definition t := string.
Definition empty : t := EmptyString.
Definition WriteString (b : t) (s : string) : t := b +:+ s.
Definition String (b : t) : string := b.
End Builder.

(** ** [unicode/utf8] and [unicode.IsSpace] *)

Definition byte_val (c : ascii) : Z := Z.of_N (N_of_ascii c).

Module utf8.

Definition RuneError : Z := 0xFFFD.
Definition RuneSelf : Z := 0x80.
Definition UTFMax : nat := 4.

(** Continuation bytes are [locb..hicb]. *)
Definition locb : Z := 0x80.
Definition hicb : Z := 0xBF.

(** The [first] table together with [acceptRanges]: for a leading byte,
    the length of the sequence it starts and the range accepted for the
    second byte; [None] for a byte that starts no multi-byte sequence
    (ASCII, which is decoded apart, and the invalid leading bytes). *)
Definition first (b : Z) : option (nat * (Z * Z)) :=
  if (0xC2 <=? b) && (b <=? 0xDF) then Some (2%nat, (locb, hicb))
  else if b =? 0xE0 then Some (3%nat, (0xA0, hicb))
  else if (0xE1 <=? b) && (b <=? 0xEC) then Some (3%nat, (locb, hicb))
  else if b =? 0xED then Some (3%nat, (locb, 0x9F))
  else if (0xEE <=? b) && (b <=? 0xEF) then Some (3%nat, (locb, hicb))
  else if b =? 0xF0 then Some (4%nat, (0x90, hicb))
  else if (0xF1 <=? b) && (b <=? 0xF3) then Some (4%nat, (locb, hicb))
  else if b =? 0xF4 then Some (4%nat, (locb, 0x8F))
  else None.

Definition is_cont (b : Z) : bool := (locb <=? b) && (b <=? hicb).

(** [utf8.DecodeRuneInString]: the first rune of [s] and its width in
    bytes; an invalid or truncated sequence decodes as [RuneError] of
    width 1, the empty string as [RuneError] of width 0. *)
Definition DecodeRuneInString (s : string) : Z * nat :=
  match s with
  | EmptyString => (RuneError, 0%nat)
  | String c0 r0 =>
      let s0 := byte_val c0 in
      if s0 <? RuneSelf then (s0, 1%nat)
      else
        match first s0 with
        | None => (RuneError, 1%nat)
        | Some (sz, (lo, hi)) =>
            if (String.length s <? sz)%nat then (RuneError, 1%nat)
            else
              match r0 with
              | EmptyString => (RuneError, 1%nat)
              | String c1 r1 =>
                  let s1 := byte_val c1 in
                  if (s1 <? lo) || (hi <? s1) then (RuneError, 1%nat)
                  else if (sz <=? 2)%nat then
                    (Z.lor (Z.shiftl (Z.land s0 0x1F) 6) (Z.land s1 0x3F),
                     2%nat)
                  else
                    match r1 with
                    | EmptyString => (RuneError, 1%nat)
                    | String c2 r2 =>
                        let s2 := byte_val c2 in
                        if negb (is_cont s2) then (RuneError, 1%nat)
                        else if (sz <=? 3)%nat then
                          (Z.lor (Z.shiftl (Z.land s0 0x0F) 12)
                             (Z.lor (Z.shiftl (Z.land s1 0x3F) 6)
                                (Z.land s2 0x3F)),
                           3%nat)
                        else
                          match r2 with
                          | EmptyString => (RuneError, 1%nat)
                          | String c3 _ =>
                              let s3 := byte_val c3 in
                              if negb (is_cont s3) then (RuneError, 1%nat)
                              else
                                (Z.lor (Z.shiftl (Z.land s0 0x07) 18)
                                   (Z.lor (Z.shiftl (Z.land s1 0x3F) 12)
                                      (Z.lor (Z.shiftl (Z.land s2 0x3F) 6)
                                         (Z.land s3 0x3F))),
                                 4%nat)
                          end
                    end
              end
        end
  end.

(** [utf8.RuneStart] *)
Definition RuneStart (b : Z) : bool := negb (Z.land b 0xC0 =? 0x80).

(** The backward search of [DecodeLastRuneInString]: [r] holds the bytes
    before the last one, nearest first; the result is the number of bytes
    to step back to reach the nearest rune start among at most
    [UTFMax - 1] of them. *)
Fixpoint find_start (budget : nat) (r : string) : option nat :=
  match budget, r with
  | S budget', String c r' =>
      if RuneStart (byte_val c) then Some 1%nat
      else option_map S (find_start budget' r')
  | _, _ => None
  end.

(** [utf8.DecodeLastRuneInString], on the reversed string [r] (the last
    byte of the string is the first byte of [r]). *)
Definition DecodeLastRuneInString (r : string) : Z * nat :=
  match r with
  | EmptyString => (RuneError, 0%nat)
  | String c r' =>
      let b := byte_val c in
      if b <? RuneSelf then (b, 1%nat)
      else
        match find_start (UTFMax - 1) r' with
        | None => (RuneError, 1%nat)
        | Some back =>
            let '(rn, size) :=
              DecodeRuneInString (Str.rev (Str.take (S back) r)) in
            if (size =? S back)%nat then (rn, size) else (RuneError, 1%nat)
        end
  end.

End utf8.

Module unicode.

Definition MaxLatin1 : Z := 0xFF.

(** [unicode.IsSpace]: the Latin-1 cases of the function, then the
    [White_Space] range table. *)
Definition IsSpace (r : Z) : bool :=
  if r <=? MaxLatin1 then
    (r =? 0x09) || (r =? 0x0A) || (r =? 0x0B) || (r =? 0x0C) || (r =? 0x0D)
    || (r =? 0x20) || (r =? 0x85) || (r =? 0xA0)
  else
    (r =? 0x1680) || ((0x2000 <=? r) && (r <=? 0x200A))
    || ((0x2028 <=? r) && (r <=? 0x2029)) || (r =? 0x202F)
    || (r =? 0x205F) || (r =? 0x3000).

End unicode.

(** ** [strings.TrimSpace] *)

Module strings.

(** The [asciiSpace] table. *)
Definition asciiSpace (b : Z) : bool :=
  (b =? 0x09) || (b =? 0x0A) || (b =? 0x0B) || (b =? 0x0C) || (b =? 0x0D)
  || (b =? 0x20).

(** [strings.TrimLeftFunc(s, f)]: drop leading runes while [f] holds. *)
Fixpoint trimLeftLoop (f : Z -> bool) (fuel : nat) (s : string) : string :=
  match fuel with
  | O => s
  | S fuel' =>
      match s with
      | EmptyString => EmptyString
      | _ =>
          let '(r, size) := utf8.DecodeRuneInString s in
          if f r then trimLeftLoop f fuel' (Str.drop size s) else s
      end
  end.

Definition TrimLeftFunc (s : string) (f : Z -> bool) : string :=
  trimLeftLoop f (String.length s) s.

(** [strings.TrimRightFunc(s, f)].  The loop of [lastIndexFunc] walks
    backwards: [rp] is the reversed prefix [s[0:i]] and [suf] the suffix
    [s[i:]].  At the last rune on which [f] fails, at offset [i], the
    result is [s[0:i+wid]], where [wid] is 1 for an ASCII byte and else
    the width of the rune decoded forwards at [s[i:]]. *)
Fixpoint trimRightLoop (f : Z -> bool) (fuel : nat) (rp suf : string)
  : string :=
  match fuel with
  | O => EmptyString
  | S fuel' =>
      match rp with
      | EmptyString => EmptyString
      | _ =>
          let '(r, size) := utf8.DecodeLastRuneInString rp in
          let rp' := Str.drop size rp in
          let suf' := Str.rev_append (Str.take size rp) suf in
          if f r then trimRightLoop f fuel' rp' suf'
          else
            let wid :=
              match suf' with
              | EmptyString => 1%nat
              | String c _ =>
                  if utf8.RuneSelf <=? byte_val c
                  then snd (utf8.DecodeRuneInString suf')
                  else 1%nat
              end in
            Str.rev_append rp' (Str.take wid suf')
      end
  end.

Definition TrimRightFunc (s : string) (f : Z -> bool) : string :=
  trimRightLoop f (String.length s) (Str.rev s) EmptyString.

Definition TrimFunc (s : string) (f : Z -> bool) : string :=
  TrimRightFunc (TrimLeftFunc s f) f.

(** The second loop of [TrimSpace], from the end of [s[start:]], on the
    reversed string. *)
Fixpoint trimSpaceStop (r : string) : string :=
  match r with
  | EmptyString => EmptyString
  | String c r' =>
      if utf8.RuneSelf <=? byte_val c
      then TrimRightFunc (Str.rev r) unicode.IsSpace
      else if asciiSpace (byte_val c) then trimSpaceStop r'
      else Str.rev r
  end.

(** [strings.TrimSpace]: the first loop skips leading ASCII white space
    and hands over to [TrimFunc] at the first non-ASCII byte. *)
Fixpoint TrimSpace (s : string) : string :=
  match s with
  | EmptyString => EmptyString
  | String c s' =>
      if utf8.RuneSelf <=? byte_val c then TrimFunc s unicode.IsSpace
      else if asciiSpace (byte_val c) then TrimSpace s'
      else trimSpaceStop (Str.rev s)
  end.

(** [strings.TrimSuffix] *)
Definition TrimSuffix (s suffix : string) : string :=
  let n := String.length s in
  let k := String.length suffix in
  if (k <=? n)%nat && String.eqb (Str.drop (n - k) s) suffix
  then Str.take (n - k) s else s.

End strings.

(** ** [bufio.Scanner] with [bufio.ScanLines]

    The scanner yields the lines of its input: each maximal run of bytes
    without a line feed, a final run only when it is not empty, and each
    token with one trailing carriage return dropped.  A token together with
    its line feed has to fit the buffer, which grows to
    [MaxScanTokenSize] bytes and no further: at a run of [MaxScanTokenSize]
    bytes without a line feed [Scan] stops and [Err] is [ErrTooLong]. *)

Inductive error : Type :=
| ErrTooLong
| ErrNotExist (path : string)
| ErrCreate (path : string)
| ErrEnvNotSet (name : string)
| ErrDecode (detail : string)
| ErrTransport (detail : string)
| ErrNewRequest (url : string)
| errorString (msg : string).

Module bufio.

Definition MaxScanTokenSize : N := 64 * 1024.

Definition dropCR (rev_data : string) : string :=
  match rev_data with
  | String c r' =>
      if Ascii.eqb c (ascii_of_nat 13) then Str.rev r' else Str.rev rev_data
  | EmptyString => EmptyString
  end.

(** [scan s cur n]: [cur] is the run read so far since the last line feed,
    reversed, and [n] its length.  The result is the tokens for which
    [Scan] returned true, and the value of [Err] afterwards. *)
Fixpoint scan (s : string) (cur : string) (n : N)
  : list string * option error :=
  match s with
  | EmptyString =>
      match cur with
      | EmptyString => ([], None)
      | _ => ([dropCR cur], None)
      end
  | String c s' =>
      if Ascii.eqb c newline_byte then
        let '(toks, err) := scan s' EmptyString 0%N in
        (dropCR cur :: toks, err)
      else if (MaxScanTokenSize <=? n + 1)%N then ([], Some ErrTooLong)
      else scan s' (String c cur) (n + 1)%N
  end.

Definition ScanLines (input : string) : list string * option error :=
  scan input EmptyString 0%N.

End bufio.

(** ** The file system

    The files the process can open, by path, and the paths at which it can
    create one. *)

Record FileSystem : Type := {
  contents : gmap string string;
  can_create : string -> bool
}.

Definition os_Open (fs : FileSystem) (path : string) : error + string :=
  match contents fs !! path with
  | Some data => inr data
  | None => inl (ErrNotExist path)
  end.

Definition os_WriteFile (fs : FileSystem) (path data : string) : FileSystem :=
  {| contents := <[path := data]> (contents fs); can_create := can_create fs |}.

(** ** Data model *)

Record Article : Type := {
  Title : string;
  Content : string;
  Excerpt : string;
  Link : string;
  PublishDate : string;
  UpdatedDate : string
}.

(** The dynamic type [any], for the values the program stores in it. *)
Inductive any : Type :=
| AnyString (s : string)
| AnyInt (n : Z).

(** ** Helpers: [cleanHTML], [buildHTML], [buildMetadata] *)

Definition open_tag : string := "<script".
Definition open_esc : string := "&lt;script".
Definition close_tag : string := "</script>".
Definition close_esc : string := "&lt;/script&gt;".

Definition scriptReplacer : Replacer.t :=
  [ (open_tag, open_esc);
    (close_tag, close_esc) ].

Definition cleanHTML (s : string) : string :=
  let replacer := scriptReplacer in
  let s := Replacer.Replace replacer s in
  s.

Definition buildHTML (a : Article) : string :=
  let b := Builder.empty in
  let b := Builder.WriteString b
             (Sprintf ("<h1>%s</h1>" +:+ nl) [ArgS (EscapeString (Title a))]) in
  let b := if negb (String.eqb (Excerpt a) "") then
             Builder.WriteString b
               (Sprintf ("<p>%s</p>" +:+ nl) [ArgS (EscapeString (Excerpt a))])
           else b in
  let b := Builder.WriteString b ("<div>" +:+ nl) in
  let b := Builder.WriteString b (cleanHTML (Content a)) in
  let b := Builder.WriteString b (nl +:+ "</div>" +:+ nl) in
  let b := Builder.WriteString b ("<h3>Metadata</h3>" +:+ nl) in
  let b := Builder.WriteString b
             (Sprintf ("<p>Source Url: <a href=" +:+ dq +:+ "%s" +:+ dq
                         +:+ ">%s</a></p>")
                [ArgS (Link a); ArgS (Link a)]) in
  let b := Builder.WriteString b
             (Sprintf "<p>Published Date: %s</p>" [ArgS (PublishDate a)]) in
  let b := Builder.WriteString b
             (Sprintf "<p>Updated Date: %s</p>" [ArgS (UpdatedDate a)]) in
  Builder.String b.

Definition buildMetadata (a : Article) : gmap string any :=
  <["title" := AnyString (Title a)]>
    (<["creation_date" := AnyString (PublishDate a)]>
       (<["source_url" := AnyString (Link a)]> ∅)).

(** ** [readFileList] and [saveFilesToFile] *)

(** The loop body of [readFileList], over the tokens of the scanner. *)
Definition collectPaths (tokens : list string) : list string :=
  fold_left
    (fun files tok =>
       let path := strings.TrimSpace tok in
       if negb (String.eqb path "") then files ++ [path] else files)
    tokens [].

Definition readFileList (fs : FileSystem) (filePath : string)
  : error + list string :=
  match os_Open fs filePath with
  | inl err => inl err
  | inr data =>
      let '(tokens, scanErr) := bufio.ScanLines data in
      let files := collectPaths tokens in
      match scanErr with
      | Some err => inl err
      | None => inr files
      end
  end.

(** [saveFilesToFile]: what the buffered writer has received when it is
    flushed is the content of the file; writes to a created file succeed. *)
Definition saveFilesToFile (fs : FileSystem) (outputFile : string)
  (files : list string) : FileSystem * option error :=
  if can_create fs outputFile then
    let writer :=
      fold_left (fun w f => Builder.WriteString w (f +:+ nl)) files
        Builder.empty in
    (os_WriteFile fs outputFile writer, None)
  else (fs, Some (ErrCreate outputFile)).


(** ** HTTP *)

Module http.

(** [http.Header], with [Set] on keys already in canonical form. *)
Definition Header := gmap string (list string).
Definition Header_Set (h : Header) (key value : string) : Header :=
  <[key := [value]]> h.
Definition Header_Clone (h : Header) : Header := h.

Record Request : Type := {
  Method : string;
  URL : string;
  ReqHeader : Header;
  Form : list (string * string)   (* the fields of the multipart body *)
}.

Record Response : Type := {
  StatusCode : Z;
  Location : string;   (* resp.Header.Get("Location"): empty when absent *)
  Body : string
}.

(** The settings of [http.Transport] and [http.Client] the program
    chooses, durations in seconds.  The client is given no
    [CheckRedirect] and no [Jar]: it follows redirects by the default
    policy. *)
Record Client : Type := {
  MaxIdleConns : Z;
  MaxIdleConnsPerHost : Z;
  MaxConnsPerHost : Z;
  IdleConnTimeout : Z;
  Timeout : Z
}.

(** One exchange on the wire, [http.RoundTripper]: the answer of the
    transport to a request, or its error (a time-out of the client
    included).  The first argument lists the requests the same call of
    [client.Do] has sent before this one, so that the answer to a request
    may differ the second time it is sent. *)
Definition RoundTrip := list Request -> Request -> error + Response.

(** [redirectBehavior] of package [http]: for the status codes the client
    follows, the method of the next request and whether it carries the
    body again.  After 301, 302 and 303 every method but GET and HEAD
    becomes GET and the body is dropped; after 307 and 308 the method is
    kept and the body sent again, which [NewRequestWithContext] makes
    possible for a body held in a [bytes.Buffer] by setting [GetBody]. *)
Definition redirectBehavior (reqMethod : string) (resp : Response)
  : option (string * bool) :=
  let code := StatusCode resp in
  if (code =? 301) || (code =? 302) || (code =? 303) then
    Some (if String.eqb reqMethod "GET" || String.eqb reqMethod "HEAD"
          then reqMethod else "GET",
          false)
  else if (code =? 307) || (code =? 308) then Some (reqMethod, true)
  else None.

End http.

(** ** The environment of the process

    What the process obtains from outside the program text: environment
    variables, the file system, and the library functions whose results the
    program passes on without inspecting them. *)

Record Env : Type := {
  getenv : string -> string;                 (* os.Getenv; unset is empty *)
  env_fs : FileSystem;
  glob_json : string -> error + list string; (* filepath.Glob(Join(dir, "*.json")) *)
  json_Marshal : gmap string any -> string;  (* json.Marshal, error dropped *)
  json_Decode : string -> error + Article;   (* json.NewDecoder(f).Decode *)
  url_ok : string -> bool;                   (* http.NewRequest accepts the URL *)
  url_Parse : string -> string -> error + string;
    (* req.URL.Parse(loc): the Location resolved against the URL of the
       request it answers *)
  redirect_header : list http.Request -> string -> http.Header;
    (* the header the client gives the request that follows a redirect to
       the URL, after the requests listed: what it copies from the first
       request, and the Referer *)
  boundary : string                          (* the multipart boundary drawn *)
}.


Module multipart.
Record Writer : Type := { fields : list (string * string) }.
Definition NewWriter : Writer := {| fields := [] |}.
Definition WriteField (w : Writer) (name value : string) : Writer :=
  {| fields := fields w ++ [(name, value)] |}.
Definition FormDataContentType (e : Env) (w : Writer) : string :=
  "multipart/form-data; boundary=" +:+ boundary e.
End multipart.

(** ** Observable effects of a run *)

Inductive effect : Type :=
| ReadList (path : string)              (* readFileList opens the retry file *)
| Glob (dir : string)                   (* filepath.Glob scans the directory *)
| OpenItem (path : string)              (* processFile opens an item *)
| HttpDo (req : http.Request)           (* the client sends a request *)
| Sleep (d : Z)                         (* time.Sleep(d), d in nanoseconds *)
| LogPrint (msg : string)               (* log.Println / log.Printf *)
| LogFail (file : string) (err : error) (* log.Printf("FAIL  %s → %v", f, err) *)
| LogFatal (err : error)                (* log.Fatal(err): exit status 1 *)
| LogFatalRetry (err : error)           (* log.Fatalf("Error reading retry file: %v", err) *)
| SaveFile (path : string) (ok : bool)  (* saveFilesToFile and whether it succeeded *)
| LogSaveError (err : error)            (* log.Printf("Error saving failures file: %v", err) *)
| Stdout (msg : string).                (* fmt.Printf *)

Definition is_network (e : effect) : bool :=
  match e with HttpDo _ => true | _ => false end.

Definition is_input_read (e : effect) : bool :=
  match e with ReadList _ | Glob _ | OpenItem _ => true | _ => false end.

(** ** [Transformer] *)

Record Transformer : Type := {
  apiBase : string;
  client : http.Client;
  headers : http.Header
}.

(** [NewTransformer].  The error built by
    [fmt.Errorf("env %q not set", apiKeyEnv)] is kept as [ErrEnvNotSet]. *)
Definition NewTransformer (e : Env) (apiBase apiKeyEnv : string) (maxConns : Z)
  : error + Transformer :=
  let apiBase := strings.TrimSuffix apiBase "/" in
  let key := getenv e apiKeyEnv in
  if String.eqb key "" then inl (ErrEnvNotSet apiKeyEnv)
  else
    let h : http.Header := ∅ in
    let h := http.Header_Set h "Authorization" ("Bearer " +:+ key) in
    let tr := {| http.MaxIdleConns := maxConns;
                 http.MaxIdleConnsPerHost := maxConns;
                 http.MaxConnsPerHost := maxConns;
                 http.IdleConnTimeout := 90;
                 http.Timeout := 15 |} in
    inr {| apiBase := apiBase; headers := h; client := tr |}.

(** ** [postItem] and [processFile]

    Both return the effects they had together with their [error] result. *)

(** The multipart body [postItem] builds. *)
Definition postItem_body (e : Env) (htmlContent : string)
  (metadata : gmap string any) (collectionID : option Z) : multipart.Writer :=
  let mp := multipart.NewWriter in
  let mp := multipart.WriteField mp "html_content" htmlContent in
  let metaBytes := json_Marshal e metadata in
  let mp := multipart.WriteField mp "metadata" metaBytes in
  let mp := match collectionID with
            | Some c => multipart.WriteField mp "collection_id"
                          (Sprintf "%d" [ArgD c])
            | None => mp
            end in
  mp.

Definition NewRequestWithContext (e : Env) (method url : string)
  (body : list (string * string)) : error + http.Request :=
  if url_ok e url then
    inr {| http.Method := method; http.URL := url; http.ReqHeader := ∅;
           http.Form := body |}
  else inl (ErrNewRequest url).

(** The request [postItem] hands to [client.Do]. *)
Definition postItem_request (e : Env) (t : Transformer)
  (htmlContent : string) (metadata : gmap string any) (collectionID : option Z)
  : error + http.Request :=
  let mp := postItem_body e htmlContent metadata collectionID in
  match NewRequestWithContext e "POST" (apiBase t +:+ "/omnipub")
          (multipart.fields mp) with
  | inl err => inl err
  | inr req =>
      let hdr := http.Header_Clone (headers t) in
      let hdr := http.Header_Set hdr "Content-Type"
                   (multipart.FormDataContentType e mp) in
      inr {| http.Method := http.Method req; http.URL := http.URL req;
             http.ReqHeader := hdr; http.Form := http.Form req |}
  end.

(** [client.Do], for the client [NewTransformer] builds: the loop of
    [Client.do] in package [http] under the default redirect policy.  The
    request is sent; an answer that [redirectBehavior] does not follow, or
    that has no [Location], is returned (so the client of Go 1.19 and
    later; before, a 301, 302 or 303 without [Location] was an error of
    the client).  Else the location is resolved,
    the next request is made (method and body by [redirectBehavior],
    header by the library) and, unless ten requests have been sent
    already, sent in turn.  [ireq] is the first request, [reqs] the
    requests sent so far, [left] how many more the policy admits after
    [req].  The result comes with one [HttpDo] for each request sent.

    The client wraps the errors it returns in a [url.Error] that names the
    method and the URL; the model carries the error inside. *)
Fixpoint client_send (e : Env) (net : http.RoundTrip) (ireq : http.Request)
  (left : nat) (reqs : list http.Request) (req : http.Request)
  : list effect * (error + http.Response) :=
  match net reqs req with
  | inl err => ([HttpDo req], inl err)
  | inr resp =>
      match http.redirectBehavior (http.Method req) resp with
      | None => ([HttpDo req], inr resp)
      | Some (redirectMethod, includeBody) =>
          let loc := http.Location resp in
          if String.eqb loc "" then ([HttpDo req], inr resp)
          else
            match url_Parse e (http.URL req) loc with
            | inl err => ([HttpDo req], inl err)
            | inr u =>
                match left with
                | O =>
                    ([HttpDo req],
                     inl (errorString "stopped after 10 redirects"))
                | S left' =>
                    let reqs := reqs ++ [req] in
                    let next :=
                      {| http.Method := redirectMethod; http.URL := u;
                         http.ReqHeader := redirect_header e reqs u;
                         http.Form :=
                           if includeBody then http.Form ireq else [] |} in
                    let '(effs, res) :=
                      client_send e net ireq left' reqs next in
                    (HttpDo req :: effs, res)
                end
            end
      end
  end.

Definition client_Do (e : Env) (net : http.RoundTrip) (req : http.Request)
  : list effect * (error + http.Response) :=
  client_send e net req 9 [] req.

Definition postItem (e : Env) (t : Transformer) (net : http.RoundTrip)
  (htmlContent : string) (metadata : gmap string any) (collectionID : option Z)
  : list effect * option error :=
  match postItem_request e t htmlContent metadata collectionID with
  | inl err => ([], Some err)
  | inr req =>
      match client_Do e net req with
      | (effs, inl err) => (effs, Some err)
      | (effs, inr resp) =>
          if (200 <=? http.StatusCode resp) && (http.StatusCode resp <? 300)
          then (effs, None)
          else
            let slurp := Str.take (Z.to_nat (Z.shiftl 4 10)) (http.Body resp) in
            (effs,
             Some (errorString
                     (Sprintf "http %d %s"
                        [ArgD (http.StatusCode resp);
                         ArgS (strings.TrimSpace slurp)])))
      end
  end.

Definition processFile (e : Env) (t : Transformer) (net : http.RoundTrip)
  (file : string) (collectionID : option Z) : list effect * option error :=
  match os_Open (env_fs e) file with
  | inl err => ([OpenItem file], Some err)
  | inr data =>
      match json_Decode e data with
      | inl err => ([OpenItem file], Some err)
      | inr art =>
          let '(effs, err) :=
            postItem e t net (buildHTML art) (buildMetadata art) collectionID in
          (OpenItem file :: effs, err)
      end
  end.

(** ** [main]: flags and start-up *)

Record Flags : Type := {
  dir : string;
  retryFile : string;
  api : string;
  collection : Z;
  workers : Z;
  backoff : Z;
  maxConns : Z;
  apiKeyEnv : string;
  saveFailures : string
}.

Definition default_flags : Flags :=
  {| dir := "."; retryFile := ""; api := "https://api.example.com/v2";
     collection := 0; workers := 10; backoff := 0; maxConns := 256;
     apiKeyEnv := "OMNIPUB_API_KEY"; saveFailures := "" |}.

(** The argument [main] passes for [collectionID]: the closure
    [func() *int { if *collection > 0 { return collection }; return nil }]. *)
Definition collectionID_of (fl : Flags) : option Z :=
  if collection fl >? 0 then Some (collection fl) else None.

Inductive startup : Type :=
| Fatal                                         (* log.Fatal: os.Exit(1) *)
| Return                                        (* main returns *)
| Run (t : Transformer) (files : list string).  (* the worker pool starts *)

(** The input list: from the retry file when one is given, else from the
    directory.  A failure is fatal; [inl] carries the fatal log entry. *)
Definition main_collect (e : Env) (fl : Flags)
  : list effect * (effect + list string) :=
  if negb (String.eqb (retryFile fl) "") then
    match readFileList (env_fs e) (retryFile fl) with
    | inl err => ([ReadList (retryFile fl)], inl (LogFatalRetry err))
    | inr files => ([ReadList (retryFile fl)], inr files)
    end
  else
    match glob_json e (dir fl) with
    | inl err => ([Glob (dir fl)], inl (LogFatal err))
    | inr files => ([Glob (dir fl)], inr files)
    end.

(** The notice [main] logs for an empty input list. *)
Definition nothing_to_upload : effect :=
  LogPrint "No files to process – nothing to upload.".

(** [main] up to the creation of the job queue. *)
Definition main_startup (e : Env) (fl : Flags) : list effect * startup :=
  match NewTransformer e (api fl) (apiKeyEnv fl) (maxConns fl) with
  | inl err => ([LogFatal err], Fatal)
  | inr transformer =>
      match main_collect e fl with
      | (effs, inl fatal) => (effs ++ [fatal], Fatal)
      | (effs, inr files) =>
          if (List.length files =? 0)%nat then
            (effs ++ [nothing_to_upload], Return)
          else
            (effs ++ [LogPrint
                        (Sprintf "Uploading %d files with %d workers …"
                           [ArgD (Z.of_nat (List.length files));
                            ArgD (workers fl)])],
             Run transformer files)
      end
  end.

(** ** [main]: the worker pool

    The state of the pool after the workers have been spawned.  [pending] is
    what the loop [for _, f := range files { jobs <- f }] has yet to send;
    [jobs] is the buffer of the channel, whose capacity [len(files)] lets
    every send proceed; [closed] records [close(jobs)].  [pulled] and
    [processed] are history variables: the identifiers received from the
    channel, and the calls of [processFile] that returned, with their
    results, both in the order in which they happened.

    The goroutines are spawned before the first send, and a worker can do
    nothing before it: the pool starts with every worker at its receive.
    What a worker does with one result (the atomic add, the log line and
    the append under the mutex) is one move; the three touch separate
    parts of the state, so finer interleavings reach the same counters,
    and the same log and failure list up to the order of their entries.
    Of the log and of the failure list of a pool with several workers,
    the statements below say what does not depend on that order, and of
    the failure list what holds once every worker has left. *)

Inductive worker : Type :=
| Idle                  (* at the receive of [for f := range jobs] *)
| Busy (f : string)     (* holds [f], before [processFile] returns *)
| Exited.               (* left the loop: [wg.Done()] has run *)

Record pool : Type := {
  pending : list string;
  jobs : list string;
  closed : bool;
  gor : list worker;
  ok : Z;                 (* var ok uint64 *)
  fail : Z;               (* var fail uint64 *)
  failures : list string;
  log : list effect;
  pulled : list string;
  processed : list (string * option error)
}.

(** [atomic.AddUint64(&x, 1)] *)
Definition AddUint64 (x delta : Z) : Z := (x + delta) mod 2 ^ 64.

(** [time.Duration] is an [int64] count of nanoseconds, and its
    arithmetic wraps around. *)
Definition int64 (z : Z) : Z := (z + 2 ^ 63) mod 2 ^ 64 - 2 ^ 63.

Definition Millisecond : Z := 1000000.

(** The duration of the pause: the back-off flag converted to
    [time.Duration] and multiplied by [time.Millisecond]. *)
Definition backoff_duration (fl : Flags) : Z :=
  int64 (int64 (backoff fl) * Millisecond).

(** The largest [int]: a bound on the length of every slice. *)
Definition MaxInt : Z := 2 ^ 63 - 1.

Definition pool_init (fl : Flags) (files : list string) : pool :=
  {| pending := files; jobs := []; closed := false;
     gor := replicate (Z.to_nat (workers fl)) Idle;
     ok := 0; fail := 0; failures := []; log := [];
     pulled := []; processed := [] |}.

(** The moves of the scheduler: main sends the next identifier, main closes
    the channel, worker [w] receives, [processFile] returns in worker [w]
    (the network answering with [net]) and the worker records the outcome,
    worker [w] finds the channel closed and empty and leaves.  A worker
    that receives sleeps before it goes on, when the back-off is positive;
    [time.Sleep] returns at once when the duration is zero or negative. *)
Inductive action : Type :=
| Send
| Close
| Recv (w : nat)
| Process (w : nat) (net : http.RoundTrip)
| Leave (w : nat).

Definition step (e : Env) (fl : Flags) (t : Transformer)
  (s : pool) (a : action) : option pool :=
  match a with
  | Send =>
      match pending s with
      | f :: rest =>
          Some {| pending := rest; jobs := jobs s ++ [f]; closed := closed s;
                  gor := gor s; ok := ok s; fail := fail s;
                  failures := failures s; log := log s;
                  pulled := pulled s; processed := processed s |}
      | [] => None
      end
  | Close =>
      match pending s, closed s with
      | [], false =>
          Some {| pending := []; jobs := jobs s; closed := true;
                  gor := gor s; ok := ok s; fail := fail s;
                  failures := failures s; log := log s;
                  pulled := pulled s; processed := processed s |}
      | _, _ => None
      end
  | Recv w =>
      match gor s !! w, jobs s with
      | Some Idle, f :: rest =>
          Some {| pending := pending s; jobs := rest; closed := closed s;
                  gor := <[w := Busy f]> (gor s);
                  ok := ok s; fail := fail s; failures := failures s;
                  log := log s ++ (if backoff fl >? 0
                                   then [Sleep (backoff_duration fl)]
                                   else []);
                  pulled := pulled s ++ [f]; processed := processed s |}
      | _, _ => None
      end
  | Process w net =>
      match gor s !! w with
      | Some (Busy f) =>
          let '(effs, err) := processFile e t net f (collectionID_of fl) in
          match err with
          | Some er =>
              Some {| pending := pending s; jobs := jobs s;
                      closed := closed s;
                      gor := <[w := Idle]> (gor s);
                      ok := ok s; fail := AddUint64 (fail s) 1;
                      failures :=
                        (if negb (String.eqb (saveFailures fl) "")
                         then failures s ++ [f] else failures s);
                      log := log s ++ effs ++ [LogFail f er];
                      pulled := pulled s;
                      processed := processed s ++ [(f, err)] |}
          | None =>
              Some {| pending := pending s; jobs := jobs s;
                      closed := closed s;
                      gor := <[w := Idle]> (gor s);
                      ok := AddUint64 (ok s) 1; fail := fail s;
                      failures := failures s;
                      log := log s ++ effs;
                      pulled := pulled s;
                      processed := processed s ++ [(f, err)] |}
          end
      | _ => None
      end
  | Leave w =>
      match gor s !! w, jobs s, closed s with
      | Some Idle, [], true =>
          Some {| pending := pending s; jobs := []; closed := true;
                  gor := <[w := Exited]> (gor s);
                  ok := ok s; fail := fail s; failures := failures s;
                  log := log s; pulled := pulled s;
                  processed := processed s |}
      | _, _, _ => None
      end
  end.

(** A schedule is run move by move; a move that is not enabled stops it. *)
Fixpoint run (e : Env) (fl : Flags) (t : Transformer)
  (sched : list action) (s : pool) : option pool :=
  match sched with
  | [] => Some s
  | a :: sched' =>
      match step e fl t s a with
      | Some s' => run e fl t sched' s'
      | None => None
      end
  end.

(** [wg.Wait()] returns: every worker has terminated. *)
Definition all_done (s : pool) : Prop := Forall (fun w => w = Exited) (gor s).

Definition all_doneb (s : pool) : bool :=
  forallb (fun w => match w with Exited => true | _ => false end) (gor s).

(** The identifiers held by workers that are between receive and result. *)
Definition held (w : worker) : option string :=
  match w with Busy f => Some f | _ => None end.

Fixpoint held_by (l : list worker) : list string :=
  match l with
  | [] => []
  | w :: l' =>
      match held w with
      | Some f => f :: held_by l'
      | None => held_by l'
      end
  end.

Definition in_flight (s : pool) : list string := held_by (gor s).

Definition succeeded (p : string * option error) : bool :=
  match snd p with None => true | Some _ => false end.

(** ** [main]: the report *)

(** The summary line [main] prints for given counts. *)
Definition summary_line (succ failed : Z) : effect :=
  Stdout (Sprintf ("Done. Success: %d  Failure: %d" +:+ nl)
            [ArgD succ; ArgD failed]).

Definition main_report (e : Env) (fl : Flags) (s : pool) : list effect :=
  (if negb (String.eqb (saveFailures fl) "")
      && (0 <? List.length (failures s))%nat then
     match saveFilesToFile (env_fs e) (saveFailures fl) (failures s) with
     | (_, Some err) =>
         [SaveFile (saveFailures fl) false; LogSaveError err]
     | (_, None) =>
         [SaveFile (saveFailures fl) true;
          LogPrint (Sprintf "Saved %d failed paths to %s"
                      [ArgD (Z.of_nat (List.length (failures s)));
                       ArgS (saveFailures fl)])]
     end
   else [])
  ++ [summary_line (ok s) (fail s)].

(** ** [main]

    A complete run of [main]: its effects in order and its exit status. *)
Definition main_runs (e : Env) (fl : Flags) (tr : list effect) (code : Z)
  : Prop :=
  match main_startup e fl with
  | (tr0, Fatal) => tr = tr0 /\ code = 1
  | (tr0, Return) => tr = tr0 /\ code = 0
  | (tr0, Run t files) =>
      exists sched s,
        run e fl t sched (pool_init fl files) = Some s /\ all_done s /\
        tr = tr0 ++ log s ++ main_report e fl s /\ code = 0
  end.

(** ** Vocabulary of the statements *)

(** The string ends in an ASCII white-space byte. *)
Definition ends_in_space (s : string) : bool :=
  match Str.last s with
  | Some c => strings.asciiSpace (byte_val c)
  | None => false
  end.

(** One identifier per line, each line ended by a line feed. *)
Definition lines (files : list string) : string :=
  fold_right (fun f acc => f +:+ nl +:+ acc) EmptyString files.

(** What the reader accepts back unchanged: an identifier that
    [TrimSpace] leaves as it is, not empty, without line feed, and shorter
    than the scanner's buffer. *)
Definition plain_id (f : string) : Prop :=
  strings.TrimSpace f = f /\ f <> EmptyString /\
  Str.has_byte newline_byte f = false.

Definition short_id (f : string) : Prop :=
  (N.of_nat (String.length f) < bufio.MaxScanTokenSize)%N.

Definition fs_empty : FileSystem :=
  {| contents := ∅; can_create := fun _ => true |}.

(** An identifier of 65536 bytes. *)
Definition long_id : string := Str.repeat "a" (N.to_nat 65536).

(** An environment for the examples: the credential is set, one article is
    on disk, the directory scan finds nothing, every URL is accepted. *)
Definition demo_article : Article :=
  {| Title := "T"; Content := "<p>c</p>"; Excerpt := ""; Link := "http://e.x/";
     PublishDate := "2024-01-01"; UpdatedDate := "2024-01-02" |}.

Definition demo_env : Env :=
  {| getenv := fun name =>
       if String.eqb name "OMNIPUB_API_KEY" then "secret" else "";
     env_fs := {| contents := {["a.json" := "A"; "b.json" := "B"]};
                  can_create := fun _ => true |};
     glob_json := fun _ => inr [];
     json_Marshal := fun _ => "{}";
     json_Decode := fun data =>
       if String.eqb data "A" then inr demo_article
       else inl (ErrDecode data);
     url_ok := fun _ => true;
     url_Parse := fun _ loc => inr loc;
     redirect_header := fun reqs _ =>
       match reqs with
       | r :: _ => http.ReqHeader r
       | [] => ∅
       end;
     boundary := "xyz" |}.

(** The same environment without the credential. *)
Definition demo_env_nokey : Env :=
  {| getenv := fun _ => "";
     env_fs := env_fs demo_env; glob_json := glob_json demo_env;
     json_Marshal := json_Marshal demo_env;
     json_Decode := json_Decode demo_env;
     url_ok := url_ok demo_env; url_Parse := url_Parse demo_env;
     redirect_header := redirect_header demo_env;
     boundary := boundary demo_env |}.

(** The transformer [NewTransformer] builds in [demo_env] with the default
    flags. *)
Definition demo_transformer : Transformer :=
  {| apiBase := "https://api.example.com/v2";
     client := {| http.MaxIdleConns := 256; http.MaxIdleConnsPerHost := 256;
                  http.MaxConnsPerHost := 256; http.IdleConnTimeout := 90;
                  http.Timeout := 15 |};
     headers := http.Header_Set ∅ "Authorization" "Bearer secret" |}.

(** A network that answers every request with the given status and body,
    and no [Location]. *)
Definition answer (status : Z) (body : string) : http.RoundTrip :=
  fun _ _ =>
    inr {| http.StatusCode := status; http.Location := ""; http.Body := body |}.


(** What holds of every state of the pool that runs over [files]. *)
Record Inv (fl : Flags) (files : list string) (s : pool) : Prop := {
  inv_items :
    List.map fst (processed s) ++ in_flight s ++ jobs s ++ pending s
    ≡ₚ files;
  inv_pulled : pulled s ≡ₚ List.map fst (processed s) ++ in_flight s;
  inv_ok : ok s = Z.of_nat (List.length (List.filter succeeded (processed s)));
  inv_fail :
    fail s = Z.of_nat (List.length
                         (List.filter (fun p => negb (succeeded p))
                            (processed s)));
  inv_closed : closed s = true -> pending s = [];
  inv_exited :
    (exists w, gor s !! w = Some Exited) -> closed s = true /\ jobs s = [];
  inv_workers : List.length (gor s) = Z.to_nat (workers fl)
}.

(** A measure of the work left in the pool: every move of the scheduler
    lowers it (lemma [step_measure]). *)
Definition weight (w : worker) : nat :=
  match w with Idle => 1 | Busy _ => 3 | Exited => 0 end.

Fixpoint weights (l : list worker) : nat :=
  match l with
  | [] => 0
  | w :: l' => weight w + weights l'
  end.

Definition work_left (s : pool) : nat :=
  4 * List.length (pending s) + 3 * List.length (jobs s) + weights (gor s)
  + (if closed s then 0 else 1).

(** A network that answers a POST with a redirect, status 302, and every
    other request with status 200. *)
Definition redirecting : http.RoundTrip :=
  fun _ req =>
    if String.eqb (http.Method req) "POST" then
      inr {| http.StatusCode := 302;
             http.Location := "https://api.example.com/v2/done";
             http.Body := "" |}
    else inr {| http.StatusCode := 200; http.Location := ""; http.Body := "" |}.

(** Two workers and a failure file, for the examples; a schedule over two
    identifiers in which the workers interleave with main. *)
Definition demo_flags : Flags :=
  {| dir := "."; retryFile := ""; api := "https://api.example.com/v2";
     collection := 0; workers := 2; backoff := 0; maxConns := 256;
     apiKeyEnv := "OMNIPUB_API_KEY"; saveFailures := "failed.txt" |}.

Definition demo_schedule : list action :=
  [Send; Recv 0; Send; Close; Recv 1;
   Process 1 (answer 200 "");
   Process 0 (answer 200 "");
   Leave 0; Leave 1].

(** ** Vocabulary of the further properties *)

(** None of the five bytes that [html.EscapeString] rewrites. *)
Definition plain_text (s : string) : Prop :=
  Str.has_byte "&" s = false /\ Str.has_byte "'" s = false /\
  Str.has_byte "<" s = false /\ Str.has_byte ">" s = false /\
  Str.has_byte dquote_byte s = false.

(** The carriage return, and a line of a list file with its terminator:
    a line feed, or a carriage return and a line feed. *)
Definition cr_byte : ascii := ascii_of_nat 13.
Definition cr : string := String cr_byte EmptyString.

Definition render_line (l : string * bool) : string :=
  fst l +:+ (if snd l then cr +:+ nl else nl).

Definition render_lines (ls : list (string * bool)) : string :=
  fold_right (fun l acc => render_line l +:+ acc) EmptyString ls.

Definition nonblank (l : list string) : list string :=
  List.filter (fun p => negb (String.eqb p "")) l.

(** A line of the list file: blank, or an identifier the reader returns
    unchanged. *)
Definition blank_or_plain (f : string) : Prop := f = EmptyString \/ plain_id f.

(** A list file with one line of 65536 bytes between two ordinary lines. *)
Definition fs_long_line : FileSystem :=
  {| contents :=
       {["retry.txt" :=
           ("a.json" +:+ nl) +:+ long_id +:+ (nl +:+ "b.json" +:+ nl)]};
     can_create := fun _ => true |}.

(** The effects a worker has: the pacing sleep, opening an item, the
    requests of the client, and the log line of a failure. *)
Definition pool_effect (x : effect) : bool :=
  match x with
  | Sleep _ | OpenItem _ | HttpDo _ | LogFail _ _ => true
  | _ => false
  end.

Definition is_sleep (x : effect) : bool :=
  match x with Sleep _ => true | _ => false end.

Definition is_logfail (x : effect) : bool :=
  match x with LogFail _ _ => true | _ => false end.

Definition is_save (x : effect) : bool :=
  match x with SaveFile _ _ => true | _ => false end.

Definition is_glob (x : effect) : bool :=
  match x with Glob _ => true | _ => false end.

Definition is_readlist (x : effect) : bool :=
  match x with ReadList _ => true | _ => false end.

(** The identifiers whose call of [processFile] returned an error, in the
    order in which the calls returned. *)
Definition failed_ids (l : list (string * option error)) : list string :=
  List.map fst (List.filter (fun p => negb (succeeded p)) l).

(** [demo_env] with a directory scan that finds two items, and flags that
    ask for no worker. *)
Definition demo_env_listing : Env :=
  {| getenv := getenv demo_env; env_fs := env_fs demo_env;
     glob_json := fun _ => inr ["a.json"; "b.json"];
     json_Marshal := json_Marshal demo_env;
     json_Decode := json_Decode demo_env;
     url_ok := url_ok demo_env; url_Parse := url_Parse demo_env;
     redirect_header := redirect_header demo_env;
     boundary := boundary demo_env |}.

Definition demo_flags_no_workers : Flags :=
  {| dir := "."; retryFile := ""; api := "https://api.example.com/v2";
     collection := 0; workers := 0; backoff := 0; maxConns := 256;
     apiKeyEnv := "OMNIPUB_API_KEY"; saveFailures := "" |}.

(** Spaces and tabs only. *)
Fixpoint blanks (s : string) : bool :=
  match s with
  | EmptyString => true
  | String c s' =>
      (Ascii.eqb c " " || Ascii.eqb c (ascii_of_nat 9)) && blanks s'
  end.

(** An identifier that starts and ends with ASCII bytes other than white
    space, and holds no line feed. *)
Definition ascii_edged (f : string) : Prop :=
  exists c d r,
    f = String c r /\ Str.last f = Some d /\
    byte_val c < utf8.RuneSelf /\ strings.asciiSpace (byte_val c) = false /\
    byte_val d < utf8.RuneSelf /\ strings.asciiSpace (byte_val d) = false /\
    Str.has_byte newline_byte f = false.

(** A line of a list file with blanks around the identifier. *)
Definition padded_line (l : string * string * string) : string :=
  let '(pad1, f, pad2) := l in pad1 +:+ f +:+ pad2 +:+ nl.

Definition padded_lines (ls : list (string * string * string)) : string :=
  fold_right (fun l acc => padded_line l +:+ acc) EmptyString ls.

(** What the request [processFile] hands to the client is to look like. *)
Definition request_of_run (e : Env) (fl : Flags) (t : Transformer)
  (req : http.Request) : Prop :=
  http.Method req = "POST" /\
  http.URL req = apiBase t +:+ "/omnipub" /\
  http.ReqHeader req !! "Authorization" = headers t !! "Authorization" /\
  (In "collection_id" (List.map fst (http.Form req)) <-> 0 < collection fl) /\
  exists art,
    http.Form req
    = multipart.fields
        (postItem_body e (buildHTML art) (buildMetadata art)
           (collectionID_of fl)).

(** The paths of the items opened, in the order of the openings. *)
Fixpoint opened (l : list effect) : list string :=
  match l with
  | [] => []
  | OpenItem path :: l' => path :: opened l'
  | _ :: l' => opened l'
  end.

(** The body of a request of a run: none, as in a GET that follows a
    redirect, or the rendering of a decoded article, with the
    [collection_id] field exactly when the flag is greater than zero. *)
Definition carries_rendering (e : Env) (fl : Flags) (req : http.Request)
  : Prop :=
  http.Form req = [] \/
  ((In "collection_id" (List.map fst (http.Form req)) <-> 0 < collection fl) /\
   exists art,
     http.Form req
     = multipart.fields
         (postItem_body e (buildHTML art) (buildMetadata art)
            (collectionID_of fl))).

(** One worker, a back-off of five milliseconds and a failure file. *)
Definition demo_flags_paced : Flags :=
  {| dir := "."; retryFile := ""; api := "https://api.example.com/v2";
     collection := 0; workers := 1; backoff := 5; maxConns := 256;
     apiKeyEnv := "OMNIPUB_API_KEY"; saveFailures := "failed.txt" |}.

(* ===================================================================== *)
(** * Part II: properties                                                  *)
(* ===================================================================== *)

(** ** Byte strings *)

#[local] Arguments String.append !s1 s2 : simpl nomatch.

Section StrFacts.

Lemma app_assoc_s (a b c : string) : (a +:+ b) +:+ c = a +:+ (b +:+ c).
Proof. induction a as [|x a IH]; simpl; [reflexivity | now rewrite IH]. Qed.

Lemma app_nil_r_s (a : string) : a +:+ "" = a.
Proof. induction a as [|x a IH]; simpl; [reflexivity | now rewrite IH]. Qed.

Lemma length_app_s (a b : string) :
  String.length (a +:+ b) = (String.length a + String.length b)%nat.
Proof. induction a as [|x a IH]; simpl; [reflexivity | now rewrite IH]. Qed.

Lemma prefix_app (p r : string) : String.prefix p (p +:+ r) = true.
Proof.
  induction p as [|x p IH]; simpl.
  - now destruct r.
  - destruct (ascii_dec x x); [exact IH | congruence].
Qed.

Lemma prefix_true_inv (p s : string) :
  String.prefix p s = true -> exists r, s = p +:+ r.
Proof.
  revert s; induction p as [|x p IH]; intros s H.
  - exists s; reflexivity.
  - destruct s as [|y s]; simpl in H; [discriminate|].
    destruct (ascii_dec x y) as [->|]; [|discriminate].
    destruct (IH _ H) as [r ->]. now exists r.
Qed.

Lemma prefix_nil_l (s : string) : String.prefix "" s = true.
Proof. now destruct s. Qed.

Lemma prefix_cons (x y : ascii) (p s : string) :
  String.prefix (String x p) (String y s)
  = Ascii.eqb x y && String.prefix p s.
Proof.
  simpl. destruct (ascii_dec x y) as [->|Hne].
  - now rewrite Ascii.eqb_refl.
  - apply Ascii.eqb_neq in Hne. now rewrite Hne.
Qed.

Lemma prefix_extend (p s r : string) :
  String.prefix p s = true -> String.prefix p (s +:+ r) = true.
Proof.
  intros H. destruct (prefix_true_inv _ _ H) as [q ->].
  rewrite app_assoc_s. apply prefix_app.
Qed.

(** A key that matches across the seam of [s +:+ String x r] holds the
    byte [x]; a key without it that matches there matches within [s]. *)
Lemma prefix_seam (k s r : string) (x : ascii) :
  Str.has_byte x k = false ->
  String.prefix k (s +:+ String x r) = true -> String.prefix k s = true.
Proof.
  revert s; induction k as [|a k IH]; intros s Hk H.
  - apply prefix_nil_l.
  - simpl in Hk. apply orb_false_iff in Hk as [Hxa Hk].
    destruct s as [|b s].
    + change ("" +:+ String x r) with (String x r) in H.
      rewrite prefix_cons in H. apply andb_true_iff in H as [H _].
      apply Ascii.eqb_eq in H; subst. now rewrite Ascii.eqb_refl in Hxa.
    + change (String b s +:+ String x r) with (String b (s +:+ String x r)) in H.
      rewrite prefix_cons in H |- *.
      apply andb_true_iff in H as [-> H]. simpl. now apply IH.
Qed.

Lemma drop_length_app (p r : string) : Str.drop (String.length p) (p +:+ r) = r.
Proof. induction p as [|x p IH]; simpl; [now destruct r | exact IH]. Qed.

Lemma length_drop (n : nat) (s : string) :
  String.length (Str.drop n s) = (String.length s - n)%nat.
Proof.
  revert s; induction n as [|n IH]; intros [|c s]; simpl; auto.
Qed.

Lemma contains_occurs (sub s : string) :
  Str.occurs sub s -> Str.contains sub s = true.
Proof.
  intros (pre & post & ->). induction pre as [|c pre IH].
  - destruct sub; simpl.
    + now destruct post.
    + change (String a sub +:+ post) with ((String a sub) +:+ post).
      pose proof (prefix_app (String a sub) post) as H. simpl in H.
      simpl. rewrite H. reflexivity.
  - change (String c pre +:+ sub +:+ post)
      with (String c (pre +:+ sub +:+ post)).
    simpl Str.contains. rewrite IH. apply orb_true_r.
Qed.

Lemma occurs_contains (sub s : string) :
  Str.contains sub s = true -> Str.occurs sub s.
Proof.
  induction s as [|c s IH]; intros H; cbn [Str.contains] in H.
  - rewrite orb_false_r in H. apply prefix_true_inv in H as [r ->].
    exists "", r. reflexivity.
  - apply orb_true_iff in H as [H|H].
    + apply prefix_true_inv in H as [r Hr]. exists "", r. exact Hr.
    + destruct (IH H) as (pre & post & ->).
      exists (String c pre), post. reflexivity.
Qed.

(** Bytes other than the first byte of [sub] before it cannot start an
    occurrence. *)
Lemma contains_skip (x : ascii) (k n t : string) :
  Str.has_byte x n = false ->
  Str.contains (String x k) (n +:+ t) = Str.contains (String x k) t.
Proof.
  intros Hn. induction n as [|c n IH]; [reflexivity|].
  simpl in Hn. apply orb_false_iff in Hn as [Hc Hn].
  change (String c n +:+ t) with (String c (n +:+ t)).
  cbn [Str.contains]. rewrite prefix_cons, Hc. simpl. auto.
Qed.

End StrFacts.

(** ** [strings.Replacer] *)

Section ReplacerFacts.

Variable oldnew : Replacer.t.
Hypothesis keys_ok : Replacer.keys_nonempty oldnew.

Lemma lookup_Some (s old new : string) :
  Replacer.lookup oldnew s = Some (old, new) ->
  In (old, new) oldnew /\ String.prefix old s = true.
Proof. intros H. apply find_some in H. exact H. Qed.

Lemma lookup_Some_length (s old new : string) :
  Replacer.lookup oldnew s = Some (old, new) ->
  (1 <= String.length old)%nat.
Proof.
  intros H. apply lookup_Some in H as [Hin _].
  pose proof keys_ok as K. unfold Replacer.keys_nonempty in K.
  rewrite List.Forall_forall in K. specialize (K _ Hin). simpl in K.
  destruct old; [congruence | simpl; lia].
Qed.

(** The loop never runs out of fuel when it starts with the length of the
    input: any two sufficient amounts give the same result. *)
Lemma loop_fuel (n m : nat) (s : string) :
  (String.length s <= n)%nat -> (String.length s <= m)%nat ->
  Replacer.loop oldnew n s = Replacer.loop oldnew m s.
Proof.
  revert m s; induction n as [|n IH]; intros m s Hn Hm.
  - destruct s; simpl in Hn; [|lia]. now destruct m.
  - destruct m as [|m].
    + destruct s; simpl in Hm; [reflexivity | lia].
    + destruct s as [|c r]; [reflexivity|].
      cbn [Replacer.loop].
      destruct (Replacer.lookup oldnew (String c r)) as [[old new]|] eqn:E.
      * pose proof (lookup_Some_length _ _ _ E) as Hlen.
        assert (String.length (Str.drop (String.length old) (String c r))
                <= String.length r)%nat.
        { rewrite length_drop. simpl. lia. }
        simpl in Hn, Hm. f_equal. apply IH; lia.
      * simpl in Hn, Hm. f_equal. apply IH; lia.
Qed.

Lemma Replace_nil : Replacer.Replace oldnew "" = "".
Proof. reflexivity. Qed.

(** The equation of the scan at a non-empty input. *)
Lemma Replace_unfold (c : ascii) (r : string) :
  Replacer.Replace oldnew (String c r) =
  match Replacer.lookup oldnew (String c r) with
  | Some (old, new) =>
      new +:+ Replacer.Replace oldnew
                (Str.drop (String.length old) (String c r))
  | None => String c (Replacer.Replace oldnew r)
  end.
Proof.
  unfold Replacer.Replace at 1. cbn [String.length Replacer.loop].
  destruct (Replacer.lookup oldnew (String c r)) as [[old new]|] eqn:E.
  - pose proof (lookup_Some_length _ _ _ E) as Hlen.
    f_equal. unfold Replacer.Replace. apply loop_fuel.
    + rewrite length_drop. simpl. lia.
    + lia.
  - reflexivity.
Qed.

End ReplacerFacts.

(** ** [cleanHTML] *)

Lemma scriptReplacer_keys : Replacer.keys_nonempty scriptReplacer.
Proof. repeat constructor; discriminate. Qed.

Lemma htmlEscaper_keys : Replacer.keys_nonempty htmlEscaper.
Proof. repeat constructor; discriminate. Qed.

Lemma cleanHTML_nil : cleanHTML "" = "".
Proof. reflexivity. Qed.

(** The equation of [cleanHTML] at a non-empty input. *)
Lemma cleanHTML_cons (c : ascii) (r : string) :
  cleanHTML (String c r) =
  if String.prefix open_tag (String c r)
  then open_esc +:+ cleanHTML (Str.drop 7 (String c r))
  else if String.prefix close_tag (String c r)
       then close_esc +:+ cleanHTML (Str.drop 9 (String c r))
       else String c (cleanHTML r).
Proof.
  unfold cleanHTML. rewrite (Replace_unfold _ scriptReplacer_keys).
  unfold Replacer.lookup, scriptReplacer. cbn [List.find fst].
  fold open_tag close_tag.
  destruct (String.prefix open_tag (String c r)); [reflexivity|].
  destruct (String.prefix close_tag (String c r)); reflexivity.
Qed.

Lemma cleanHTML_open (r : string) :
  cleanHTML (open_tag +:+ r) = open_esc +:+ cleanHTML r.
Proof.
  change (open_tag +:+ r) with (String "<" ("script" +:+ r)) at 1.
  rewrite cleanHTML_cons.
  change (String "<" ("script" +:+ r)) with (open_tag +:+ r).
  rewrite prefix_app. f_equal.
Qed.

Lemma cleanHTML_close (r : string) :
  cleanHTML (close_tag +:+ r) = close_esc +:+ cleanHTML r.
Proof.
  change (close_tag +:+ r) with (String "<" ("/script>" +:+ r)) at 1.
  rewrite cleanHTML_cons.
  change (String "<" ("/script>" +:+ r)) with (close_tag +:+ r).
  rewrite prefix_app.
  replace (String.prefix open_tag (close_tag +:+ r)) with false
    by reflexivity.
  f_equal.
Qed.

Lemma cleanHTML_other (c : ascii) (r : string) :
  String.prefix open_tag (String c r) = false ->
  String.prefix close_tag (String c r) = false ->
  cleanHTML (String c r) = String c (cleanHTML r).
Proof. intros H1 H2. now rewrite cleanHTML_cons, H1, H2. Qed.

(** A byte other than [<] is copied. *)
Lemma cleanHTML_copy (c : ascii) (r : string) :
  Ascii.eqb "<" c = false -> cleanHTML (String c r) = String c (cleanHTML r).
Proof.
  intros H. apply cleanHTML_other; unfold open_tag, close_tag;
    rewrite prefix_cons, H; reflexivity.
Qed.

Lemma prefix_seam_eq (a c x : ascii) (k p r : string) :
  Str.has_byte x k = false ->
  String.prefix (String a k) (String c (p +:+ String x r))
  = String.prefix (String a k) (String c p).
Proof.
  intros Hk. rewrite !prefix_cons. f_equal.
  destruct (String.prefix k p) eqn:E.
  - now apply prefix_extend.
  - destruct (String.prefix k (p +:+ String x r)) eqn:E'; [|reflexivity].
    apply prefix_seam in E'; [congruence | exact Hk].
Qed.

Lemma drop_prefix_app (k s r : string) :
  String.prefix k s = true ->
  Str.drop (String.length k) (s +:+ r) = Str.drop (String.length k) s +:+ r.
Proof.
  intros H. apply prefix_true_inv in H as [q ->].
  now rewrite app_assoc_s, !drop_length_app.
Qed.

Lemma length_prefix_drop (k s : string) :
  String.prefix k s = true -> k <> "" ->
  (String.length (Str.drop (String.length k) s) < String.length s)%nat.
Proof.
  intros H Hk. apply prefix_true_inv in H as [q ->].
  rewrite drop_length_app, length_app_s. destruct k; [congruence | simpl; lia].
Qed.

(** No match of [cleanHTML] straddles a [<]: the scan of the text before a
    [<] ends exactly at it. *)
Lemma cleanHTML_seam (pre rest : string) :
  cleanHTML (pre +:+ String "<" rest)
  = cleanHTML pre +:+ cleanHTML (String "<" rest).
Proof.
  remember (String.length pre) as n eqn:Hn.
  assert (Hle : (String.length pre <= n)%nat) by lia. clear Hn.
  revert pre Hle. induction n as [|n IH]; intros pre Hle.
  - destruct pre; [reflexivity | simpl in Hle; lia].
  - destruct pre as [|c p]; [reflexivity|].
    change (String c p +:+ String "<" rest)
      with (String c (p +:+ String "<" rest)).
    rewrite (cleanHTML_cons c (p +:+ String "<" rest)), (cleanHTML_cons c p).
    unfold open_tag, close_tag.
    rewrite !prefix_seam_eq by reflexivity.
    fold open_tag close_tag.
    destruct (String.prefix open_tag (String c p)) eqn:E1.
    + pose proof (drop_prefix_app _ _ (String "<" rest) E1) as D.
      pose proof (length_prefix_drop _ _ E1 ltac:(discriminate)) as L.
      change (String.length open_tag) with 7%nat in D, L.
      change (String c (p +:+ String "<" rest))
        with (String c p +:+ String "<" rest).
      rewrite D, IH, app_assoc_s; [reflexivity | lia].
    + destruct (String.prefix close_tag (String c p)) eqn:E2.
      * pose proof (drop_prefix_app _ _ (String "<" rest) E2) as D.
        pose proof (length_prefix_drop _ _ E2 ltac:(discriminate)) as L.
        change (String.length close_tag) with 9%nat in D, L.
        change (String c (p +:+ String "<" rest))
          with (String c p +:+ String "<" rest).
        rewrite D, IH, app_assoc_s; [reflexivity | lia].
      * rewrite IH by (simpl in Hle; lia). reflexivity.
Qed.

(** Every occurrence of the opening tag is replaced, whatever surrounds
    it. *)
Lemma cleanHTML_open_anywhere (pre post : string) :
  cleanHTML (pre +:+ open_tag +:+ post)
  = cleanHTML pre +:+ open_esc +:+ cleanHTML post.
Proof.
  change (open_tag +:+ post) with (String "<" ("script" +:+ post)).
  rewrite cleanHTML_seam.
  change (String "<" ("script" +:+ post)) with (open_tag +:+ post).
  now rewrite cleanHTML_open.
Qed.

Lemma cleanHTML_close_anywhere (pre post : string) :
  cleanHTML (pre +:+ close_tag +:+ post)
  = cleanHTML pre +:+ close_esc +:+ cleanHTML post.
Proof.
  change (close_tag +:+ post) with (String "<" ("/script>" +:+ post)).
  rewrite cleanHTML_seam.
  change (String "<" ("/script>" +:+ post)) with (close_tag +:+ post).
  now rewrite cleanHTML_close.
Qed.

(** Text without either tag is returned as it is. *)
Lemma cleanHTML_id (s : string) :
  Str.contains open_tag s = false -> Str.contains close_tag s = false ->
  cleanHTML s = s.
Proof.
  induction s as [|c s IH]; intros H1 H2; [reflexivity|].
  cbn [Str.contains] in H1, H2.
  apply orb_false_iff in H1 as [P1 H1]. apply orb_false_iff in H2 as [P2 H2].
  rewrite cleanHTML_other by assumption. now rewrite IH.
Qed.

(** A key without [<] and [&] is a prefix of the output exactly when it
    is a prefix of the input. *)
Lemma cleanHTML_prefix (k s : string) :
  Str.has_byte "<" k = false -> Str.has_byte "&" k = false ->
  String.prefix k (cleanHTML s) = String.prefix k s.
Proof.
  revert s; induction k as [|a k IH]; intros s H1 H2.
  - now rewrite !prefix_nil_l.
  - cbn [Str.has_byte] in H1, H2.
    apply orb_false_iff in H1 as [A1 H1]. apply orb_false_iff in H2 as [A2 H2].
    rewrite Ascii.eqb_sym in A1, A2.
    destruct s as [|c s]; [reflexivity|].
    rewrite cleanHTML_cons.
    destruct (String.prefix open_tag (String c s)) eqn:E1.
    { apply prefix_true_inv in E1 as [q E1]. injection E1 as -> _.
      change (open_esc +:+ cleanHTML (Str.drop 7 (String "<" s)))
        with (String "&" ("lt;script" +:+ cleanHTML (Str.drop 7 (String "<" s)))).
      now rewrite !prefix_cons, A1, A2. }
    destruct (String.prefix close_tag (String c s)) eqn:E2.
    { apply prefix_true_inv in E2 as [q E2]. injection E2 as -> _.
      change (close_esc +:+ cleanHTML (Str.drop 9 (String "<" s)))
        with (String "&" ("lt;/script&gt;" +:+ cleanHTML (Str.drop 9 (String "<" s)))).
      now rewrite !prefix_cons, A1, A2. }
    rewrite !prefix_cons, IH by assumption. reflexivity.
Qed.

(** The output holds neither tag. *)
Lemma cleanHTML_no_tag (s : string) :
  Str.contains open_tag (cleanHTML s) = false /\
  Str.contains close_tag (cleanHTML s) = false.
Proof.
  remember (String.length s) as n eqn:Hn.
  assert (Hle : (String.length s <= n)%nat) by lia. clear Hn.
  revert s Hle. induction n as [|n IH]; intros s Hle.
  - destruct s; [split; reflexivity | simpl in Hle; lia].
  - destruct s as [|c s]; [split; reflexivity|].
    rewrite cleanHTML_cons.
    destruct (String.prefix open_tag (String c s)) eqn:E1.
    { pose proof (length_prefix_drop _ _ E1 ltac:(discriminate)) as L.
      change (String.length open_tag) with 7%nat in L.
      destruct (IH (Str.drop 7 (String c s)) ltac:(lia)) as [I1 I2].
      unfold open_tag, close_tag in *.
      rewrite !contains_skip by reflexivity. now split. }
    destruct (String.prefix close_tag (String c s)) eqn:E2.
    { pose proof (length_prefix_drop _ _ E2 ltac:(discriminate)) as L.
      change (String.length close_tag) with 9%nat in L.
      destruct (IH (Str.drop 9 (String c s)) ltac:(lia)) as [I1 I2].
      unfold open_tag, close_tag in *.
      rewrite !contains_skip by reflexivity. now split. }
    simpl in Hle. destruct (IH s ltac:(lia)) as [I1 I2].
    cbn [Str.contains]. rewrite I1, I2, !orb_false_r.
    unfold open_tag, close_tag in *.
    rewrite !prefix_cons in *.
    rewrite !cleanHTML_prefix by reflexivity. now split.
Qed.

Lemma cleanHTML_copy_str (k r : string) :
  Str.has_byte "<" k = false -> cleanHTML (k +:+ r) = k +:+ cleanHTML r.
Proof.
  induction k as [|c k IH]; intros H; [reflexivity|].
  cbn [Str.has_byte] in H. apply orb_false_iff in H as [Hc H].
  change (String c k +:+ r) with (String c (k +:+ r)).
  rewrite cleanHTML_copy by exact Hc. now rewrite IH.
Qed.

Lemma occurs_app_l (sub s pre : string) :
  Str.occurs sub s -> Str.occurs sub (pre +:+ s).
Proof.
  intros (a & b & ->). exists (pre +:+ a), b. now rewrite app_assoc_s.
Qed.

Lemma occurs_here (sub post : string) : Str.occurs sub (sub +:+ post).
Proof. exists "", post. reflexivity. Qed.

Lemma not_occurs (sub s : string) :
  Str.contains sub s = false -> ~ Str.occurs sub s.
Proof. intros H O. apply contains_occurs in O. congruence. Qed.

(** C2. [cleanHTML] replaces every occurrence of [<script] by [&lt;script]
    and every occurrence of [</script>] by [&lt;/script&gt;], whatever text
    surrounds the occurrence, and returns text without either tag as it is;
    its output holds neither tag.  The match is on the exact bytes: the
    upper-case tags pass.  Content holding [<script>alert(1)</script>]
    comes out with no [<script] and with the escaped form, and
    [<b>bold</b>] comes out as it went in. *)
Theorem cleanHTML_escapes_script_tags :
  (forall pre post,
      cleanHTML (pre +:+ "<script" +:+ post)
      = cleanHTML pre +:+ "&lt;script" +:+ cleanHTML post) /\
  (forall pre post,
      cleanHTML (pre +:+ "</script>" +:+ post)
      = cleanHTML pre +:+ "&lt;/script&gt;" +:+ cleanHTML post) /\
  (forall s,
      Str.contains "<script" s = false ->
      Str.contains "</script>" s = false -> cleanHTML s = s) /\
  (forall s,
      ~ Str.occurs "<script" (cleanHTML s) /\
      ~ Str.occurs "</script>" (cleanHTML s)) /\
  cleanHTML "<SCRIPT>x</SCRIPT>" = "<SCRIPT>x</SCRIPT>" /\
  (forall pre post,
      let out := cleanHTML (pre +:+ "<script>alert(1)</script>" +:+ post) in
      ~ Str.occurs "<script" out /\
      Str.occurs "&lt;script>alert(1)&lt;/script&gt;" out) /\
  (forall pre post,
      Str.occurs "<b>bold</b>"
        (cleanHTML (pre +:+ "<b>bold</b>" +:+ post))).
Proof.
  split; [exact cleanHTML_open_anywhere|].
  split; [exact cleanHTML_close_anywhere|].
  split; [exact cleanHTML_id|].
  split.
  { intros s. destruct (cleanHTML_no_tag s) as [H1 H2].
    split; apply not_occurs; assumption. }
  split; [reflexivity|].
  split.
  - intros pre post out. split.
    + apply not_occurs, cleanHTML_no_tag.
    + subst out.
      change ("<script>alert(1)</script>" +:+ post)
        with (open_tag +:+ (">alert(1)" +:+ close_tag +:+ post)).
      rewrite cleanHTML_open_anywhere.
      rewrite cleanHTML_copy_str by reflexivity.
      rewrite cleanHTML_close.
      apply occurs_app_l. exists "", (cleanHTML post). reflexivity.
  - intros pre post.
    change ("<b>bold</b>" +:+ post)
      with (String "<" ("b>bold" +:+ String "<" ("/b>" +:+ post))).
    rewrite cleanHTML_seam. apply occurs_app_l.
    rewrite cleanHTML_other by reflexivity.
    change ("b>bold" +:+ String "<" ("/b>" +:+ post))
      with (("b>bold" +:+ "") +:+ String "<" ("/b>" +:+ post)).
    rewrite cleanHTML_seam. 
    rewrite cleanHTML_other by reflexivity.
    rewrite (cleanHTML_copy_str "/b>") by reflexivity.
    exists "", (cleanHTML post). reflexivity.
Qed.

(** ** [html.EscapeString] *)

Lemma EscapeString_cons (c : ascii) (r : string) :
  EscapeString (String c r) = escape_byte c +:+ EscapeString r.
Proof.
  unfold EscapeString. rewrite (Replace_unfold _ htmlEscaper_keys).
  unfold Replacer.lookup, htmlEscaper, escape_byte, dq.
  cbn [List.find fst]. rewrite !prefix_cons, !prefix_nil_l, !andb_true_r.
  rewrite !(Ascii.eqb_sym c).
  repeat match goal with
         | |- context [Ascii.eqb ?k c] =>
             destruct (Ascii.eqb k c); [reflexivity|]
         end.
  reflexivity.
Qed.

Lemma EscapeString_spec (s : string) : EscapeString s = escape_spec s.
Proof.
  induction s as [|c r IH]; [reflexivity|].
  now rewrite EscapeString_cons, IH.
Qed.

Lemma has_byte_app (x : ascii) (a b : string) :
  Str.has_byte x (a +:+ b) = Str.has_byte x a || Str.has_byte x b.
Proof.
  induction a as [|c a IH]; [reflexivity|].
  change (String c a +:+ b) with (String c (a +:+ b)).
  cbn [Str.has_byte]. now rewrite IH, orb_assoc.
Qed.

Lemma escape_byte_free (x c : ascii) :
  (x = "<" \/ x = ">" \/ x = dquote_byte \/ x = "'")%char ->
  Str.has_byte x (escape_byte c) = false.
Proof.
  intros Hx. unfold escape_byte.
  destruct (Ascii.eqb c "&") eqn:E1;
    [destruct Hx as [-> | [-> | [-> | ->]]]; reflexivity|].
  destruct (Ascii.eqb c "'") eqn:E2;
    [destruct Hx as [-> | [-> | [-> | ->]]]; reflexivity|].
  destruct (Ascii.eqb c "<") eqn:E3;
    [destruct Hx as [-> | [-> | [-> | ->]]]; reflexivity|].
  destruct (Ascii.eqb c ">") eqn:E4;
    [destruct Hx as [-> | [-> | [-> | ->]]]; reflexivity|].
  destruct (Ascii.eqb c dquote_byte) eqn:E5;
    [destruct Hx as [-> | [-> | [-> | ->]]]; reflexivity|].
  cbn [Str.has_byte]. rewrite orb_false_r, Ascii.eqb_sym.
  destruct Hx as [-> | [-> | [-> | ->]]]; assumption.
Qed.

(** Escaped text holds no [<], [>], double quote or apostrophe. *)
Lemma EscapeString_markup_free (s : string) : markup_free (EscapeString s).
Proof.
  rewrite EscapeString_spec. unfold markup_free.
  induction s as [|c r (I1 & I2 & I3 & I4)]; [repeat split|].
  cbn [escape_spec]. rewrite !has_byte_app, I1, I2, I3, I4, !orb_false_r.
  repeat split; apply escape_byte_free; auto.
Qed.

(** ** [buildHTML] and [buildMetadata] *)

Lemma Sprintf_lit (c : ascii) (rest : string) (args : list arg) :
  Ascii.eqb c "%" = false ->
  Sprintf (String c rest) args = String c (Sprintf rest args).
Proof. intros H. cbn [Sprintf]. now rewrite H. Qed.

Lemma Sprintf_s (rest s : string) (args : list arg) :
  Sprintf (String "%" (String "s" rest)) (ArgS s :: args)
  = s +:+ Sprintf rest args.
Proof. reflexivity. Qed.

Lemma Sprintf_d (rest : string) (n : Z) (args : list arg) :
  Sprintf (String "%" (String "d" rest)) (ArgD n :: args)
  = itoa n +:+ Sprintf rest args.
Proof. reflexivity. Qed.

Ltac sprintf :=
  repeat first
    [ rewrite Sprintf_s
    | rewrite Sprintf_d
    | rewrite Sprintf_lit by reflexivity ].

Lemma buildHTML_closed (a : Article) :
  buildHTML a =
  "<h1>" +:+ EscapeString (Title a) +:+ "</h1>" +:+ nl +:+
  match Excerpt a with
  | EmptyString => EmptyString
  | _ => "<p>" +:+ EscapeString (Excerpt a) +:+ "</p>" +:+ nl
  end +:+
  "<div>" +:+ nl +:+ cleanHTML (Content a) +:+ nl +:+ "</div>" +:+ nl +:+
  "<h3>Metadata</h3>" +:+ nl +:+
  "<p>Source Url: <a href=" +:+ dq +:+ Link a +:+ dq +:+ ">" +:+ Link a
    +:+ "</a></p>" +:+
  "<p>Published Date: " +:+ PublishDate a +:+ "</p>" +:+
  "<p>Updated Date: " +:+ UpdatedDate a +:+ "</p>".
Proof.
  unfold buildHTML, Builder.String, Builder.WriteString, Builder.empty.
  cbv [nl dq]. cbn [String.append]. sprintf. cbn [Sprintf].
  destruct (Excerpt a) as [|c e]; cbn [String.eqb negb];
    repeat (progress (rewrite ?app_assoc_s; cbn [String.append]));
    reflexivity.
Qed.

(** C7. The rendered HTML is, in this order: the escaped title in an [h1]
    element; a [p] element with the escaped excerpt, present exactly when
    the excerpt is not empty; the cleaned content in a [div] element; and
    the metadata block: a heading, the source link as a hyperlink whose
    text is the URL, the publish date and the updated date, both dates as
    they are in the record.  Escaping turns each of the five special bytes
    into its entity and leaves no [<], [>] or quote in the text. *)
Theorem buildHTML_layout (a : Article) :
  buildHTML a =
  "<h1>" +:+ escape_spec (Title a) +:+ "</h1>" +:+ nl +:+
  match Excerpt a with
  | EmptyString => EmptyString
  | _ => "<p>" +:+ escape_spec (Excerpt a) +:+ "</p>" +:+ nl
  end +:+
  "<div>" +:+ nl +:+ cleanHTML (Content a) +:+ nl +:+ "</div>" +:+ nl +:+
  "<h3>Metadata</h3>" +:+ nl +:+
  "<p>Source Url: <a href=" +:+ dq +:+ Link a +:+ dq +:+ ">" +:+ Link a
    +:+ "</a></p>" +:+
  "<p>Published Date: " +:+ PublishDate a +:+ "</p>" +:+
  "<p>Updated Date: " +:+ UpdatedDate a +:+ "</p>"
  /\ markup_free (escape_spec (Title a))
  /\ markup_free (escape_spec (Excerpt a)).
Proof.
  rewrite buildHTML_closed, <- !EscapeString_spec.
  split; [reflexivity|]. split; apply EscapeString_markup_free.
Qed.

(** C10. The link of the record is written as it is, unescaped, as the
    value of the [href] attribute and as the text of the hyperlink: what
    precedes and what follows the hyperlink does not depend on the link,
    and between them the link stands twice, byte for byte.  A link with a
    double quote and an angle bracket shows both inside the attribute and
    inside the element. *)
Theorem buildHTML_link_verbatim :
  (forall title content excerpt published updated,
      exists before after,
        forall link,
          buildHTML {| Title := title; Content := content;
                       Excerpt := excerpt; Link := link;
                       PublishDate := published; UpdatedDate := updated |}
          = before +:+ "<a href=" +:+ dq +:+ link +:+ dq +:+ ">" +:+ link
              +:+ "</a>" +:+ after) /\
  (let link := "http://e.x/?q=" +:+ dq +:+ "><i>" in
   Str.occurs
     ("<a href=" +:+ dq +:+ "http://e.x/?q=" +:+ dq +:+ "><i>" +:+ dq
        +:+ ">http://e.x/?q=" +:+ dq +:+ "><i></a>")
     (buildHTML {| Title := "t"; Content := "c"; Excerpt := "";
                   Link := link; PublishDate := "p"; UpdatedDate := "u" |})).
Proof.
  split.
  - intros title content excerpt published updated.
    exists ("<h1>" +:+ EscapeString title +:+ "</h1>" +:+ nl +:+
            match excerpt with
            | EmptyString => EmptyString
            | _ => "<p>" +:+ EscapeString excerpt +:+ "</p>" +:+ nl
            end +:+
            "<div>" +:+ nl +:+ cleanHTML content +:+ nl +:+ "</div>" +:+ nl
            +:+ "<h3>Metadata</h3>" +:+ nl +:+ "<p>Source Url: ").
    exists ("</p><p>Published Date: " +:+ published +:+ "</p>" +:+
            "<p>Updated Date: " +:+ updated +:+ "</p>").
    intros link. rewrite buildHTML_closed. cbn [Title Content Excerpt Link
      PublishDate UpdatedDate].
    repeat (progress (rewrite ?app_assoc_s; cbn [String.append])).
    reflexivity.
  - apply occurs_contains. vm_compute. reflexivity.
Qed.

(** C8. The metadata mapping has exactly three entries: [title] holds the
    title, [creation_date] the publish date and [source_url] the link; no
    other key is present. *)
Theorem buildMetadata_entries (a : Article) :
  buildMetadata a !! "title" = Some (AnyString (Title a)) /\
  buildMetadata a !! "creation_date" = Some (AnyString (PublishDate a)) /\
  buildMetadata a !! "source_url" = Some (AnyString (Link a)) /\
  dom (buildMetadata a)
    = ({["title"; "creation_date"; "source_url"]} : gset string) /\
  size (buildMetadata a) = 3%nat /\
  (forall k, k <> "title" -> k <> "creation_date" -> k <> "source_url" ->
             buildMetadata a !! k = None).
Proof.
  unfold buildMetadata.
  split; [apply lookup_insert_eq|].
  split; [rewrite lookup_insert_ne by discriminate; apply lookup_insert_eq|].
  split; [rewrite !lookup_insert_ne by discriminate; apply lookup_insert_eq|].
  split; [rewrite !dom_insert_L, dom_empty_L; set_solver|].
  split.
  - rewrite !map_size_insert_None, map_size_empty;
      rewrite ?lookup_insert_ne by discriminate; done.
  - intros k H1 H2 H3. rewrite !lookup_insert_ne by congruence. done.
Qed.

(** ** Reversal and last bytes *)

Lemma rev_append_app (a acc : string) :
  Str.rev_append a acc = Str.rev a +:+ acc.
Proof.
  unfold Str.rev. revert acc; induction a as [|c a IH]; intros acc.
  - reflexivity.
  - cbn [Str.rev_append]. rewrite (IH (String c acc)), (IH (String c "")).
    now rewrite app_assoc_s.
Qed.

Lemma rev_cons (c : ascii) (a : string) :
  Str.rev (String c a) = Str.rev a +:+ String c "".
Proof. unfold Str.rev at 1. cbn [Str.rev_append]. apply rev_append_app. Qed.

Lemma rev_app (a b : string) : Str.rev (a +:+ b) = Str.rev b +:+ Str.rev a.
Proof.
  induction a as [|c a IH].
  - cbn. now rewrite app_nil_r_s.
  - change (String c a +:+ b) with (String c (a +:+ b)).
    now rewrite !rev_cons, IH, app_assoc_s.
Qed.

Lemma rev_involutive (a : string) : Str.rev (Str.rev a) = a.
Proof.
  induction a as [|c a IH]; [reflexivity|].
  now rewrite rev_cons, rev_app, IH.
Qed.

Lemma last_app_cons (a : string) (c : ascii) (b : string) :
  Str.last (a +:+ String c b) = Str.last (String c b).
Proof.
  induction a as [|x a IH]; [reflexivity|].
  change (String x a +:+ String c b) with (String x (a +:+ String c b)).
  cbn [Str.last]. destruct (a +:+ String c b) eqn:E; [|exact IH].
  destruct a; discriminate.
Qed.

Lemma last_rev_append (a : string) (c : ascii) (b : string) :
  Str.last (Str.rev_append a (String c b)) = Str.last (String c b).
Proof. rewrite rev_append_app. apply last_app_cons. Qed.

(** A string is empty or ends in a byte. *)
Lemma snoc_cases (s : string) :
  s = "" \/ exists a c, s = a +:+ String c "".
Proof.
  rewrite <- (rev_involutive s). destruct (Str.rev s) as [|c r].
  - now left.
  - right. exists (Str.rev r), c. apply rev_cons.
Qed.

Lemma dropCR_rev (f : string) :
  Str.last f <> Some (ascii_of_nat 13) -> bufio.dropCR (Str.rev f) = f.
Proof.
  intros H. destruct (snoc_cases f) as [->|(a & c & ->)]; [reflexivity|].
  rewrite last_app_cons in H. cbn [Str.last] in H.
  rewrite rev_app. change (Str.rev (String c "")) with (String c "").
  change (String c "" +:+ Str.rev a) with (String c (Str.rev a)).
  cbn [bufio.dropCR].
  destruct (Ascii.eqb c (ascii_of_nat 13)) eqn:E.
  - apply Ascii.eqb_eq in E. congruence.
  - change (String c (Str.rev a)) with (String c "" +:+ Str.rev a).
    change (String c "") with (Str.rev (String c "")).
    now rewrite <- rev_app, rev_involutive.
Qed.

(** ** [utf8] and [strings.TrimSpace]: the last byte of the result *)

Lemma byte_val_range (c : ascii) : 0 <= byte_val c < 256.
Proof.
  unfold byte_val. pose proof (N_ascii_bounded c). lia.
Qed.

Lemma asciiSpace_high (b : Z) : 0x21 <= b -> strings.asciiSpace b = false.
Proof.
  intros H. unfold strings.asciiSpace.
  repeat (rewrite (proj2 (Z.eqb_neq _ _)) by lia). reflexivity.
Qed.

Lemma IsSpace_ascii (b : Z) :
  b < 0x80 -> unicode.IsSpace b = false -> strings.asciiSpace b = false.
Proof.
  intros Hb. unfold unicode.IsSpace, unicode.MaxLatin1, strings.asciiSpace.
  rewrite (proj2 (Z.leb_le _ _)) by lia.
  rewrite !orb_false_iff. tauto.
Qed.

Lemma first_lo (b : Z) (sz : nat) (lo hi : Z) :
  utf8.first b = Some (sz, (lo, hi)) -> 0x80 <= lo.
Proof.
  unfold utf8.first, utf8.locb.
  repeat match goal with
         | |- context [if ?c then _ else _] => destruct c
         end; intros H; inversion H; lia.
Qed.

(** The bytes of a rune decoded at a non-ASCII byte end in a non-ASCII
    byte. *)
Lemma Decode_take_last (c : ascii) (s' : string) :
  utf8.RuneSelf <= byte_val c ->
  exists d,
    Str.last (Str.take (snd (utf8.DecodeRuneInString (String c s')))
                (String c s')) = Some d /\
    utf8.RuneSelf <= byte_val d.
Proof.
  intros Hc. unfold utf8.DecodeRuneInString.
  rewrite (proj2 (Z.ltb_ge _ _)) by exact Hc.
  destruct (utf8.first (byte_val c)) as [[sz [lo hi]]|] eqn:F;
    [|exists c; now split].
  apply first_lo in F.
  destruct (String.length (String c s') <? sz)%nat; [exists c; now split|].
  destruct s' as [|c1 r1]; [exists c; now split|].
  destruct ((byte_val c1 <? lo) || (hi <? byte_val c1)) eqn:E1;
    [exists c; now split|].
  apply orb_false_iff in E1 as [E1 _]. apply Z.ltb_ge in E1.
  destruct (sz <=? 2)%nat.
  { exists c1. split; [reflexivity | unfold utf8.RuneSelf; lia]. }
  destruct r1 as [|c2 r2]; [exists c; now split|].
  destruct (utf8.is_cont (byte_val c2)) eqn:E2; cbn [negb];
    [|exists c; now split].
  unfold utf8.is_cont, utf8.locb in E2.
  apply andb_true_iff in E2 as [E2 _]. apply Z.leb_le in E2.
  destruct (sz <=? 3)%nat.
  { exists c2. split; [reflexivity | unfold utf8.RuneSelf; lia]. }
  destruct r2 as [|c3 r3]; [exists c; now split|].
  destruct (utf8.is_cont (byte_val c3)) eqn:E3; cbn [negb];
    [|exists c; now split].
  unfold utf8.is_cont, utf8.locb in E3.
  apply andb_true_iff in E3 as [E3 _]. apply Z.leb_le in E3.
  exists c3. split; [reflexivity | unfold utf8.RuneSelf; lia].
Qed.

Lemma Decode_ascii (c : ascii) (s' : string) :
  byte_val c < utf8.RuneSelf ->
  utf8.DecodeRuneInString (String c s') = (byte_val c, 1%nat).
Proof.
  intros H. unfold utf8.DecodeRuneInString.
  now rewrite (proj2 (Z.ltb_lt _ _)) by exact H.
Qed.

Lemma find_start_pos (budget : nat) (r : string) (back : nat) :
  utf8.find_start budget r = Some back -> (1 <= back)%nat.
Proof.
  revert r back; induction budget as [|n IH]; intros r back H;
    [discriminate|].
  destruct r as [|c r]; [discriminate|]. cbn [utf8.find_start] in H.
  destruct (utf8.RuneStart (byte_val c)).
  - injection H as <-. lia.
  - destruct (utf8.find_start n r); [|discriminate].
    injection H as <-. lia.
Qed.

(** Moving the last rune of the reversed prefix in front of the suffix: if
    the suffix then starts with an ASCII byte, that byte is the rune. *)
Lemma DecodeLast_head (c : ascii) (r' suf : string) :
  exists d rest,
    Str.rev_append
      (Str.take (snd (utf8.DecodeLastRuneInString (String c r')))
         (String c r')) suf = String d rest /\
    (byte_val d < utf8.RuneSelf ->
     fst (utf8.DecodeLastRuneInString (String c r')) = byte_val d).
Proof.
  unfold utf8.DecodeLastRuneInString.
  destruct (byte_val c <? utf8.RuneSelf) eqn:Hc.
  { exists c, suf. split; reflexivity. }
  apply Z.ltb_ge in Hc.
  destruct (utf8.find_start (utf8.UTFMax - 1) r') as [back|] eqn:F.
  2:{ exists c, suf. split; [reflexivity | intros; lia]. }
  apply find_start_pos in F.
  destruct (utf8.DecodeRuneInString (Str.rev (Str.take (S back) (String c r'))))
    as [rn size] eqn:D.
  destruct (size =? S back)%nat eqn:E.
  2:{ exists c, suf. split; [reflexivity | intros; lia]. }
  apply Nat.eqb_eq in E. subst size. cbn [snd fst].
  rewrite rev_append_app.
  destruct (Str.rev (Str.take (S back) (String c r'))) as [|d fwd] eqn:R.
  { cbn in D. injection D as _ D. lia. }
  exists d, (fwd +:+ suf). split; [reflexivity|].
  intros Hd. rewrite (Decode_ascii _ _ Hd) in D. injection D as _ D. lia.
Qed.

Lemma trimRightLoop_last (fuel : nat) (rp suf : string) :
  ends_in_space (strings.trimRightLoop unicode.IsSpace fuel rp suf) = false.
Proof.
  revert rp suf; induction fuel as [|fuel IH]; intros rp suf; [reflexivity|].
  cbn [strings.trimRightLoop]. destruct rp as [|c r']; [reflexivity|].
  destruct (DecodeLast_head c r' suf) as (d & rest & Hsuf & Hd).
  destruct (utf8.DecodeLastRuneInString (String c r')) as [rn size] eqn:D.
  cbn [fst snd] in Hsuf, Hd.
  destruct (unicode.IsSpace rn) eqn:Sp; [apply IH|].
  rewrite Hsuf. unfold ends_in_space.
  destruct (utf8.RuneSelf <=? byte_val d) eqn:Hhi.
  - apply Z.leb_le in Hhi.
    destruct (Decode_take_last d rest Hhi) as (x & Hx & Hxhi).
    destruct (Str.take _ (String d rest)) as [|y t] eqn:T; [discriminate|].
    rewrite last_rev_append, Hx. apply asciiSpace_high.
    unfold utf8.RuneSelf in Hxhi. lia.
  - apply Z.leb_gt in Hhi. cbn [Str.take].
    rewrite last_rev_append. cbn [Str.last].
    apply IsSpace_ascii; [exact Hhi|]. rewrite <- (Hd Hhi). exact Sp.
Qed.

Lemma trimSpaceStop_last (r : string) :
  ends_in_space (strings.trimSpaceStop r) = false.
Proof.
  induction r as [|c r IH]; [reflexivity|]. cbn [strings.trimSpaceStop].
  destruct (utf8.RuneSelf <=? byte_val c); [apply trimRightLoop_last|].
  destruct (strings.asciiSpace (byte_val c)) eqn:E; [exact IH|].
  rewrite rev_cons. unfold ends_in_space. rewrite last_app_cons.
  exact E.
Qed.

(** The result of [TrimSpace] does not end in an ASCII white-space byte. *)
Lemma TrimSpace_last (s : string) :
  ends_in_space (strings.TrimSpace s) = false.
Proof.
  induction s as [|c s IH]; [reflexivity|]. cbn [strings.TrimSpace].
  destruct (utf8.RuneSelf <=? byte_val c); [apply trimRightLoop_last|].
  destruct (strings.asciiSpace (byte_val c)); [exact IH|].
  apply trimSpaceStop_last.
Qed.

Lemma TrimSpace_fixed_no_CR (f : string) :
  strings.TrimSpace f = f -> Str.last f <> Some (ascii_of_nat 13).
Proof.
  intros H L. pose proof (TrimSpace_last f) as E.
  rewrite H in E. unfold ends_in_space in E. rewrite L in E. discriminate.
Qed.

(** ** [bufio.Scanner], [readFileList], [saveFilesToFile] *)

Lemma writer_fold (files : list string) (w : string) :
  fold_left (fun w f => Builder.WriteString w (f +:+ nl)) files w
  = w +:+ lines files.
Proof.
  revert w; induction files as [|f files IH]; intros w.
  - cbn. now rewrite app_nil_r_s.
  - cbn [fold_left lines fold_right]. rewrite IH.
    unfold Builder.WriteString. now rewrite !app_assoc_s.
Qed.

Lemma scan_line (f : string) :
  forall cur n rest,
    Str.has_byte newline_byte f = false ->
    (n + N.of_nat (String.length f) < bufio.MaxScanTokenSize)%N ->
    bufio.scan (f +:+ nl +:+ rest) cur n =
    (bufio.dropCR (Str.rev_append f cur) :: fst (bufio.scan rest "" 0%N),
     snd (bufio.scan rest "" 0%N)).
Proof.
  induction f as [|c f IH]; intros cur n rest Hnl Hlen.
  - change ("" +:+ nl +:+ rest) with (String newline_byte rest).
    cbn [bufio.scan]. rewrite Ascii.eqb_refl.
    now destruct (bufio.scan rest "" 0%N).
  - cbn [Str.has_byte] in Hnl. apply orb_false_iff in Hnl as [Hc Hnl].
    change (String c f +:+ nl +:+ rest) with (String c (f +:+ nl +:+ rest)).
    cbn [bufio.scan]. rewrite Ascii.eqb_sym, Hc.
    cbn [String.length] in Hlen.
    replace (bufio.MaxScanTokenSize <=? n + 1)%N with false
      by (symmetry; apply N.leb_gt; lia).
    rewrite IH by (try assumption; lia). reflexivity.
Qed.

Lemma scan_lines (files : list string) :
  Forall (fun f => plain_id f /\ short_id f) files ->
  bufio.ScanLines (lines files) = (files, None).
Proof.
  unfold bufio.ScanLines. induction 1 as [|f files [(Ht & Hne & Hnl) Hs] _ IH].
  - reflexivity.
  - cbn [lines fold_right]. fold (lines files).
    rewrite scan_line by (try assumption; unfold short_id in Hs; lia).
    rewrite IH. cbn [fst snd]. change (Str.rev_append f "") with (Str.rev f).
    rewrite dropCR_rev by (now apply TrimSpace_fixed_no_CR). reflexivity.
Qed.

(** The loop of [readFileList] trims every token and skips those that are
    empty afterwards. *)
Lemma collectPaths_filter (tokens : list string) :
  collectPaths tokens
  = List.filter (fun p => negb (String.eqb p ""))
      (List.map strings.TrimSpace tokens).
Proof.
  unfold collectPaths.
  enough (G : forall acc,
             fold_left
               (fun files tok =>
                  let path := strings.TrimSpace tok in
                  if negb (String.eqb path "") then (files ++ [path])%list
                  else files) tokens acc
             = (acc ++ List.filter (fun p => negb (String.eqb p ""))
                         (List.map strings.TrimSpace tokens))%list)
    by apply (G []).
  induction tokens as [|t tokens IH]; intros acc.
  - cbn. now rewrite app_nil_r.
  - cbn [fold_left List.map List.filter]. rewrite IH.
    destruct (negb (String.eqb (strings.TrimSpace t) "")); [|reflexivity].
    now rewrite <- app_assoc.
Qed.

Lemma collectPaths_plain (files : list string) :
  Forall plain_id files -> collectPaths files = files.
Proof.
  rewrite collectPaths_filter.
  induction 1 as [|f files (Ht & Hne & _) _ IH]; [reflexivity|].
  cbn [List.map List.filter]. rewrite Ht, IH.
  destruct (String.eqb f "") eqn:E; [|reflexivity].
  apply String.eqb_eq in E. congruence.
Qed.

(** C4, as amended.  [saveFilesToFile] writes one identifier per line, and
    [readFileList] on the written file returns the same list in the same
    order, for every list whose identifiers are unchanged by [TrimSpace],
    not empty, free of line feeds and shorter than the 65536 bytes of the
    scanner's buffer.  The reader trims each line and skips the lines that
    are then empty. *)
Theorem save_then_read_round_trip
  (fs : FileSystem) (outputFile : string) (files : list string) :
  Forall (fun f => plain_id f /\ short_id f) files ->
  can_create fs outputFile = true ->
  snd (saveFilesToFile fs outputFile files) = None /\
  contents (fst (saveFilesToFile fs outputFile files)) !! outputFile
  = Some (lines files) /\
  readFileList (fst (saveFilesToFile fs outputFile files)) outputFile
  = inr files /\
  (forall fs' path data tokens,
      contents fs' !! path = Some data ->
      bufio.ScanLines data = (tokens, None) ->
      readFileList fs' path
      = inr (List.filter (fun p => negb (String.eqb p ""))
               (List.map strings.TrimSpace tokens))).
Proof.
  intros Hall Hc. unfold saveFilesToFile. rewrite Hc. cbn [fst snd].
  rewrite writer_fold. change (Builder.empty +:+ lines files) with (lines files).
  split; [reflexivity|].
  split; [cbn; apply lookup_insert_eq|].
  split.
  - unfold readFileList, os_Open, os_WriteFile. cbn [contents].
    rewrite lookup_insert_eq, (scan_lines _ Hall).
    rewrite collectPaths_plain; [reflexivity|].
    eapply Forall_impl; [exact Hall|]. now intros f [H _].
  - intros fs' path data tokens Hd Hs.
    unfold readFileList, os_Open. rewrite Hd, Hs.
    now rewrite collectPaths_filter.
Qed.

Lemma save_then_read_round_trip_witness :
  snd (saveFilesToFile fs_empty "failed.txt" ["a.json"; "dir/b c.json"])
  = None /\
  readFileList
    (fst (saveFilesToFile fs_empty "failed.txt" ["a.json"; "dir/b c.json"]))
    "failed.txt"
  = inr ["a.json"; "dir/b c.json"].
Proof.
  assert (Hall : Forall (fun f => plain_id f /\ short_id f)
                   ["a.json"; "dir/b c.json"]).
  { repeat constructor; try discriminate; vm_compute; reflexivity. }
  destruct (save_then_read_round_trip fs_empty "failed.txt"
              ["a.json"; "dir/b c.json"] Hall eq_refl) as (H1 & _ & H3 & _).
  split; [exact H1 | exact H3].
Defined.

(** A string that starts and ends with ASCII bytes other than white space
    is left as it is by [TrimSpace]. *)
Lemma TrimSpace_plain_ends (c d : ascii) (r : string) :
  byte_val c < utf8.RuneSelf -> strings.asciiSpace (byte_val c) = false ->
  byte_val d < utf8.RuneSelf -> strings.asciiSpace (byte_val d) = false ->
  Str.last (String c r) = Some d ->
  strings.TrimSpace (String c r) = String c r.
Proof.
  intros Hc Sc Hd Sd L. cbn [strings.TrimSpace].
  rewrite (proj2 (Z.leb_gt _ _)) by exact Hc. rewrite Sc.
  destruct (snoc_cases (String c r)) as [E|(a & x & E)]; [discriminate|].
  rewrite E in L |- *. rewrite last_app_cons in L. cbn [Str.last] in L.
  injection L as ->.
  rewrite rev_app. change (Str.rev (String d "")) with (String d "").
  change (String d "" +:+ Str.rev a) with (String d (Str.rev a)).
  cbn [strings.trimSpaceStop].
  rewrite (proj2 (Z.leb_gt _ _)) by exact Hd. rewrite Sd.
  change (String d (Str.rev a)) with (String d "" +:+ Str.rev a).
  change (String d "") with (Str.rev (String d "")) at 1.
  now rewrite <- rev_app, rev_involutive.
Qed.

Lemma long_id_plain : plain_id long_id.
Proof.
  split; [|split].
  - change long_id with (String "a" (Str.repeat "a" (N.to_nat 65535))).
    apply (TrimSpace_plain_ends "a" "a"); reflexivity.
  - change long_id with (String "a" (Str.repeat "a" (N.to_nat 65535))).
    discriminate.
  - vm_compute. reflexivity.
Qed.

Lemma read_long_id_fails :
  readFileList (fst (saveFilesToFile fs_empty "failed.txt" [long_id]))
    "failed.txt"
  = inl ErrTooLong.
Proof. vm_compute. reflexivity. Qed.

(** C4, as stated, fails: an identifier of 65536 bytes meets every
    condition of the claim, is written, and makes the reader stop with
    [ErrTooLong]. *)
Lemma round_trip_fails_on_long_identifier :
  ~ (forall (fs : FileSystem) (outputFile : string) (files : list string),
        Forall plain_id files ->
        can_create fs outputFile = true ->
        readFileList (fst (saveFilesToFile fs outputFile files)) outputFile
        = inr files).
Proof.
  intros H.
  pose proof (@ListDef.Forall_cons _ plain_id long_id [] long_id_plain
                (@ListDef.Forall_nil _ plain_id)) as P.
  specialize (H fs_empty "failed.txt" [long_id] P eq_refl).
  pose proof (eq_trans (eq_sym read_long_id_fails) H) as X.
  discriminate X.
Qed.

(** ** Lengths under trimming *)

Lemma length_take (n : nat) (s : string) :
  String.length (Str.take n s) = Nat.min n (String.length s).
Proof.
  revert s; induction n as [|n IH]; intros [|c s]; cbn; auto.
Qed.

Lemma length_rev_append (a b : string) :
  String.length (Str.rev_append a b)
  = (String.length a + String.length b)%nat.
Proof.
  revert b; induction a as [|c a IH]; intros b; [reflexivity|].
  cbn [Str.rev_append]. rewrite IH. cbn. lia.
Qed.

Lemma length_rev (a : string) : String.length (Str.rev a) = String.length a.
Proof. unfold Str.rev. rewrite length_rev_append. cbn. lia. Qed.


Lemma length_trimLeftLoop (f : Z -> bool) (fuel : nat) (s : string) :
  (String.length (strings.trimLeftLoop f fuel s) <= String.length s)%nat.
Proof.
  revert s; induction fuel as [|fuel IH]; intros s; [reflexivity|].
  cbn [strings.trimLeftLoop]. destruct s as [|c s]; [reflexivity|].
  destruct (utf8.DecodeRuneInString (String c s)) as [r size].
  destruct (f r); [|reflexivity].
  etransitivity; [apply IH|]. rewrite length_drop. lia.
Qed.

Lemma length_trimRightLoop (f : Z -> bool) (fuel : nat) (rp suf : string) :
  (String.length (strings.trimRightLoop f fuel rp suf)
   <= String.length rp + String.length suf)%nat.
Proof.
  revert rp suf; induction fuel as [|fuel IH]; intros rp suf; [cbn; lia|].
  cbn [strings.trimRightLoop]. destruct rp as [|c r']; [cbn; lia|].
  destruct (utf8.DecodeLastRuneInString (String c r')) as [r size].
  pose proof (length_drop size (String c r')) as D.
  pose proof (length_take size (String c r')) as T.
  pose proof (length_rev_append (Str.take size (String c r')) suf) as R.
  destruct (f r).
  - etransitivity; [apply IH|]. lia.
  - rewrite length_rev_append, length_take. lia.
Qed.

Lemma length_TrimRightFunc (s : string) (f : Z -> bool) :
  (String.length (strings.TrimRightFunc s f) <= String.length s)%nat.
Proof.
  unfold strings.TrimRightFunc.
  etransitivity; [apply length_trimRightLoop|]. rewrite length_rev. cbn. lia.
Qed.

Lemma length_trimSpaceStop (r : string) :
  (String.length (strings.trimSpaceStop r) <= String.length r)%nat.
Proof.
  induction r as [|c r IH]; [reflexivity|]. cbn [strings.trimSpaceStop].
  destruct (utf8.RuneSelf <=? byte_val c).
  - etransitivity; [apply length_TrimRightFunc|]. now rewrite length_rev.
  - destruct (strings.asciiSpace (byte_val c)).
    + etransitivity; [apply IH|]. cbn. lia.
    + now rewrite length_rev.
Qed.

(** [TrimSpace] never lengthens its argument. *)
Lemma length_TrimSpace (s : string) :
  (String.length (strings.TrimSpace s) <= String.length s)%nat.
Proof.
  induction s as [|c s IH]; [reflexivity|]. cbn [strings.TrimSpace].
  destruct (utf8.RuneSelf <=? byte_val c).
  - unfold strings.TrimFunc.
    etransitivity; [apply length_TrimRightFunc|].
    apply length_trimLeftLoop.
  - destruct (strings.asciiSpace (byte_val c)).
    + etransitivity; [apply IH|]. cbn. lia.
    + etransitivity; [apply length_trimSpaceStop|]. now rewrite length_rev.
Qed.

(** ** The fuel of the trimming loops

    Every iteration of the two loops consumes a byte or more, so the
    length of the input is fuel enough: more fuel changes nothing. *)

Lemma Decode_size_pos (c : ascii) (s : string) :
  (1 <= snd (utf8.DecodeRuneInString (String c s)))%nat.
Proof.
  unfold utf8.DecodeRuneInString.
  repeat match goal with
         | |- context [if ?b then _ else _] => destruct b
         | |- context [match ?x with _ => _ end] => destruct x
         end; cbn [snd]; lia.
Qed.

Lemma DecodeLast_size_pos (c : ascii) (r : string) :
  (1 <= snd (utf8.DecodeLastRuneInString (String c r)))%nat.
Proof.
  unfold utf8.DecodeLastRuneInString.
  destruct (byte_val c <? utf8.RuneSelf); [cbn; lia|].
  destruct (utf8.find_start (utf8.UTFMax - 1) r) as [back|]; [|cbn; lia].
  destruct (utf8.DecodeRuneInString _) as [rn size].
  destruct (size =? S back)%nat eqn:E; [|cbn; lia].
  apply Nat.eqb_eq in E. cbn. lia.
Qed.

Lemma trimLeftLoop_fuel (f : Z -> bool) (n m : nat) (s : string) :
  (String.length s <= n)%nat -> (String.length s <= m)%nat ->
  strings.trimLeftLoop f n s = strings.trimLeftLoop f m s.
Proof.
  revert m s; induction n as [|n IH]; intros m s Hn Hm.
  - destruct s; [now destruct m | simpl in Hn; lia].
  - destruct m as [|m]; [destruct s; [reflexivity | simpl in Hm; lia]|].
    destruct s as [|c s]; [reflexivity|]. cbn [strings.trimLeftLoop].
    pose proof (Decode_size_pos c s) as P.
    destruct (utf8.DecodeRuneInString (String c s)) as [r size].
    cbn [snd] in P. destruct (f r); [|reflexivity].
    pose proof (length_drop size (String c s)) as L. simpl in Hn, Hm, L.
    apply IH; lia.
Qed.

Lemma trimRightLoop_fuel (f : Z -> bool) (n m : nat) (rp suf : string) :
  (String.length rp <= n)%nat -> (String.length rp <= m)%nat ->
  strings.trimRightLoop f n rp suf = strings.trimRightLoop f m rp suf.
Proof.
  revert m rp suf; induction n as [|n IH]; intros m rp suf Hn Hm.
  - destruct rp; [now destruct m | simpl in Hn; lia].
  - destruct m as [|m]; [destruct rp; [reflexivity | simpl in Hm; lia]|].
    destruct rp as [|c r]; [reflexivity|]. cbn [strings.trimRightLoop].
    pose proof (DecodeLast_size_pos c r) as P.
    destruct (utf8.DecodeLastRuneInString (String c r)) as [rn size].
    cbn [snd] in P. destruct (f rn); [|reflexivity].
    pose proof (length_drop size (String c r)) as L. simpl in Hn, Hm, L.
    apply IH; lia.
Qed.

(** ** The client and [postItem] *)

Lemma client_send_S
  (e : Env) (net : http.RoundTrip) (ireq : http.Request)
  (left : nat) (reqs : list http.Request) (req : http.Request) :
  client_send e net ireq (S left) reqs req
  = match net reqs req with
    | inl err => ([HttpDo req], inl err)
    | inr resp =>
        match http.redirectBehavior (http.Method req) resp with
        | None => ([HttpDo req], inr resp)
        | Some (redirectMethod, includeBody) =>
            if String.eqb (http.Location resp) "" then ([HttpDo req], inr resp)
            else
              match url_Parse e (http.URL req) (http.Location resp) with
              | inl err => ([HttpDo req], inl err)
              | inr u =>
                  let next :=
                    {| http.Method := redirectMethod; http.URL := u;
                       http.ReqHeader := redirect_header e (reqs ++ [req]) u;
                       http.Form :=
                         if includeBody then http.Form ireq else [] |} in
                  (HttpDo req
                     :: fst (client_send e net ireq left (reqs ++ [req]) next),
                   snd (client_send e net ireq left (reqs ++ [req]) next))
              end
        end
    end.
Proof.
  cbn [client_send]. destruct (net reqs req) as [err|resp]; [reflexivity|].
  destruct (http.redirectBehavior (http.Method req) resp) as [[m b]|];
    [|reflexivity].
  destruct (String.eqb (http.Location resp) ""); [reflexivity|].
  destruct (url_Parse e (http.URL req) (http.Location resp)) as [err|u];
    [reflexivity|].
  now destruct (client_send e net ireq left _ _).
Qed.

(** The requests of one call of the client: the request it is given
    first, then at most [left] more, each without a body or with the body
    of the first request. *)
Lemma client_send_requests
  (e : Env) (net : http.RoundTrip) (ireq : http.Request)
  (left : nat) (reqs : list http.Request) (req : http.Request) :
  exists more,
    fst (client_send e net ireq left reqs req)
    = HttpDo req :: List.map HttpDo more /\
    (List.length more <= left)%nat /\
    Forall (fun rq => http.Form rq = [] \/ http.Form rq = http.Form ireq) more.
Proof.
  revert reqs req; induction left as [|left IH]; intros reqs req;
    cbn [client_send];
    destruct (net reqs req) as [err|resp];
    try (exists []; split; [reflexivity | split; [cbn; lia | constructor]]);
    destruct (http.redirectBehavior (http.Method req) resp) as [[m b]|];
    try (exists []; split; [reflexivity | split; [cbn; lia | constructor]]);
    destruct (String.eqb (http.Location resp) "");
    try (exists []; split; [reflexivity | split; [cbn; lia | constructor]]);
    destruct (url_Parse e (http.URL req) (http.Location resp)) as [err|u];
    try (exists []; split; [reflexivity | split; [cbn; lia | constructor]]).
  match goal with
  | |- context [client_send e net ireq left ?rs ?nx] =>
      destruct (IH rs nx) as (more & E & L & F);
      destruct (client_send e net ireq left rs nx) as [effs res];
      cbn [fst] in E |- *; subst effs;
      exists (nx :: more); split; [reflexivity|];
      split; [cbn; lia|];
      constructor; [destruct b; cbn; auto | exact F]
  end.
Qed.

(** The response the client returns answers the last request it sent, and
    is not a redirect it follows. *)
Lemma client_send_last
  (e : Env) (net : http.RoundTrip) (ireq : http.Request)
  (left : nat) (reqs : list http.Request) (req : http.Request)
  (resp : http.Response) :
  snd (client_send e net ireq left reqs req) = inr resp ->
  exists more last,
    fst (client_send e net ireq left reqs req)
    = List.map HttpDo (more ++ [last]) /\
    net (reqs ++ more) last = inr resp /\
    (http.redirectBehavior (http.Method last) resp = None \/
     http.Location resp = "").
Proof.
  revert reqs req; induction left as [|left IH]; intros reqs req;
    cbn [client_send];
    destruct (net reqs req) as [err|resp0] eqn:N; cbn [snd fst];
    try discriminate;
    (destruct (http.redirectBehavior (http.Method req) resp0) as [[m b]|] eqn:R;
     [|intros [= <-]; exists [], req; rewrite app_nil_r; auto]);
    (destruct (String.eqb (http.Location resp0) "") eqn:L;
     [intros [= <-]; exists [], req; rewrite app_nil_r;
      apply String.eqb_eq in L; auto|]);
    destruct (url_Parse e (http.URL req) (http.Location resp0)) as [err|u];
    cbn [snd fst]; try discriminate.
  match goal with
  | |- context [client_send e net ireq left ?rs ?nx] =>
      specialize (IH rs nx);
      destruct (client_send e net ireq left rs nx) as [effs res];
      cbn [snd fst] in IH |- *; intros ->;
      destruct (IH eq_refl) as (more & last & E & A & Q);
      exists (req :: more), last; split; [cbn; now rewrite E|];
      split; [now rewrite <- app_assoc in A | exact Q]
  end.
Qed.

Lemma postItem_request_method
  (e : Env) (t : Transformer) (htmlContent : string)
  (metadata : gmap string any) (collectionID : option Z) (req : http.Request) :
  postItem_request e t htmlContent metadata collectionID = inr req ->
  http.Method req = "POST".
Proof.
  unfold postItem_request, NewRequestWithContext.
  destruct (url_ok e _); [|discriminate]. now intros [= <-].
Qed.

(** What [postItem] makes of the result of the client. *)
Lemma postItem_unfold
  (e : Env) (t : Transformer) (net : http.RoundTrip)
  (htmlContent : string) (metadata : gmap string any) (collectionID : option Z)
  (req : http.Request) :
  postItem_request e t htmlContent metadata collectionID = inr req ->
  fst (postItem e t net htmlContent metadata collectionID)
  = fst (client_Do e net req) /\
  snd (postItem e t net htmlContent metadata collectionID)
  = match snd (client_Do e net req) with
    | inl err => Some err
    | inr resp =>
        if (200 <=? http.StatusCode resp) && (http.StatusCode resp <? 300)
        then None
        else Some (errorString
                     (Sprintf "http %d %s"
                        [ArgD (http.StatusCode resp);
                         ArgS (strings.TrimSpace
                                 (Str.take 4096 (http.Body resp)))]))
    end.
Proof.
  intros Hreq. unfold postItem. rewrite Hreq.
  destruct (client_Do e net req) as [effs [err|resp]]; cbn [fst snd];
    [now split|].
  now destruct ((200 <=? http.StatusCode resp) && (http.StatusCode resp <? 300)).
Qed.




Lemma postItem_request_Form
  (e : Env) (t : Transformer) (htmlContent : string)
  (metadata : gmap string any) (collectionID : option Z) (req : http.Request) :
  postItem_request e t htmlContent metadata collectionID = inr req ->
  http.Form req
  = multipart.fields (postItem_body e htmlContent metadata collectionID).
Proof.
  unfold postItem_request, NewRequestWithContext.
  destruct (url_ok e _); [|discriminate]. now intros [= <-].
Qed.

Lemma postItem_body_fields
  (e : Env) (htmlContent : string) (metadata : gmap string any)
  (collectionID : option Z) :
  multipart.fields (postItem_body e htmlContent metadata collectionID)
  = ([("html_content", htmlContent); ("metadata", json_Marshal e metadata)]
       ++ match collectionID with
          | Some c => [("collection_id", itoa c)]
          | None => []
          end)%list.
Proof.
  unfold postItem_body. destruct collectionID as [c|]; [|reflexivity].
  cbn. sprintf. cbn [Sprintf]. now rewrite app_nil_r_s.
Qed.

(** C6, as amended.  The multipart body has the fields [html_content] and
    [metadata], in this order, followed by [collection_id] exactly when the
    collection flag is greater than zero; the field then holds the flag in
    decimal.  The body of the request sent is this list of fields. *)
Theorem collection_id_field
  (e : Env) (fl : Flags) (htmlContent : string) (metadata : gmap string any) :
  let body :=
    multipart.fields
      (postItem_body e htmlContent metadata (collectionID_of fl)) in
  (0 < collection fl ->
   body = [("html_content", htmlContent);
           ("metadata", json_Marshal e metadata);
           ("collection_id", itoa (collection fl))]) /\
  (collection fl <= 0 ->
   body = [("html_content", htmlContent);
           ("metadata", json_Marshal e metadata)]) /\
  (In "collection_id" (List.map fst body) <-> 0 < collection fl) /\
  (forall t req,
      postItem_request e t htmlContent metadata (collectionID_of fl) = inr req ->
      http.Form req = body) /\
  itoa 69 = "69".
Proof.
  intros body. subst body. rewrite postItem_body_fields.
  unfold collectionID_of.
  destruct (collection fl >? 0) eqn:E.
  - apply Z.gtb_lt in E.
    split; [intros _; reflexivity|]. split; [intros; lia|].
    split; [split; [intros _; exact E | intros _; cbn; auto]|].
    split; [|reflexivity].
    intros t req R. apply postItem_request_Form in R.
    now rewrite R, postItem_body_fields.
  - assert (L : collection fl <= 0)
      by (rewrite Z.gtb_ltb in E; apply Z.ltb_ge in E; lia).
    split; [intros; lia|]. split; [intros _; reflexivity|].
    split; [split; [cbn; intros [H1|[H1|[]]]; discriminate | intros; lia]|].
    split; [|reflexivity].
    intros t req R. apply postItem_request_Form in R.
    now rewrite R, postItem_body_fields.
Qed.

(** C6, as stated, fails: a negative collection flag is not the default
    and the body has no [collection_id] field. *)
Lemma collection_id_absent_for_negative_flag :
  ~ (forall (e : Env) (fl : Flags) (htmlContent : string)
            (metadata : gmap string any),
        In "collection_id"
          (List.map fst
             (multipart.fields
                (postItem_body e htmlContent metadata (collectionID_of fl))))
        <-> collection fl <> 0).
Proof.
  intros H.
  pose (fl := {| dir := "."; retryFile := ""; api := "https://api.example.com/v2";
                 collection := -1; workers := 10; backoff := 0;
                 maxConns := 256; apiKeyEnv := "OMNIPUB_API_KEY";
                 saveFailures := "" |}).
  destruct (H demo_env fl "<h1>T</h1>" ∅) as [_ H2].
  assert (N : collection fl <> 0) by (cbn; lia).
  specialize (H2 N). cbn in H2.
  destruct H2 as [H2|[H2|[]]]; discriminate.
Qed.

(** ** [NewTransformer] and the start of [main] *)

Lemma NewTransformer_unset (e : Env) (apiBase0 apiKeyEnv0 : string) (mc : Z) :
  getenv e apiKeyEnv0 = "" ->
  NewTransformer e apiBase0 apiKeyEnv0 mc = inl (ErrEnvNotSet apiKeyEnv0).
Proof. intros H. unfold NewTransformer. now rewrite H. Qed.

Lemma NewTransformer_set (e : Env) (apiBase0 apiKeyEnv0 : string) (mc : Z) :
  getenv e apiKeyEnv0 <> "" ->
  exists t,
    NewTransformer e apiBase0 apiKeyEnv0 mc = inr t /\
    apiBase t = strings.TrimSuffix apiBase0 "/" /\
    headers t = http.Header_Set ∅ "Authorization"
                  ("Bearer " +:+ getenv e apiKeyEnv0).
Proof.
  intros H. unfold NewTransformer.
  destruct (String.eqb (getenv e apiKeyEnv0) "") eqn:E.
  - apply String.eqb_eq in E. congruence.
  - eexists. split; [reflexivity|]. split; reflexivity.
Qed.

(** C5. With the credential variable unset or empty, [NewTransformer]
    returns an error, and [main] logs it and exits with status 1: this is
    its only effect, so no input list is read and no request is sent.
    With the variable set, [NewTransformer] succeeds, the [Authorization]
    header is [Bearer] followed by the value, and every request [postItem]
    builds carries it. *)
Theorem credential_gate (e : Env) (fl : Flags) :
  (getenv e (apiKeyEnv fl) = "" ->
   NewTransformer e (api fl) (apiKeyEnv fl) (maxConns fl)
   = inl (ErrEnvNotSet (apiKeyEnv fl)) /\
   main_runs e fl [LogFatal (ErrEnvNotSet (apiKeyEnv fl))] 1 /\
   (forall tr code,
       main_runs e fl tr code ->
       code = 1 /\ tr = [LogFatal (ErrEnvNotSet (apiKeyEnv fl))] /\
       Forall (fun x => is_network x = false /\ is_input_read x = false) tr))
  /\
  (getenv e (apiKeyEnv fl) <> "" ->
   exists t,
     NewTransformer e (api fl) (apiKeyEnv fl) (maxConns fl) = inr t /\
     headers t !! "Authorization"
     = Some ["Bearer " +:+ getenv e (apiKeyEnv fl)] /\
     (forall htmlContent metadata collectionID req,
         postItem_request e t htmlContent metadata collectionID = inr req ->
         http.ReqHeader req !! "Authorization"
         = Some ["Bearer " +:+ getenv e (apiKeyEnv fl)])).
Proof.
  split.
  - intros H. pose proof (NewTransformer_unset e (api fl) _ (maxConns fl) H) as N.
    split; [exact N|].
    unfold main_runs, main_startup. rewrite N.
    split; [now split|].
    intros tr code [-> ->]. split; [reflexivity|]. split; [reflexivity|].
    repeat constructor.
  - intros H.
    destruct (NewTransformer_set e (api fl) _ (maxConns fl) H) as (t & N & _ & Hh).
    exists t. split; [exact N|]. split.
    + rewrite Hh. apply lookup_insert_eq.
    + intros htmlContent metadata collectionID req R.
      unfold postItem_request in R.
      destruct (NewRequestWithContext _ _ _ _); [discriminate|].
      injection R as <-. cbn [http.ReqHeader].
      rewrite Hh. unfold http.Header_Set, http.Header_Clone.
      etransitivity; [apply lookup_insert_ne; discriminate|].
      apply lookup_insert_eq.
Qed.

Lemma credential_gate_witness :
  main_runs demo_env_nokey default_flags
    [LogFatal (ErrEnvNotSet "OMNIPUB_API_KEY")] 1 /\
  exists t,
    NewTransformer demo_env "https://api.example.com/v2" "OMNIPUB_API_KEY" 256
    = inr t /\
    headers t !! "Authorization" = Some ["Bearer secret"].
Proof.
  split.
  - destruct (credential_gate demo_env_nokey default_flags) as [H _].
    destruct (H eq_refl) as (_ & R & _). exact R.
  - destruct (credential_gate demo_env default_flags) as [_ H].
    destruct H as (t & N & A & _); [discriminate|].
    exists t. split; [exact N | exact A].
Defined.

Lemma main_collect_effects (e : Env) (fl : Flags) :
  fst (main_collect e fl) = [ReadList (retryFile fl)] \/
  fst (main_collect e fl) = [Glob (dir fl)].
Proof.
  unfold main_collect. destruct (negb (String.eqb (retryFile fl) "")).
  - left. now destruct (readFileList _ _).
  - right. now destruct (glob_json _ _).
Qed.

(** C9, as amended.  With an empty input list, from the directory or from
    the retry file, [main] logs the notice that there is nothing to upload
    and returns with status 0: it sends no request, and it prints no
    summary line. *)
Theorem empty_input_returns
  (e : Env) (fl : Flags) (t : Transformer) (effs : list effect) :
  NewTransformer e (api fl) (apiKeyEnv fl) (maxConns fl) = inr t ->
  main_collect e fl = (effs, inr []) ->
  main_runs e fl (effs ++ [nothing_to_upload]) 0 /\
  (forall tr code,
      main_runs e fl tr code ->
      code = 0 /\ tr = effs ++ [nothing_to_upload] /\
      Forall (fun x => is_network x = false) tr /\
      (forall succ failed, ~ In (summary_line succ failed) tr)).
Proof.
  intros N C. pose proof (main_collect_effects e fl) as F. rewrite C in F.
  cbn [fst] in F. unfold main_runs, main_startup. rewrite N, C. cbn [List.length Nat.eqb].
  split; [now split|].
  intros tr code [-> ->]. split; [reflexivity|]. split; [reflexivity|].
  destruct F as [-> | ->]; (split; [repeat constructor|]);
    intros succ failed [H|[H|[]]]; discriminate.
Qed.

Lemma empty_input_returns_witness :
  main_runs demo_env default_flags [Glob "."; nothing_to_upload] 0.
Proof.
  destruct (empty_input_returns demo_env default_flags demo_transformer
              [Glob "."] eq_refl eq_refl) as [H _].
  exact H.
Defined.

(** C9, as stated, fails: the run over an empty directory prints no
    summary of zero successes and zero failures. *)
Lemma empty_input_prints_no_summary :
  ~ (forall (e : Env) (fl : Flags) (t : Transformer) (effs tr : list effect)
            (code : Z),
        NewTransformer e (api fl) (apiKeyEnv fl) (maxConns fl) = inr t ->
        main_collect e fl = (effs, inr []) ->
        main_runs e fl tr code ->
        In (summary_line 0 0) tr).
Proof.
  intros H.
  specialize (H demo_env default_flags demo_transformer [Glob "."]
                [Glob "."; nothing_to_upload] 0 eq_refl eq_refl).
  assert (R : main_runs demo_env default_flags [Glob "."; nothing_to_upload] 0)
    by (split; reflexivity).
  destruct (H R) as [X|[X|[]]]; discriminate.
Qed.

(** ** The worker pool *)

Lemma held_by_insert_same (gor : list worker) (w : nat) (st st' : worker) :
  gor !! w = Some st -> held st = None -> held st' = None ->
  held_by (<[w := st']> gor) = held_by gor.
Proof.
  revert w; induction gor as [|a gor IH]; intros [|w] H H1 H2;
    try discriminate; simpl in H |- *.
  - injection H as ->. now rewrite H1, H2.
  - now rewrite (IH w H H1 H2).
Qed.

Lemma held_by_insert_take (gor : list worker) (w : nat) (st st' : worker)
  (f : string) :
  gor !! w = Some st -> held st = None -> held st' = Some f ->
  held_by (<[w := st']> gor) ≡ₚ f :: held_by gor.
Proof.
  revert w; induction gor as [|a gor IH]; intros [|w] H H1 H2;
    try discriminate; simpl in H |- *.
  - injection H as ->. now rewrite H1, H2.
  - pose proof (IH w H H1 H2) as P.
    destruct (held a); [|exact P].
    rewrite P. apply perm_swap.
Qed.

Lemma held_by_insert_give (gor : list worker) (w : nat) (st st' : worker)
  (f : string) :
  gor !! w = Some st -> held st = Some f -> held st' = None ->
  held_by gor ≡ₚ f :: held_by (<[w := st']> gor).
Proof.
  revert w; induction gor as [|a gor IH]; intros [|w] H H1 H2;
    try discriminate; simpl in H |- *.
  - injection H as ->. now rewrite H1, H2.
  - pose proof (IH w H H1 H2) as P.
    destruct (held a); [|exact P].
    rewrite P. apply perm_swap.
Qed.

Lemma held_by_all_exited (gor : list worker) :
  Forall (fun w => w = Exited) gor -> held_by gor = [].
Proof. induction 1 as [|a gor -> _ IH]; [reflexivity | exact IH]. Qed.

Lemma held_by_idle (n : nat) : held_by (replicate n Idle) = [].
Proof. induction n as [|n IH]; [reflexivity | exact IH]. Qed.

Lemma count_split (l : list (string * option error)) :
  (List.length (List.filter succeeded l)
   + List.length (List.filter (fun p => negb (succeeded p)) l)
   = List.length l)%nat.
Proof.
  induction l as [|p l IH]; [reflexivity|]. cbn [List.filter].
  destruct (succeeded p); cbn; lia.
Qed.

Lemma filter_snoc {A} (g : A -> bool) (l : list A) (x : A) :
  List.filter g (l ++ [x])
  = (List.filter g l ++ if g x then [x] else [])%list.
Proof.
  induction l as [|y l IH]; cbn; [now destruct (g x)|].
  rewrite IH. now destruct (g y).
Qed.

Section Pool.

Variables (e : Env) (fl : Flags) (t : Transformer) (files : list string).

Hypothesis files_fit : Z.of_nat (List.length files) <= MaxInt.

Let K : Z := Z.of_nat (List.length files).

Lemma Inv_init : Inv fl files (pool_init fl files).
Proof.
  split; cbn; try reflexivity.
  - unfold in_flight; cbn. now rewrite held_by_idle.
  - unfold in_flight; cbn. now rewrite held_by_idle.
  - discriminate.
  - intros [w H]. apply lookup_replicate in H as [H _]. discriminate.
  - apply length_replicate.
Qed.

(** The number of results recorded never exceeds the number of
    identifiers. *)
Lemma Inv_processed_le (s : pool) :
  Inv fl files s ->
  (List.length (processed s) + List.length (in_flight s) <= List.length files)%nat.
Proof.
  intros I. pose proof (Permutation_length (inv_items _ _ s I)) as L.
  rewrite !length_app, length_map in L. lia.
Qed.

Lemma AddUint64_small (x : Z) :
  0 <= x -> x < Z.of_nat (List.length files) -> AddUint64 x 1 = x + 1.
Proof.
  intros H0 H1. unfold AddUint64. apply Z.mod_small.
  unfold MaxInt in files_fit. lia.
Qed.

Lemma Inv_step (s s' : pool) (a : action) :
  Inv fl files s -> step e fl t s a = Some s' -> Inv fl files s'.
Proof.
  intros I H. pose proof (Inv_processed_le s I) as Hle.
  destruct I as [Ii Ip Iok Ifail Ic Ie Iw].
  destruct a as [| |w|w net|w]; cbn [step] in H.
  - (* Send *)
    destruct (pending s) as [|f rest] eqn:Ep; [discriminate|].
    injection H as <-. split; cbn; unfold in_flight in *; cbn; auto.
    + rewrite <- Ii. rewrite <- !(app_assoc (jobs s)). reflexivity.
    + intros C. specialize (Ic C). discriminate.
    + intros X. destruct (Ie X) as [C _]. specialize (Ic C). discriminate.
  - (* Close *)
    destruct (pending s) as [|f rest] eqn:Ep; [|discriminate].
    destruct (closed s) eqn:Ec; [discriminate|].
    injection H as <-. split; cbn; unfold in_flight in *; cbn; auto.
    intros X. destruct (Ie X) as [C _]. discriminate.
  - (* Recv *)
    destruct (gor s !! w) as [[|f0|]|] eqn:Ew; try discriminate.
    destruct (jobs s) as [|f rest] eqn:Ej; [discriminate|].
    injection H as <-.
    pose proof (held_by_insert_take (gor s) w Idle (Busy f) f Ew eq_refl eq_refl)
      as P.
    split; cbn; unfold in_flight in *; cbn; auto.
    + rewrite P, <- Ii. apply Permutation_app_head.
      cbn. apply Permutation_middle.
    + rewrite P, Ip. rewrite <- app_assoc.
      apply Permutation_app_head. symmetry. apply Permutation_cons_append.
    + intros [w' X]. destruct (decide (w = w')) as [<-|Hne].
      * rewrite list_lookup_insert_eq in X by (eapply lookup_lt_Some; eauto).
        discriminate.
      * rewrite list_lookup_insert_ne in X by exact Hne.
        destruct (Ie (ex_intro _ w' X)) as [_ J]. discriminate.
    + now rewrite length_insert.
  - (* Process *)
    destruct (gor s !! w) as [[|f|]|] eqn:Ew; try discriminate.
    pose proof (held_by_insert_give (gor s) w (Busy f) Idle f Ew eq_refl eq_refl)
      as P.
    assert (Hin : (1 <= List.length (in_flight s))%nat).
    { unfold in_flight. rewrite (Permutation_length P). cbn. lia. }
    pose proof (count_split (processed s)) as Hc.
    assert (Hex : forall w', <[w := Idle]> (gor s) !! w' = Some Exited ->
                             gor s !! w' = Some Exited).
    { intros w' X. destruct (decide (w = w')) as [<-|Hne].
      - rewrite list_lookup_insert_eq in X by (eapply lookup_lt_Some; eauto).
        discriminate.
      - now rewrite list_lookup_insert_ne in X by exact Hne. }
    destruct (processFile e t net f (collectionID_of fl)) as [effs [er|]];
      injection H as <-;
      (split; cbn; unfold in_flight in *; cbn; auto;
       [ rewrite map_app, <- app_assoc; cbn; rewrite <- Ii, P;
         apply Permutation_app_head; reflexivity
       | rewrite Ip, map_app, <- app_assoc; cbn; rewrite P; reflexivity
       | ..
       | intros [w' X]; apply Ie; exists w'; now apply Hex
       | now rewrite length_insert ]).
    + rewrite filter_snoc. cbn. now rewrite app_nil_r.
    + rewrite filter_snoc, length_app. cbn.
      rewrite AddUint64_small; lia.
    + rewrite filter_snoc, length_app. cbn.
      rewrite AddUint64_small; lia.
    + rewrite filter_snoc. cbn. now rewrite app_nil_r.
  - (* Leave *)
    destruct (gor s !! w) as [[|f0|]|] eqn:Ew; try discriminate.
    destruct (jobs s) as [|f rest] eqn:Ej; [|discriminate].
    destruct (closed s) eqn:Ec; [|discriminate].
    injection H as <-.
    pose proof (held_by_insert_same (gor s) w Idle Exited Ew eq_refl eq_refl)
      as P.
    split; cbn; unfold in_flight in *; cbn; auto.
    + now rewrite P.
    + now rewrite P.
    + now rewrite length_insert.
Qed.

Lemma Inv_run (sched : list action) (s s' : pool) :
  Inv fl files s -> run e fl t sched s = Some s' -> Inv fl files s'.
Proof.
  revert s; induction sched as [|a sched IH]; intros s I H; cbn in H.
  - now injection H as <-.
  - destruct (step e fl t s a) as [s1|] eqn:E; [|discriminate].
    eapply IH; [|exact H]. eapply Inv_step; eauto.
Qed.

(** The counters in every state. *)
Lemma Inv_counters (s : pool) :
  Inv fl files s -> 0 <= ok s /\ 0 <= fail s /\ ok s + fail s <= K.
Proof.
  intros I. pose proof (Inv_processed_le s I) as L.
  pose proof (count_split (processed s)) as C.
  rewrite (inv_ok _ _ s I), (inv_fail _ _ s I). unfold K. lia.
Qed.

(** The state in which [wg.Wait()] returns, with a worker or more. *)
Lemma Inv_done (s : pool) :
  Inv fl files s -> 1 <= workers fl -> all_done s ->
  pending s = [] /\ jobs s = [] /\ closed s = true /\
  List.map fst (processed s) ≡ₚ files /\ pulled s ≡ₚ files /\
  ok s + fail s = K.
Proof.
  intros I W D.
  assert (X : exists w, gor s !! w = Some Exited).
  { exists 0%nat. destruct (gor s) as [|a g] eqn:G.
    - pose proof (inv_workers _ _ s I) as L. rewrite G in L. cbn in L. lia.
    - unfold all_done in D. rewrite G in D.
      apply Forall_cons in D as [-> _]. reflexivity. }
  destruct (inv_exited _ _ s I X) as [C J].
  pose proof (inv_closed _ _ s I C) as Pn.
  pose proof (inv_items _ _ s I) as Ii. pose proof (inv_pulled _ _ s I) as Ip.
  unfold in_flight in *. rewrite (held_by_all_exited _ D) in *.
  rewrite J, Pn in Ii. cbn in Ii. rewrite app_nil_r in Ii, Ip.
  repeat split; auto.
  - now rewrite Ip.
  - pose proof (count_split (processed s)) as Cs.
    pose proof (Permutation_length Ii) as L. rewrite length_map in L.
    rewrite (inv_ok _ _ s I), (inv_fail _ _ s I). unfold K. lia.
Qed.

End Pool.

(** ** Termination of the pool *)

Lemma weights_insert (l : list worker) (w : nat) (st st' : worker) :
  l !! w = Some st ->
  (weights (<[w := st']> l) + weight st = weights l + weight st')%nat.
Proof.
  revert w; induction l as [|a l IH]; intros [|w] H; try discriminate;
    simpl in H |- *.
  - injection H as ->. lia.
  - specialize (IH w H). lia.
Qed.

Lemma weights_idle (n : nat) : weights (replicate n Idle) = n.
Proof. induction n as [|n IH]; simpl; [reflexivity | now f_equal]. Qed.

(** Every move lowers the measure: a schedule that runs from a state [s]
    has at most [work_left s] moves. *)
Lemma step_measure (e : Env) (fl : Flags) (t : Transformer)
  (s s' : pool) (a : action) :
  step e fl t s a = Some s' -> (work_left s' < work_left s)%nat.
Proof.
  intros H. unfold work_left.
  destruct a as [| |w|w net|w]; cbn [step] in H.
  - destruct (pending s) as [|f rest]; [discriminate|].
    injection H as <-. cbn. rewrite length_app. cbn. lia.
  - destruct (pending s); [|discriminate].
    destruct (closed s); [discriminate|].
    injection H as <-. cbn. lia.
  - destruct (gor s !! w) as [[|f0|]|] eqn:Ew; try discriminate.
    destruct (jobs s) as [|f rest]; [discriminate|].
    injection H as <-. cbn.
    pose proof (weights_insert _ _ _ (Busy f) Ew). cbn in *. lia.
  - destruct (gor s !! w) as [[|f|]|] eqn:Ew; try discriminate.
    pose proof (weights_insert _ _ _ Idle Ew).
    destruct (processFile e t net f (collectionID_of fl)) as [effs [er|]];
      injection H as <-; cbn in *; lia.
  - destruct (gor s !! w) as [[|f0|]|] eqn:Ew; try discriminate.
    destruct (jobs s); [|discriminate].
    destruct (closed s); [|discriminate].
    injection H as <-. cbn.
    pose proof (weights_insert _ _ _ Exited Ew). cbn in *. lia.
Qed.

Lemma run_measure (e : Env) (fl : Flags) (t : Transformer)
  (sched : list action) (s s' : pool) :
  run e fl t sched s = Some s' ->
  (List.length sched + work_left s' <= work_left s)%nat.
Proof.
  revert s; induction sched as [|a sched IH]; intros s H; cbn in H.
  - injection H as <-. cbn. lia.
  - destruct (step e fl t s a) as [s1|] eqn:E; [|discriminate].
    apply step_measure in E. specialize (IH _ H).
    change (List.length (a :: sched)) with (S (List.length sched)). lia.
Qed.

Lemma all_doneb_spec (s : pool) : all_doneb s = true <-> all_done s.
Proof.
  unfold all_doneb, all_done. induction (gor s) as [|a l IH]; cbn.
  - split; [constructor | reflexivity].
  - rewrite andb_true_iff, IH, Forall_cons. destruct a; intuition congruence.
Qed.

Lemma not_done_worker (l : list worker) :
  forallb (fun w => match w with Exited => true | _ => false end) l = false ->
  exists w st, l !! w = Some st /\ st <> Exited.
Proof.
  induction l as [|a l IH]; cbn; [discriminate|]. intros H.
  destruct a; try (exists 0%nat; eexists; split; [reflexivity | discriminate]).
  destruct (IH H) as (w & st & Hw & Hst). exists (S w), st. now split.
Qed.

(** While a worker has not left, a move is enabled: the pool does not
    deadlock. *)
Lemma pool_progress (e : Env) (fl : Flags) (t : Transformer) (s : pool) :
  all_doneb s = false -> exists a s', step e fl t s a = Some s'.
Proof.
  intros D. destruct (pending s) as [|f rest] eqn:Ep.
  2:{ exists Send. cbn. rewrite Ep. eauto. }
  destruct (closed s) eqn:Ec.
  2:{ exists Close. cbn. rewrite Ep, Ec. eauto. }
  destruct (not_done_worker _ D) as (w & st & Hw & Hst).
  destruct st as [|f|]; [| |congruence].
  - destruct (jobs s) as [|f rest] eqn:Ej.
    + exists (Leave w). cbn. rewrite Hw, Ej, Ec. eauto.
    + exists (Recv w). cbn. rewrite Hw, Ej. eauto.
  - exists (Process w (answer 200 "")). cbn. rewrite Hw.
    destruct (processFile e t (answer 200 "") f (collectionID_of fl))
      as [effs [er|]]; eauto.
Qed.

(** From every state the pool can run on until every worker has left. *)
Lemma pool_can_finish (e : Env) (fl : Flags) (t : Transformer) (s : pool) :
  exists sched s', run e fl t sched s = Some s' /\ all_done s'.
Proof.
  remember (work_left s) as n eqn:Hn.
  assert (Hle : (work_left s <= n)%nat) by lia. clear Hn.
  revert s Hle. induction n as [|n IH]; intros s Hle.
  - destruct (all_doneb s) eqn:D.
    + exists [], s. split; [reflexivity | now apply all_doneb_spec].
    + destruct (pool_progress e fl t s D) as (a & s1 & H).
      apply step_measure in H. lia.
  - destruct (all_doneb s) eqn:D.
    + exists [], s. split; [reflexivity | now apply all_doneb_spec].
    + destruct (pool_progress e fl t s D) as (a & s1 & H).
      pose proof (step_measure _ _ _ _ _ _ H) as M.
      destruct (IH s1 ltac:(lia)) as (sched & s' & R & A).
      exists (a :: sched), s'. split; [|exact A]. cbn. now rewrite H.
Qed.

(** C1. A run over a non-empty list of [K] identifiers with [W] workers,
    [1 <= W <= K].  In every state the pool reaches, whatever the schedule
    and the outcomes, each counter is between 0 and [K], the success
    counter is the number of calls of [processFile] that returned [nil]
    and the failure counter the number that returned an error, and the
    pool can run on until every worker has left.  In a state where every
    worker has left, the counters add up to [K], and the identifiers
    received from the queue, like the identifiers processed, are the
    input list up to order: each one once.  No schedule has more than
    [4 * K + W + 1] moves. *)
Theorem pool_accounts_for_every_item
  (e : Env) (fl : Flags) (t : Transformer) (files : list string) :
  files <> [] ->
  1 <= workers fl <= Z.of_nat (List.length files) ->
  Z.of_nat (List.length files) <= MaxInt ->
  forall sched s,
    run e fl t sched (pool_init fl files) = Some s ->
    let K := Z.of_nat (List.length files) in
    (0 <= ok s <= K /\ 0 <= fail s <= K) /\
    ok s = Z.of_nat (List.length (List.filter succeeded (processed s))) /\
    fail s = Z.of_nat (List.length
                         (List.filter (fun p => negb (succeeded p))
                            (processed s))) /\
    (Z.of_nat (List.length sched) <= 4 * K + workers fl + 1) /\
    (exists sched' s', run e fl t sched' s = Some s' /\ all_done s') /\
    (all_done s ->
     ok s + fail s = K /\
     pulled s ≡ₚ files /\
     List.map fst (processed s) ≡ₚ files).
Proof.
  intros Hne HW Hfit sched s R K.
  pose proof (Inv_run e fl t files Hfit sched _ s (Inv_init fl files) R) as I.
  pose proof (Inv_counters fl files s I) as C. fold K in C.
  split; [lia|].
  split; [exact (inv_ok _ _ _ I)|].
  split; [exact (inv_fail _ _ _ I)|].
  split.
  { apply run_measure in R. unfold work_left in R. cbn in R.
    rewrite weights_idle in R. unfold K. lia. }
  split; [apply pool_can_finish|].
  intros D.
  destruct (Inv_done fl files s I ltac:(lia) D) as (_ & _ & _ & P1 & P2 & S).
  now repeat split.
Qed.

Lemma pool_accounts_for_every_item_witness :
  exists s,
    run demo_env demo_flags demo_transformer demo_schedule
      (pool_init demo_flags ["a.json"; "b.json"]) = Some s /\
    all_done s /\ ok s = 1 /\ fail s = 1 /\ ok s + fail s = 2 /\
    failures s = ["b.json"] /\
    List.map fst (processed s) ≡ₚ ["a.json"; "b.json"].
Proof.
  eexists. split; [vm_compute; reflexivity|].
  match goal with
  | |- all_done ?s /\ _ =>
      assert (D : all_done s) by (repeat constructor);
      assert (R : run demo_env demo_flags demo_transformer demo_schedule
                    (pool_init demo_flags ["a.json"; "b.json"]) = Some s)
        by (vm_compute; reflexivity)
  end.
  destruct (pool_accounts_for_every_item demo_env demo_flags demo_transformer
              ["a.json"; "b.json"] ltac:(discriminate) ltac:(cbn; lia)
              ltac:(cbn; unfold MaxInt; lia) demo_schedule _ R)
    as (_ & _ & _ & _ & _ & H).
  destruct (H D) as (S & _ & P).
  split; [exact D|]. split; [reflexivity|]. split; [reflexivity|].
  split; [exact S|]. split; [reflexivity | exact P].
Defined.

(** The summary line of a complete run of [main] over a non-empty input
    list with a worker or more: the two counts add up to the number of
    identifiers. *)
Lemma main_summary_adds_up
  (e : Env) (fl : Flags) (t : Transformer) (files : list string)
  (tr0 tr : list effect) (code : Z) :
  main_startup e fl = (tr0, Run t files) ->
  1 <= workers fl ->
  Z.of_nat (List.length files) <= MaxInt ->
  main_runs e fl tr code ->
  exists succ failed,
    In (summary_line succ failed) tr /\
    succ + failed = Z.of_nat (List.length files).
Proof.
  intros St W Fit R. unfold main_runs in R. rewrite St in R.
  destruct R as (sched & s & Hrun & D & -> & _).
  pose proof (Inv_run e fl t files Fit sched _ s (Inv_init fl files) Hrun) as I.
  destruct (Inv_done fl files s I W D) as (_ & _ & _ & _ & _ & S).
  exists (ok s), (fail s). split; [|exact S].
  apply in_or_app. right. apply in_or_app. right.
  unfold main_report. apply in_or_app. right. now left.
Qed.

(* ===================================================================== *)
(** * Part III: further properties of the code                             *)
(* ===================================================================== *)

(** ** [cleanHTML] and [html.EscapeString] *)

(** X1. Cleaning is idempotent: cleaned content is returned as it is by a
    second cleaning. *)
Theorem cleanHTML_idempotent (s : string) :
  cleanHTML (cleanHTML s) = cleanHTML s.
Proof.
  destruct (cleanHTML_no_tag s) as [H1 H2]. now apply cleanHTML_id.
Qed.

Lemma escape_spec_app (a b : string) :
  escape_spec (a +:+ b) = escape_spec a +:+ escape_spec b.
Proof.
  induction a as [|c a IH]; [reflexivity|].
  change (String c a +:+ b) with (String c (a +:+ b)).
  cbn [escape_spec]. now rewrite IH, app_assoc_s.
Qed.

Lemma escape_byte_plain (c : ascii) :
  Ascii.eqb "&" c = false -> Ascii.eqb "'" c = false ->
  Ascii.eqb "<" c = false -> Ascii.eqb ">" c = false ->
  Ascii.eqb dquote_byte c = false ->
  escape_byte c = String c "".
Proof.
  intros H1 H2 H3 H4 H5. unfold escape_byte.
  rewrite !(Ascii.eqb_sym c). now rewrite H1, H2, H3, H4, H5.
Qed.

(** Escaping works byte by byte: the escape of a concatenation is the
    concatenation of the escapes, and text without [&], ['], [<], [>] and
    the double quote is returned as it is. *)
Theorem EscapeString_compositional :
  (forall a b, EscapeString (a +:+ b) = EscapeString a +:+ EscapeString b) /\
  (forall s, plain_text s -> EscapeString s = s).
Proof.
  split.
  - intros a b. rewrite !EscapeString_spec. apply escape_spec_app.
  - intros s. rewrite EscapeString_spec. unfold plain_text.
    induction s as [|c s IH]; [reflexivity|].
    cbn [Str.has_byte]. rewrite !orb_false_iff.
    intros ([A1 B1] & [A2 B2] & [A3 B3] & [A4 B4] & [A5 B5]).
    cbn [escape_spec]. rewrite escape_byte_plain by assumption.
    rewrite IH by (repeat split; assumption). reflexivity.
Qed.

Lemma EscapeString_compositional_witness :
  EscapeString "a plain title" = "a plain title".
Proof.
  destruct EscapeString_compositional as [_ H]. apply H.
  repeat split; reflexivity.
Defined.

(** The two forms a byte takes under escaping. *)
Lemma escape_byte_cases (c : ascii) :
  (escape_byte c = String c "" /\ c <> "&"%char) \/
  (c = "&"%char /\ escape_byte c = "&amp;") \/
  (c = "'"%char /\ escape_byte c = "&#39;") \/
  (c = "<"%char /\ escape_byte c = "&lt;") \/
  (c = ">"%char /\ escape_byte c = "&gt;") \/
  (c = dquote_byte /\ escape_byte c = "&#34;").
Proof.
  unfold escape_byte.
  destruct (Ascii.eqb c "&") eqn:E1;
    [apply Ascii.eqb_eq in E1; subst; right; left; now split|].
  destruct (Ascii.eqb c "'") eqn:E2;
    [apply Ascii.eqb_eq in E2; subst; right; right; left; now split|].
  destruct (Ascii.eqb c "<") eqn:E3;
    [apply Ascii.eqb_eq in E3; subst; do 3 right; left; now split|].
  destruct (Ascii.eqb c ">") eqn:E4;
    [apply Ascii.eqb_eq in E4; subst; do 4 right; left; now split|].
  destruct (Ascii.eqb c dquote_byte) eqn:E5;
    [apply Ascii.eqb_eq in E5; subst; do 5 right; now split|].
  left. split; [reflexivity|]. now apply Ascii.eqb_neq.
Qed.

(** Escaping loses nothing: two texts with the same escape are the same
    text. *)
Theorem EscapeString_injective (s1 s2 : string) :
  EscapeString s1 = EscapeString s2 -> s1 = s2.
Proof.
  rewrite !EscapeString_spec. revert s2.
  induction s1 as [|c1 s1 IH]; intros [|c2 s2] H; cbn [escape_spec] in H.
  - reflexivity.
  - destruct (escape_byte_cases c2)
      as [[E _]|[[_ E]|[[_ E]|[[_ E]|[[_ E]|[_ E]]]]]];
      rewrite E in H; discriminate.
  - destruct (escape_byte_cases c1)
      as [[E _]|[[_ E]|[[_ E]|[[_ E]|[[_ E]|[_ E]]]]]];
      rewrite E in H; discriminate.
  - destruct (escape_byte_cases c1)
      as [[E1 N1]|[[-> E1]|[[-> E1]|[[-> E1]|[[-> E1]|[-> E1]]]]]];
    destruct (escape_byte_cases c2)
      as [[E2 N2]|[[-> E2]|[[-> E2]|[[-> E2]|[[-> E2]|[-> E2]]]]]];
    rewrite ?E1, ?E2 in H; cbn [String.append] in H;
    try discriminate;
    try (injection H as H; f_equal; now apply IH);
    try (injection H as -> H; f_equal; now apply IH);
    try (injection H as <- _; congruence);
    try (injection H as -> _; congruence).
Qed.

Lemma EscapeString_injective_witness : "a<b" = "a<b".
Proof. apply (EscapeString_injective "a<b" "a<b"). reflexivity. Defined.

(** ** [buildHTML]: where a script tag can come from *)

Lemma prefix_seam_any (k s r : string) (x : ascii) :
  Str.has_byte x k = false ->
  String.prefix k (s +:+ String x r) = String.prefix k s.
Proof.
  intros Hk. destruct (String.prefix k s) eqn:E.
  - now apply prefix_extend.
  - destruct (String.prefix k (s +:+ String x r)) eqn:E'; [|reflexivity].
    apply prefix_seam in E'; [congruence | exact Hk].
Qed.

(** An occurrence of [k] cannot hold a byte that [k] does not have: the
    search splits at such a byte. *)
Lemma contains_split (x y : ascii) (k a b : string) :
  Str.has_byte y (String x k) = false ->
  Str.contains (String x k) (a +:+ String y b)
  = Str.contains (String x k) a || Str.contains (String x k) b.
Proof.
  intros Hy. induction a as [|c a IH].
  - change ("" +:+ String y b) with (String y b).
    cbn [Str.contains]. cbn [Str.has_byte] in Hy.
    apply orb_false_iff in Hy as [Hy _].
    rewrite prefix_cons, Ascii.eqb_sym, Hy. reflexivity.
  - change (String c a +:+ String y b) with (String c (a +:+ String y b)).
    cbn [Str.contains]. rewrite IH.
    change (String c (a +:+ String y b)) with (String c a +:+ String y b).
    rewrite (prefix_seam_any _ _ _ _ Hy). now rewrite orb_assoc.
Qed.

Lemma contains_cons_ne (x c : ascii) (k r : string) :
  Ascii.eqb x c = false ->
  Str.contains (String x k) (String c r) = Str.contains (String x k) r.
Proof. intros H. cbn [Str.contains]. now rewrite prefix_cons, H. Qed.

Lemma contains_cons2_ne (x y c d : ascii) (k r : string) :
  Ascii.eqb y d = false ->
  Str.contains (String x (String y k)) (String c (String d r))
  = Str.contains (String x (String y k)) (String d r).
Proof.
  intros H. cbn [Str.contains]. rewrite (prefix_cons x c), (prefix_cons y d), H.
  now rewrite andb_false_r.
Qed.

Ltac scan_literal :=
  repeat first
    [ rewrite contains_cons_ne by reflexivity
    | rewrite contains_cons2_ne by reflexivity ].

(** X4. When the link and the two dates hold no [<], the rendered HTML
    holds no [<script]: title and excerpt are escaped, the content is
    cleaned, and the template has no such tag. *)
Theorem buildHTML_no_script_tag (a : Article) :
  Str.has_byte "<" (Link a) = false ->
  Str.has_byte "<" (PublishDate a) = false ->
  Str.has_byte "<" (UpdatedDate a) = false ->
  Str.contains "<script" (buildHTML a) = false.
Proof.
  intros HL HP HU. rewrite buildHTML_closed.
  destruct (EscapeString_markup_free (Title a)) as (HT & _).
  destruct (EscapeString_markup_free (Excerpt a)) as (HE & _).
  destruct (cleanHTML_no_tag (Content a)) as [HC _]. unfold open_tag in HC.
  assert (Tail :
    Str.contains "<script"
      ("<div>" +:+ nl +:+ cleanHTML (Content a) +:+ nl +:+ "</div>" +:+ nl +:+
       "<h3>Metadata</h3>" +:+ nl +:+
       "<p>Source Url: <a href=" +:+ dq +:+ Link a +:+ dq +:+ ">" +:+ Link a
         +:+ "</a></p>" +:+
       "<p>Published Date: " +:+ PublishDate a +:+ "</p>" +:+
       "<p>Updated Date: " +:+ UpdatedDate a +:+ "</p>") = false).
  { cbv [nl dq]. cbn [String.append]. scan_literal.
    rewrite contains_split by reflexivity. rewrite HC. cbn [orb].
    scan_literal. rewrite (contains_skip _ _ (Link a)) by exact HL.
    scan_literal. rewrite (contains_skip _ _ (Link a)) by exact HL.
    scan_literal. rewrite (contains_skip _ _ (PublishDate a)) by exact HP.
    scan_literal. rewrite (contains_skip _ _ (UpdatedDate a)) by exact HU.
    scan_literal. reflexivity. }
  cbn [String.append]. scan_literal.
  rewrite (contains_skip _ _ (EscapeString (Title a))) by exact HT.
  cbv [nl]. cbn [String.append]. scan_literal.
  destruct (Excerpt a) as [|c e] eqn:Ex.
  - exact Tail.
  - repeat (progress (rewrite ?app_assoc_s; cbn [String.append])).
    scan_literal.
    rewrite (contains_skip _ _ (EscapeString (String c e))) by exact HE.
    cbn [String.append]. scan_literal. exact Tail.
Qed.

Lemma buildHTML_no_script_tag_witness :
  Str.contains "<script"
    (buildHTML {| Title := "<script>t"; Content := "x<script>alert(1)</script>";
                  Excerpt := "<script>e"; Link := "http://e.x/";
                  PublishDate := "2024-01-01"; UpdatedDate := "2024-01-02" |})
  = false.
Proof.
  apply buildHTML_no_script_tag; reflexivity.
Defined.

(** ** [NewTransformer], [postItem], [processFile] *)

Lemma take_length_app (p r : string) : Str.take (String.length p) (p +:+ r) = p.
Proof. induction p as [|x p IH]; simpl; [now destruct r | now rewrite IH]. Qed.

Lemma TrimSuffix_slash (b : string) : strings.TrimSuffix (b +:+ "/") "/" = b.
Proof.
  unfold strings.TrimSuffix. rewrite length_app_s.
  change (String.length "/") with 1%nat.
  replace (String.length b + 1 - 1)%nat with (String.length b) by lia.
  rewrite drop_length_app, take_length_app.
  replace (1 <=? String.length b + 1)%nat with true
    by (symmetry; apply Nat.leb_le; lia).
  reflexivity.
Qed.

Lemma TrimSuffix_no_slash (s : string) :
  Str.last s <> Some "/"%char -> strings.TrimSuffix s "/" = s.
Proof.
  intros H. unfold strings.TrimSuffix.
  destruct (snoc_cases s) as [->|(a & c & ->)]; [reflexivity|].
  rewrite last_app_cons in H. cbn [Str.last] in H.
  rewrite length_app_s. change (String.length (String c "")) with 1%nat.
  change (String.length "/") with 1%nat.
  replace (String.length a + 1 - 1)%nat with (String.length a) by lia.
  rewrite drop_length_app.
  replace (String.eqb (String c "") "/") with false; [now rewrite andb_false_r|].
  symmetry. apply String.eqb_neq. congruence.
Qed.

(** X5. One trailing slash of the API base is dropped: with the base given
    as [b/] the transformer holds [b], the same transformer as for [b]
    itself when [b] does not end in a slash.  Every request it builds is a
    POST to [b/omnipub] with exactly two headers, the credential and the
    multipart content type with the boundary; the three limits of the
    connection pool are the configured value. *)
Theorem NewTransformer_endpoint
  (e : Env) (b apiKeyEnv0 : string) (mc : Z) :
  getenv e apiKeyEnv0 <> "" ->
  exists t,
    NewTransformer e (b +:+ "/") apiKeyEnv0 mc = inr t /\
    apiBase t = b /\
    (Str.last b <> Some "/"%char -> NewTransformer e b apiKeyEnv0 mc = inr t) /\
    http.MaxIdleConns (client t) = mc /\
    http.MaxIdleConnsPerHost (client t) = mc /\
    http.MaxConnsPerHost (client t) = mc /\
    (forall htmlContent metadata collectionID req,
        postItem_request e t htmlContent metadata collectionID = inr req ->
        http.Method req = "POST" /\
        http.URL req = b +:+ "/omnipub" /\
        http.ReqHeader req !! "Content-Type"
        = Some ["multipart/form-data; boundary=" +:+ boundary e] /\
        dom (http.ReqHeader req)
        = ({["Authorization"; "Content-Type"]} : gset string)).
Proof.
  intros H. unfold NewTransformer.
  destruct (String.eqb (getenv e apiKeyEnv0) "") eqn:E;
    [apply String.eqb_eq in E; congruence|].
  rewrite TrimSuffix_slash. eexists. split; [reflexivity|].
  cbn [apiBase client http.MaxIdleConns http.MaxIdleConnsPerHost
         http.MaxConnsPerHost].
  split; [reflexivity|].
  split; [intros L; now rewrite (TrimSuffix_no_slash _ L)|].
  do 3 (split; [reflexivity|]).
  intros htmlContent metadata collectionID req R.
  unfold postItem_request, NewRequestWithContext in R. cbn [apiBase headers] in R.
  destruct (url_ok e (b +:+ "/omnipub")); [|discriminate].
  injection R as <-. cbn [http.Method http.URL http.ReqHeader].
  split; [reflexivity|]. split; [reflexivity|].
  unfold http.Header_Set, http.Header_Clone, multipart.FormDataContentType.
  split; [apply lookup_insert_eq|].
  unfold http.Header. rewrite !dom_insert_L, dom_empty_L. set_solver.
Qed.

Lemma NewTransformer_endpoint_witness :
  exists t,
    NewTransformer demo_env "https://api.example.com/v2/" "OMNIPUB_API_KEY" 256
    = inr t /\
    apiBase t = "https://api.example.com/v2".
Proof.
  destruct (NewTransformer_endpoint demo_env "https://api.example.com/v2"
              "OMNIPUB_API_KEY" 256 ltac:(discriminate))
    as (t & N & A & _).
  exists t. split; [exact N | exact A].
Defined.

Lemma map_HttpDo_inj (l1 l2 : list http.Request) :
  List.map HttpDo l1 = List.map HttpDo l2 -> l1 = l2.
Proof.
  revert l2; induction l1 as [|a l1 IH]; intros [|b l2] H; try discriminate;
    [reflexivity|].
  cbn in H. injection H as -> H. f_equal. now apply IH.
Qed.

(** The effects of one call of [processFile]: the item is opened; when it
    is decoded and the request built, the client sends that request and
    at most nine more, each without a body or with the same body. *)
Lemma processFile_effects_shape
  (e : Env) (t : Transformer) (net : http.RoundTrip)
  (file : string) (collectionID : option Z) :
  fst (processFile e t net file collectionID) = [OpenItem file] \/
  exists art req more,
    postItem_request e t (buildHTML art) (buildMetadata art) collectionID
    = inr req /\
    fst (processFile e t net file collectionID)
    = OpenItem file :: HttpDo req :: List.map HttpDo more /\
    (List.length more <= 9)%nat /\
    Forall (fun rq => http.Form rq = [] \/ http.Form rq = http.Form req) more.
Proof.
  unfold processFile.
  destruct (os_Open (env_fs e) file) as [err|data]; [now left|].
  destruct (json_Decode e data) as [err|art]; [now left|].
  destruct (postItem_request e t (buildHTML art) (buildMetadata art)
              collectionID) as [err|req] eqn:Er.
  { left. unfold postItem. now rewrite Er. }
  right. exists art, req.
  destruct (postItem_unfold e t net _ _ _ _ Er) as [Hf _].
  destruct (client_send_requests e net req 9 [] req) as (more & E & L & F).
  exists more. split; [exact Er|].
  fold (client_Do e net req) in E. rewrite <- Hf in E.
  destruct (postItem e t net (buildHTML art) (buildMetadata art) collectionID)
    as [effs err]. cbn [fst] in E |- *. now subst effs.
Qed.

Lemma processFile_effects_list
  (e : Env) (t : Transformer) (net : http.RoundTrip)
  (file : string) (collectionID : option Z) :
  exists reqs,
    fst (processFile e t net file collectionID)
    = OpenItem file :: List.map HttpDo reqs /\
    (List.length reqs <= 10)%nat.
Proof.
  destruct (processFile_effects_shape e t net file collectionID)
    as [-> | (art & req & more & _ & -> & L & _)].
  - exists []. split; [reflexivity | cbn; lia].
  - exists (req :: more). split; [reflexivity | cbn; lia].
Qed.

(** X6. The requests of [postItem].  When the request cannot be built,
    none is sent and the error of the construction is returned.  Else the
    client sends the request built and, following redirects, at most nine
    more, each without a body or with the body of the first.  It sends no
    other when the first answer is an error of the transport, has a status
    other than 301, 302, 303, 307 and 308, or has no [Location].  After
    307 or 308 with a location that resolves, the second request is a POST
    to the new address with the same body; after 301, 302 or 303 it is a
    GET without a body. *)
Theorem postItem_requests
  (e : Env) (t : Transformer) (net : http.RoundTrip)
  (htmlContent : string) (metadata : gmap string any)
  (collectionID : option Z) :
  match postItem_request e t htmlContent metadata collectionID with
  | inr req =>
      exists more,
        fst (postItem e t net htmlContent metadata collectionID)
        = HttpDo req :: List.map HttpDo more /\
        (List.length more <= 9)%nat /\
        Forall (fun rq => http.Form rq = [] \/ http.Form rq = http.Form req)
          more /\
        (forall err, net [] req = inl err -> more = []) /\
        (forall resp,
            net [] req = inr resp ->
            (http.redirectBehavior "POST" resp = None \/
             http.Location resp = "" -> more = []) /\
            (forall u,
                http.Location resp <> "" ->
                url_Parse e (http.URL req) (http.Location resp) = inr u ->
                (http.StatusCode resp = 307 \/ http.StatusCode resp = 308 ->
                 exists next rest,
                   more = next :: rest /\ http.Method next = "POST" /\
                   http.URL next = u /\ http.Form next = http.Form req) /\
                (http.StatusCode resp = 301 \/ http.StatusCode resp = 302 \/
                 http.StatusCode resp = 303 ->
                 exists next rest,
                   more = next :: rest /\ http.Method next = "GET" /\
                   http.URL next = u /\ http.Form next = [])))
  | inl err =>
      postItem e t net htmlContent metadata collectionID = ([], Some err)
  end.
Proof.
  destruct (postItem_request e t htmlContent metadata collectionID)
    as [err|req] eqn:Er; [unfold postItem; now rewrite Er|].
  destruct (postItem_unfold e t net _ _ _ _ Er) as [Hf _].
  pose proof (postItem_request_method _ _ _ _ _ _ Er) as Hm.
  destruct (client_send_requests e net req 9 [] req) as (more & E & L & F).
  fold (client_Do e net req) in E.
  exists more. rewrite Hf. split; [exact E|]. split; [exact L|].
  split; [exact F|].
  assert (Inj : forall l, fst (client_Do e net req) = HttpDo req :: List.map HttpDo l ->
                          more = l).
  { intros l El. rewrite E in El. injection El as El.
    now apply map_HttpDo_inj. }
  clear E. unfold client_Do in Inj. rewrite client_send_S in Inj.
  rewrite Hm in Inj. split.
  { intros err Hnet. rewrite Hnet in Inj. now apply Inj. }
  intros resp Hnet. rewrite Hnet in Inj. split.
  { intros [Hq | Hl].
    - rewrite Hq in Inj. now apply Inj.
    - rewrite Hl in Inj. cbn [String.eqb] in Inj.
      destruct (http.redirectBehavior "POST" resp) as [[m b]|]; now apply Inj. }
  intros u Hl Hu.
  assert (El : String.eqb (http.Location resp) "" = false)
    by (now apply String.eqb_neq).
  rewrite Hu in Inj. split.
  - intros Hc.
    assert (Hq : http.redirectBehavior "POST" resp = Some ("POST", true)).
    { unfold http.redirectBehavior. destruct Hc as [-> | ->]; reflexivity. }
    rewrite Hq, El in Inj. cbn [app fst] in Inj.
    match type of Inj with
    | context [client_send e net req 8 ?rs ?nx] =>
        destruct (client_send_requests e net req 8 rs nx) as (rest & E2 & _);
        rewrite E2 in Inj;
        exists nx, rest; split; [now apply Inj | now cbn]
    end.
  - intros Hc.
    assert (Hq : http.redirectBehavior "POST" resp = Some ("GET", false)).
    { unfold http.redirectBehavior.
      destruct Hc as [-> | [-> | ->]]; reflexivity. }
    rewrite Hq, El in Inj. cbn [app fst] in Inj.
    match type of Inj with
    | context [client_send e net req 8 ?rs ?nx] =>
        destruct (client_send_requests e net req 8 rs nx) as (rest & E2 & _);
        rewrite E2 in Inj;
        exists nx, rest; split; [now apply Inj | now cbn]
    end.
Qed.

(** X7. [processFile] fails without a request when the file cannot be
    opened or decoded.  In every case its effects are the opening of the
    item followed by requests only, ten at most. *)
Theorem processFile_local_failures
  (e : Env) (t : Transformer) (net : http.RoundTrip)
  (file : string) (collectionID : option Z) :
  (contents (env_fs e) !! file = None ->
   processFile e t net file collectionID
   = ([OpenItem file], Some (ErrNotExist file))) /\
  (forall data err,
      contents (env_fs e) !! file = Some data ->
      json_Decode e data = inl err ->
      processFile e t net file collectionID = ([OpenItem file], Some err)) /\
  (exists reqs,
      fst (processFile e t net file collectionID)
      = OpenItem file :: List.map HttpDo reqs /\
      (List.length reqs <= 10)%nat).
Proof.
  split; [|split].
  - unfold processFile, os_Open. intros H. now rewrite H.
  - unfold processFile, os_Open. intros data err H D. now rewrite H, D.
  - apply processFile_effects_list.
Qed.

(** X8. When [processFile] returns [nil], the file was opened and decoded,
    the request that carries the rendering of the article was the first
    one sent, and the response to the last request sent, which is the one
    the client returned, had a status in [[200, 300)]. *)
Theorem processFile_success
  (e : Env) (t : Transformer) (net : http.RoundTrip)
  (file : string) (collectionID : option Z) :
  snd (processFile e t net file collectionID) = None ->
  exists data art req resp reqs last more,
    contents (env_fs e) !! file = Some data /\
    json_Decode e data = inr art /\
    postItem_request e t (buildHTML art) (buildMetadata art) collectionID
    = inr req /\
    http.Form req
    = multipart.fields
        (postItem_body e (buildHTML art) (buildMetadata art) collectionID) /\
    fst (processFile e t net file collectionID)
    = OpenItem file :: List.map HttpDo (reqs ++ [last]) /\
    reqs ++ [last] = req :: more /\
    (List.length more <= 9)%nat /\
    net reqs last = inr resp /\
    200 <= http.StatusCode resp < 300.
Proof.
  unfold processFile, os_Open.
  destruct (contents (env_fs e) !! file) as [data|] eqn:Ec; [|discriminate].
  destruct (json_Decode e data) as [err|art] eqn:Ed; [discriminate|].
  destruct (postItem_request e t (buildHTML art) (buildMetadata art)
              collectionID) as [err|req] eqn:Er.
  { unfold postItem. rewrite Er. discriminate. }
  destruct (postItem_unfold e t net _ _ _ _ Er) as [Hf Hs].
  destruct (postItem e t net (buildHTML art) (buildMetadata art) collectionID)
    as [effs res]. cbn [fst snd] in Hf, Hs |- *. intros ->.
  destruct (snd (client_Do e net req)) as [err|resp] eqn:Hdo; [discriminate|].
  destruct ((200 <=? http.StatusCode resp) && (http.StatusCode resp <? 300))
    eqn:Es; [|discriminate].
  apply andb_true_iff in Es as [E1 E2].
  apply Z.leb_le in E1. apply Z.ltb_lt in E2.
  destruct (client_send_last e net req 9 [] req resp Hdo)
    as (reqs & last & E & A & _).
  destruct (client_send_requests e net req 9 [] req) as (more & E' & L & _).
  fold (client_Do e net req) in E, E'.
  exists data, art, req, resp, reqs, last, more.
  split; [first [exact Ec | reflexivity]|].
  split; [first [exact Ed | reflexivity]|].
  split; [first [exact Er | reflexivity]|].
  split; [exact (postItem_request_Form _ _ _ _ _ _ Er)|].
  split; [now rewrite Hf, E|].
  split.
  { apply map_HttpDo_inj. rewrite <- E. exact E'. }
  split; [exact L|]. split; [exact A | lia].
Qed.

Lemma processFile_success_witness :
  exists req next,
    fst (processFile demo_env demo_transformer redirecting "a.json" None)
    = [OpenItem "a.json"; HttpDo req; HttpDo next] /\
    http.URL req = "https://api.example.com/v2/omnipub" /\
    http.Method next = "GET" /\ http.Form next = [].
Proof.
  destruct (processFile_success demo_env demo_transformer redirecting
              "a.json" None eq_refl)
    as (data & art & req & resp & reqs & last & more
        & _ & _ & R & _ & F & _).
  eexists. eexists. split; [reflexivity|]. now split.
Defined.

(** ** [readFileList] *)

Lemma length_dropCR (r : string) :
  (String.length (bufio.dropCR r) <= String.length r)%nat.
Proof.
  destruct r as [|c r]; [reflexivity|]. cbn [bufio.dropCR].
  destruct (Ascii.eqb c (ascii_of_nat 13)); rewrite length_rev; cbn; lia.
Qed.

Lemma scan_tokens_short (s : string) :
  forall cur n,
    N.of_nat (String.length cur) = n -> (n < bufio.MaxScanTokenSize)%N ->
    Forall (fun tok => (N.of_nat (String.length tok) < bufio.MaxScanTokenSize)%N)
      (fst (bufio.scan s cur n)).
Proof.
  induction s as [|c s IH]; intros cur n Hn Hlt; cbn [bufio.scan].
  - destruct cur as [|x cur]; [constructor|].
    constructor; [|constructor].
    pose proof (length_dropCR (String x cur)). cbn [fst]. lia.
  - destruct (Ascii.eqb c newline_byte).
    + specialize (IH "" 0%N eq_refl ltac:(reflexivity)).
      destruct (bufio.scan s "" 0%N) as [toks err]. cbn [fst] in *.
      constructor; [|exact IH].
      pose proof (length_dropCR cur). lia.
    + destruct (bufio.MaxScanTokenSize <=? n + 1)%N eqn:E; [constructor|].
      apply N.leb_gt in E. apply IH; [cbn [String.length]; lia | exact E].
Qed.

Lemma filter_length_le {A} (g : A -> bool) (l : list A) :
  (List.length (List.filter g l) <= List.length l)%nat.
Proof. induction l as [|x l IH]; cbn; [lia|]. destruct (g x); cbn; lia. Qed.

(** X9. What [readFileList] returns: a missing file is an error; every
    path of a list it returns is not empty, does not end in an ASCII
    white-space byte and is shorter than the 65536 bytes of the scanner's
    buffer; and there are no more paths than lines. *)
Theorem readFileList_paths (fs : FileSystem) (filePath : string) :
  (contents fs !! filePath = None ->
   readFileList fs filePath = inl (ErrNotExist filePath)) /\
  (forall files,
      readFileList fs filePath = inr files ->
      exists data tokens,
        contents fs !! filePath = Some data /\
        bufio.ScanLines data = (tokens, None) /\
        (List.length files <= List.length tokens)%nat /\
        Forall (fun p => p <> "" /\ ends_in_space p = false /\
                         (N.of_nat (String.length p) < bufio.MaxScanTokenSize)%N)
          files).
Proof.
  unfold readFileList, os_Open. split.
  - intros H. now rewrite H.
  - intros files H.
    destruct (contents fs !! filePath) as [data|]; [|discriminate].
    pose proof (scan_tokens_short data "" 0%N eq_refl ltac:(reflexivity)) as Sh.
    fold (bufio.ScanLines data) in Sh.
    destruct (bufio.ScanLines data) as [tokens [err|]] eqn:Es; [discriminate|].
    injection H as <-. exists data, tokens.
    split; [reflexivity|]. split; [exact Es|].
    rewrite collectPaths_filter. cbn [fst] in Sh. split.
    + etransitivity; [apply filter_length_le|]. now rewrite length_map.
    + apply List.Forall_forall. intros p Hp.
      apply List.filter_In in Hp as [Hin Hne].
      apply List.in_map_iff in Hin as (tok & <- & Htok).
      rewrite List.Forall_forall in Sh. specialize (Sh _ Htok).
      split; [|split].
      * intros E. rewrite E in Hne. discriminate.
      * apply TrimSpace_last.
      * pose proof (length_TrimSpace tok). lia.
Qed.

Lemma scan_long_run (run post : string) :
  forall cur n,
    Str.has_byte newline_byte run = false ->
    (n < bufio.MaxScanTokenSize)%N ->
    (bufio.MaxScanTokenSize <= n + N.of_nat (String.length run))%N ->
    snd (bufio.scan (run +:+ post) cur n) = Some ErrTooLong.
Proof.
  induction run as [|c run IH]; intros cur n Hnl Hlt Hlen.
  - cbn in Hlen. lia.
  - cbn [Str.has_byte] in Hnl. apply orb_false_iff in Hnl as [Hc Hnl].
    change (String c run +:+ post) with (String c (run +:+ post)).
    cbn [bufio.scan]. rewrite Ascii.eqb_sym, Hc.
    destruct (bufio.MaxScanTokenSize <=? n + 1)%N eqn:E; [reflexivity|].
    apply N.leb_gt in E. apply IH; [exact Hnl | exact E|].
    cbn [String.length] in Hlen. lia.
Qed.

Lemma scan_long_line (pre run post : string) :
  forall cur n,
    Str.has_byte newline_byte run = false ->
    (n < bufio.MaxScanTokenSize)%N ->
    (bufio.MaxScanTokenSize <= N.of_nat (String.length run))%N ->
    snd (bufio.scan (pre +:+ run +:+ post) cur n) = Some ErrTooLong.
Proof.
  induction pre as [|c pre IH]; intros cur n Hnl Hlt Hlen.
  - change ("" +:+ run +:+ post) with (run +:+ post).
    apply (scan_long_run run post); [exact Hnl | exact Hlt | lia].
  - change (String c pre +:+ run +:+ post)
      with (String c (pre +:+ run +:+ post)).
    cbn [bufio.scan]. destruct (Ascii.eqb c newline_byte).
    + specialize (IH "" 0%N Hnl ltac:(reflexivity) Hlen).
      destruct (bufio.scan (pre +:+ run +:+ post) "" 0%N) as [toks err].
      exact IH.
    + destruct (bufio.MaxScanTokenSize <=? n + 1)%N eqn:E; [reflexivity|].
      apply N.leb_gt in E. now apply IH.
Qed.

(** X10. One line of 65536 bytes or more anywhere in the list file makes
    [readFileList] return [ErrTooLong] and no path at all, whatever the
    other lines are. *)
Theorem readFileList_long_line
  (fs : FileSystem) (filePath pre run post : string) :
  contents fs !! filePath = Some (pre +:+ run +:+ post) ->
  Str.has_byte newline_byte run = false ->
  (bufio.MaxScanTokenSize <= N.of_nat (String.length run))%N ->
  readFileList fs filePath = inl ErrTooLong.
Proof.
  intros Hc Hnl Hlen. unfold readFileList, os_Open. rewrite Hc.
  pose proof (scan_long_line pre run post "" 0%N Hnl ltac:(reflexivity) Hlen)
    as E.
  fold (bufio.ScanLines (pre +:+ run +:+ post)) in E.
  destruct (bufio.ScanLines (pre +:+ run +:+ post)) as [toks err].
  cbn [snd] in E. now subst err.
Qed.

Lemma readFileList_long_line_witness :
  readFileList fs_long_line "retry.txt" = inl ErrTooLong.
Proof.
  apply (readFileList_long_line fs_long_line "retry.txt"
           ("a.json" +:+ nl) long_id (nl +:+ "b.json" +:+ nl)).
  - apply lookup_singleton_eq.
  - vm_compute. reflexivity.
  - apply N.leb_le. vm_compute. reflexivity.
Defined.

Lemma scan_tail (g : string) :
  forall cur n,
    Str.has_byte newline_byte g = false ->
    (n + N.of_nat (String.length g) < bufio.MaxScanTokenSize)%N ->
    bufio.scan g cur n
    = (match Str.rev_append g cur with
       | EmptyString => []
       | String _ _ => [bufio.dropCR (Str.rev_append g cur)]
       end, None).
Proof.
  induction g as [|c g IH]; intros cur n Hnl Hlen.
  - cbn. now destruct cur.
  - cbn [Str.has_byte] in Hnl. apply orb_false_iff in Hnl as [Hc Hnl].
    cbn [bufio.scan Str.rev_append]. rewrite Ascii.eqb_sym, Hc.
    cbn [String.length] in Hlen.
    replace (bufio.MaxScanTokenSize <=? n + 1)%N with false
      by (symmetry; apply N.leb_gt; lia).
    apply IH; [exact Hnl | lia].
Qed.

Lemma blank_or_plain_facts (f : string) :
  blank_or_plain f ->
  strings.TrimSpace f = f /\ Str.has_byte newline_byte f = false /\
  Str.last f <> Some (ascii_of_nat 13).
Proof.
  intros [->|(Ht & _ & Hn)].
  - repeat split. discriminate.
  - repeat split; auto. now apply TrimSpace_fixed_no_CR.
Qed.

Lemma scan_rendered_line (l : string * bool) (rest : string) :
  blank_or_plain (fst l) ->
  (N.of_nat (String.length (fst l)) + 1 < bufio.MaxScanTokenSize)%N ->
  bufio.scan (render_line l +:+ rest) "" 0%N
  = (fst l :: fst (bufio.scan rest "" 0%N), snd (bufio.scan rest "" 0%N)).
Proof.
  intros Hf Hlen. destruct (blank_or_plain_facts _ Hf) as (_ & Hnl & Hcr).
  destruct l as [f [|]]; cbn [fst snd] in *; unfold render_line; cbn [fst snd].
  - replace ((f +:+ cr +:+ nl) +:+ rest) with ((f +:+ cr) +:+ nl +:+ rest)
      by now rewrite !app_assoc_s.
    rewrite scan_line.
    + f_equal. f_equal. change (Str.rev_append (f +:+ cr) "") with (Str.rev (f +:+ cr)).
      rewrite rev_app. change (Str.rev cr) with cr.
      change (cr +:+ Str.rev f) with (String cr_byte (Str.rev f)).
      cbn [bufio.dropCR]. unfold cr_byte. rewrite Ascii.eqb_refl.
      apply rev_involutive.
    + rewrite has_byte_app, Hnl. reflexivity.
    + rewrite length_app_s. cbn [String.length cr]. lia.
  - rewrite app_assoc_s, scan_line by (try assumption; lia).
    f_equal. f_equal. change (Str.rev_append f "") with (Str.rev f).
    now apply dropCR_rev.
Qed.

Lemma scan_rendered_lines (ls : list (string * bool)) (last : string) :
  Forall (fun l => blank_or_plain (fst l) /\
                   (N.of_nat (String.length (fst l)) + 1
                    < bufio.MaxScanTokenSize)%N) ls ->
  blank_or_plain last -> short_id last ->
  bufio.ScanLines (render_lines ls +:+ last)
  = ((List.map fst ls ++ match last with
                         | EmptyString => []
                         | _ => [last]
                         end)%list, None).
Proof.
  intros Hls Hlast Hshort. unfold bufio.ScanLines.
  induction Hls as [|l ls [Hl1 Hl2] _ IH].
  - change (render_lines [] +:+ last) with last.
    destruct (blank_or_plain_facts _ Hlast) as (_ & Hnl & Hcr).
    rewrite scan_tail by (try assumption; unfold short_id in Hshort; lia).
    change (Str.rev_append last "") with (Str.rev last).
    destruct last as [|c g]; [reflexivity|].
    rewrite rev_cons.
    destruct (Str.rev g +:+ String c "") eqn:E.
    + destruct (Str.rev g); discriminate.
    + rewrite <- E, <- rev_cons, dropCR_rev by exact Hcr. reflexivity.
  - cbn [render_lines fold_right]. fold (render_lines ls).
    rewrite app_assoc_s, scan_rendered_line by assumption.
    rewrite IH. reflexivity.
Qed.

(** X11. The format [readFileList] accepts: lines ended by a line feed or
    by a carriage return and a line feed, blank lines anywhere, and a last
    line without terminator.  It returns the lines that are not blank, in
    order. *)
Theorem readFileList_line_endings
  (fs : FileSystem) (filePath : string)
  (ls : list (string * bool)) (last : string) :
  Forall (fun l => blank_or_plain (fst l) /\
                   (N.of_nat (String.length (fst l)) + 1
                    < bufio.MaxScanTokenSize)%N) ls ->
  blank_or_plain last -> short_id last ->
  contents fs !! filePath = Some (render_lines ls +:+ last) ->
  readFileList fs filePath = inr (nonblank (List.map fst ls ++ [last])).
Proof.
  intros Hls Hlast Hshort Hc. unfold readFileList, os_Open. rewrite Hc.
  rewrite (scan_rendered_lines ls last Hls Hlast Hshort).
  rewrite collectPaths_filter. f_equal. unfold nonblank.
  rewrite !List.map_app, !List.filter_app. f_equal.
  - f_equal. rewrite <- (List.map_id (List.map fst ls)) at 2.
    apply List.map_ext_in. intros f Hin.
    apply List.in_map_iff in Hin as (l & <- & Hl).
    rewrite List.Forall_forall in Hls. destruct (Hls _ Hl) as [Hb _].
    now destruct (blank_or_plain_facts _ Hb) as (Ht & _).
  - destruct (blank_or_plain_facts _ Hlast) as (Ht & _).
    destruct last as [|c g]; [reflexivity|].
    cbn [List.map List.filter]. now rewrite Ht.
Qed.

Lemma readFileList_line_endings_witness :
  readFileList
    {| contents :=
         {["retry.txt" :=
             render_lines [("a.json", true); ("", false); ("b c.json", false)]
               +:+ "d.json"]};
       can_create := fun _ => true |} "retry.txt"
  = inr ["a.json"; "b c.json"; "d.json"].
Proof.
  apply (readFileList_line_endings _ "retry.txt"
           [("a.json", true); ("", false); ("b c.json", false)] "d.json").
  - constructor; [split; [right; split; [vm_compute; reflexivity|];
                          split; [discriminate | reflexivity]
                         | vm_compute; reflexivity]|].
    constructor; [split; [now left | vm_compute; reflexivity]|].
    constructor; [split; [right; split; [vm_compute; reflexivity|];
                          split; [discriminate | reflexivity]
                         | vm_compute; reflexivity]|].
    constructor.
  - right. split; [vm_compute; reflexivity|].
    split; [discriminate | reflexivity].
  - vm_compute. reflexivity.
  - apply lookup_singleton_eq.
Defined.

(** ** [main]: the source of the input list *)

Lemma main_startup_effects (e : Env) (fl : Flags) :
  Forall (fun x => pool_effect x = false /\ is_save x = false /\
                   is_network x = false)
    (fst (main_startup e fl)).
Proof.
  unfold main_startup.
  destruct (NewTransformer e (api fl) (apiKeyEnv fl) (maxConns fl));
    [repeat constructor|].
  pose proof (main_collect_effects e fl) as F.
  destruct (main_collect e fl) as [effs [fatal|files]] eqn:C; cbn [fst] in F.
  - assert (Hf : pool_effect fatal = false /\ is_save fatal = false /\
                 is_network fatal = false).
    { unfold main_collect in C.
      destruct (negb (String.eqb (retryFile fl) "")).
      - destruct (readFileList _ _); try discriminate.
        injection C as _ E. subst fatal. now repeat split.
      - destruct (glob_json _ _); try discriminate.
        injection C as _ E. subst fatal. now repeat split. }
    destruct F as [-> | ->]; cbn [fst]; repeat constructor; apply Hf.
  - destruct (List.length files =? 0)%nat; cbn [fst];
      destruct F as [-> | ->]; repeat constructor.
Qed.

(** X14. The input list has one source.  With a retry file the directory
    is not scanned, and a retry file that cannot be read ends the process
    with status 1 after the fatal log entry; without one the directory is
    scanned and no list file is opened, and a failing scan is fatal in the
    same way.  Neither failure is followed by any other effect. *)
Theorem main_input_source (e : Env) (fl : Flags) (t : Transformer) :
  NewTransformer e (api fl) (apiKeyEnv fl) (maxConns fl) = inr t ->
  (retryFile fl <> "" ->
   fst (main_collect e fl) = [ReadList (retryFile fl)] /\
   (forall err,
       readFileList (env_fs e) (retryFile fl) = inl err ->
       forall tr code,
         main_runs e fl tr code ->
         code = 1 /\ tr = [ReadList (retryFile fl); LogFatalRetry err])) /\
  (retryFile fl = "" ->
   fst (main_collect e fl) = [Glob (dir fl)] /\
   (forall err,
       glob_json e (dir fl) = inl err ->
       forall tr code,
         main_runs e fl tr code ->
         code = 1 /\ tr = [Glob (dir fl); LogFatal err])).
Proof.
  intros N. unfold main_runs, main_startup, main_collect. rewrite N. split.
  - intros H. apply String.eqb_neq in H. rewrite H. cbn [negb]. split.
    + now destruct (readFileList _ _).
    + intros err R tr code. rewrite R. now intros [-> ->].
  - intros H. rewrite H. cbn [String.eqb negb]. split.
    + now destruct (glob_json _ _).
    + intros err R tr code. rewrite R. now intros [-> ->].
Qed.

Lemma main_input_source_witness :
  fst (main_collect demo_env demo_flags) = [Glob "."] /\
  forall tr code,
    main_runs
      {| getenv := getenv demo_env; env_fs := env_fs demo_env;
         glob_json := fun d => inl (ErrNotExist d);
         json_Marshal := json_Marshal demo_env;
         json_Decode := json_Decode demo_env;
         url_ok := url_ok demo_env; url_Parse := url_Parse demo_env;
         redirect_header := redirect_header demo_env;
         boundary := boundary demo_env |}
      demo_flags tr code ->
    code = 1 /\ tr = [Glob "."; LogFatal (ErrNotExist ".")].
Proof.
  split.
  - destruct (main_input_source demo_env demo_flags demo_transformer eq_refl)
      as [_ H].
    destruct (H eq_refl) as [G _]. exact G.
  - destruct (main_input_source
                {| getenv := getenv demo_env; env_fs := env_fs demo_env;
                   glob_json := fun d => inl (ErrNotExist d);
                   json_Marshal := json_Marshal demo_env;
                   json_Decode := json_Decode demo_env;
                   url_ok := url_ok demo_env; url_Parse := url_Parse demo_env;
                   redirect_header := redirect_header demo_env;
                   boundary := boundary demo_env |}
                demo_flags demo_transformer eq_refl) as [_ H].
    destruct (H eq_refl) as [_ G]. exact (G _ eq_refl).
Defined.

(** ** The worker pool: order, failures, requests, pacing *)

(** A property kept by every move holds after every schedule. *)
Lemma run_invariant (e : Env) (fl : Flags) (t : Transformer)
  (P : pool -> Prop) :
  (forall s a s', P s -> step e fl t s a = Some s' -> P s') ->
  forall sched s s', P s -> run e fl t sched s = Some s' -> P s'.
Proof.
  intros Hstep sched. induction sched as [|a sched IH]; intros s s' Hs H;
    cbn in H.
  - now injection H as <-.
  - destruct (step e fl t s a) as [s1|] eqn:E; [|discriminate].
    eapply IH; [|exact H]. eapply Hstep; eauto.
Qed.

(** The cases of a move: [Send], [Close], [Recv], [Process] with an error,
    [Process] without, [Leave]. *)
Ltac step_cases H :=
  match type of H with
  | step _ _ _ ?s ?a = Some _ =>
      destruct a as [| |?w|?w ?net|?w]; cbn [step] in H;
      [ destruct (pending s) as [|?f ?rest] eqn:?Ep; [discriminate|];
        injection H as <-
      | destruct (pending s) eqn:?Ep; [|discriminate];
        destruct (closed s) eqn:?Ec; [discriminate|];
        injection H as <-
      | destruct (gor s !! w) as [[|?f0|]|] eqn:?Ew; try discriminate;
        destruct (jobs s) as [|?f ?rest] eqn:?Ej; [discriminate|];
        injection H as <-
      | destruct (gor s !! w) as [[|?f|]|] eqn:?Ew; try discriminate;
        match type of H with
        | context [processFile ?e ?t ?n ?g ?c] =>
            pose proof (processFile_effects_list e t n g c) as ?Hshape;
            destruct (processFile e t n g c) as [?effs [?er|]] eqn:?Epf
        end;
        injection H as <-
      | destruct (gor s !! w) as [[|?f0|]|] eqn:?Ew; try discriminate;
        destruct (jobs s) as [|?f ?rest] eqn:?Ej; [|discriminate];
        destruct (closed s) eqn:?Ec; [|discriminate];
        injection H as <- ]
  end.

(** X15. The queue is first in, first out: in every state of the pool the
    identifiers received so far, those in the queue and those not yet
    sent are, in this order, the input list.  Workers receive the
    identifiers in input order, and when every worker has left all of
    them have been received. *)
Theorem pool_receives_in_input_order
  (e : Env) (fl : Flags) (t : Transformer) (files : list string)
  (sched : list action) (s : pool) :
  run e fl t sched (pool_init fl files) = Some s ->
  pulled s ++ jobs s ++ pending s = files /\
  (1 <= workers fl -> Z.of_nat (List.length files) <= MaxInt ->
   all_done s -> pulled s = files).
Proof.
  intros R.
  assert (F : pulled s ++ jobs s ++ pending s = files).
  { refine (run_invariant e fl t
              (fun s => pulled s ++ jobs s ++ pending s = files)
              _ sched (pool_init fl files) s eq_refl R).
    clear. intros s a s' I H.
    step_cases H; cbn; rewrite <- I; rewrite <- ?app_assoc; reflexivity. }
  split; [exact F|].
  intros W Fit D.
  pose proof (Inv_run e fl t files Fit sched _ s (Inv_init fl files) R) as I.
  destruct (Inv_done fl files s I W D) as (Pn & J & _).
  rewrite J, Pn, !app_nil_r in F. exact F.
Qed.

Lemma pool_receives_in_input_order_witness :
  exists s,
    run demo_env demo_flags demo_transformer demo_schedule
      (pool_init demo_flags ["a.json"; "b.json"]) = Some s /\
    pulled s = ["a.json"; "b.json"].
Proof.
  assert (E : exists s,
             run demo_env demo_flags demo_transformer demo_schedule
               (pool_init demo_flags ["a.json"; "b.json"]) = Some s /\
             all_done s)
    by (eexists; split; [vm_compute; reflexivity | repeat constructor]).
  destruct E as (s & R & D). exists s. split; [exact R|].
  destruct (pool_receives_in_input_order demo_env demo_flags demo_transformer
              ["a.json"; "b.json"] demo_schedule s R) as [_ H].
  apply H; [cbn; lia | cbn; unfold MaxInt; lia | exact D].
Defined.

Lemma failed_ids_snoc (l : list (string * option error)) (f : string)
  (r : option error) :
  failed_ids (l ++ [(f, r)])
  = (failed_ids l ++ match r with Some _ => [f] | None => [] end)%list.
Proof.
  unfold failed_ids. rewrite filter_snoc. unfold succeeded. cbn [snd].
  destruct r; cbn [negb]; rewrite map_app; [reflexivity|].
  cbn. now rewrite !app_nil_r.
Qed.

Lemma failed_ids_sublist (l : list (string * option error)) :
  sublist (failed_ids l) (List.map fst l).
Proof.
  unfold failed_ids. induction l as [|p l IH]; cbn; [constructor|].
  destruct (negb (succeeded p)); cbn; now constructor.
Qed.

(** In the model the failure list is extended in the move in which the
    result is counted. *)
Lemma failures_failed_ids
  (e : Env) (fl : Flags) (t : Transformer) (files : list string)
  (sched : list action) (s : pool) :
  run e fl t sched (pool_init fl files) = Some s ->
  failures s
  = if negb (String.eqb (saveFailures fl) "")
    then failed_ids (processed s) else [].
Proof.
  intros R.
  refine (run_invariant e fl t
            (fun s => failures s
                      = if negb (String.eqb (saveFailures fl) "")
                        then failed_ids (processed s) else [])
            _ sched (pool_init fl files) s _ R).
  - clear. intros s a s' I H.
    step_cases H; cbn [failures processed]; try exact I.
    + rewrite failed_ids_snoc, I.
      now destruct (negb (String.eqb (saveFailures fl) "")).
    + rewrite failed_ids_snoc, I, app_nil_r. reflexivity.
  - cbn. now destruct (negb (String.eqb (saveFailures fl) "")).
Qed.

(** X16. The failure list when every worker has left.  With a
    failure-output path it holds, up to order, the identifiers whose
    [processFile] returned an error, each as often as a call on it failed,
    so its length is the failure counter and no identifier is in it more
    often than in the input; without a path it is empty. *)
Theorem pool_failure_list
  (e : Env) (fl : Flags) (t : Transformer) (files : list string)
  (sched : list action) (s : pool) :
  Z.of_nat (List.length files) <= MaxInt ->
  run e fl t sched (pool_init fl files) = Some s ->
  all_done s ->
  (saveFailures fl = "" -> failures s = []) /\
  (saveFailures fl <> "" ->
   failures s ≡ₚ failed_ids (processed s) /\
   Z.of_nat (List.length (failures s)) = fail s /\
   failures s ⊆+ files).
Proof.
  intros Fit R _.
  pose proof (failures_failed_ids e fl t files sched s R) as F.
  pose proof (Inv_run e fl t files Fit sched _ s (Inv_init fl files) R) as I.
  split.
  - intros H. now rewrite F, H.
  - intros H. apply String.eqb_neq in H. rewrite H in F. cbn [negb] in F.
    split; [now rewrite F|].
    split.
    { rewrite F, (inv_fail _ _ _ I). unfold failed_ids. now rewrite length_map. }
    rewrite F. etransitivity.
    { apply sublist_submseteq, failed_ids_sublist. }
    rewrite <- (inv_items _ _ _ I). apply submseteq_inserts_r. reflexivity.
Qed.

Lemma pool_failure_list_witness :
  exists s,
    run demo_env demo_flags demo_transformer demo_schedule
      (pool_init demo_flags ["a.json"; "b.json"]) = Some s /\
    failures s ≡ₚ failed_ids (processed s) /\
    Z.of_nat (List.length (failures s)) = fail s /\
    failures s ⊆+ ["a.json"; "b.json"].
Proof.
  assert (E : exists s,
             run demo_env demo_flags demo_transformer demo_schedule
               (pool_init demo_flags ["a.json"; "b.json"]) = Some s /\
             all_done s)
    by (eexists; split; [vm_compute; reflexivity | repeat constructor]).
  destruct E as (s & R & D). exists s. split; [exact R|].
  destruct (pool_failure_list demo_env demo_flags demo_transformer
              ["a.json"; "b.json"] demo_schedule s
              ltac:(cbn; unfold MaxInt; lia) R D) as [_ H].
  apply H. discriminate.
Defined.

Lemma filter_app_length {A} (g : A -> bool) (l1 l2 : list A) :
  List.length (List.filter g (l1 ++ l2))
  = (List.length (List.filter g l1) + List.length (List.filter g l2))%nat.
Proof. now rewrite List.filter_app, length_app. Qed.

Lemma opened_app (l1 l2 : list effect) :
  opened (l1 ++ l2) = opened l1 ++ opened l2.
Proof.
  induction l1 as [|x l1 IH]; [reflexivity|].
  destruct x; cbn; now rewrite ?IH.
Qed.

Lemma opened_requests (reqs : list http.Request) :
  opened (List.map HttpDo reqs) = [].
Proof. induction reqs as [|r reqs IH]; [reflexivity | exact IH]. Qed.

Lemma network_requests (reqs : list http.Request) :
  List.filter is_network (List.map HttpDo reqs) = List.map HttpDo reqs.
Proof. induction reqs as [|r reqs IH]; cbn; now rewrite ?IH. Qed.

Lemma sleep_requests (reqs : list http.Request) :
  List.filter is_sleep (List.map HttpDo reqs) = [].
Proof. induction reqs as [|r reqs IH]; [reflexivity | exact IH]. Qed.

Lemma pool_effect_requests (reqs : list http.Request) :
  Forall (fun x => pool_effect x = true) (List.map HttpDo reqs).
Proof. induction reqs as [|r reqs IH]; now constructor. Qed.

(** X17. No identifier is submitted more often than it is listed and
    nothing is retried.  In every state the items opened so far are, as a
    multiset, part of the input list, and the requests sent are at most
    ten for each item opened, the bound of the redirect policy.  When
    every worker has left, the items opened are the input list up to
    order: each identifier was opened once for each time it is listed. *)
Theorem pool_opens_each_item_once
  (e : Env) (fl : Flags) (t : Transformer) (files : list string)
  (sched : list action) (s : pool) :
  Z.of_nat (List.length files) <= MaxInt ->
  run e fl t sched (pool_init fl files) = Some s ->
  opened (log s) ⊆+ files /\
  (List.length (List.filter is_network (log s))
   <= 10 * List.length (opened (log s)))%nat /\
  (1 <= workers fl -> all_done s -> opened (log s) ≡ₚ files).
Proof.
  intros Fit R.
  pose proof (Inv_run e fl t files Fit sched _ s (Inv_init fl files) R) as I.
  assert (F :
    opened (log s) = List.map fst (processed s) /\
    (List.length (List.filter is_network (log s))
     <= 10 * List.length (processed s))%nat).
  { refine (run_invariant e fl t
              (fun s =>
                 opened (log s) = List.map fst (processed s) /\
                 (List.length (List.filter is_network (log s))
                  <= 10 * List.length (processed s))%nat)
              _ sched (pool_init fl files) s _ R).
    - clear. intros s a s' (I1 & I2) H.
      step_cases H; cbn [log processed]; try (now split).
      + (* Recv *)
        rewrite opened_app, filter_app_length.
        destruct (backoff fl >? 0); cbn; rewrite app_nil_r; split;
          [exact I1 | lia | exact I1 | lia].
      + (* Process, error *)
        cbn [fst] in Hshape. destruct Hshape as (reqs & -> & L).
        rewrite !opened_app, !filter_app_length, map_app, length_app.
        cbn [opened List.filter is_network].
        rewrite opened_requests, network_requests, length_map.
        cbn. rewrite I1. split; [reflexivity | lia].
      + (* Process, success *)
        cbn [fst] in Hshape. destruct Hshape as (reqs & -> & L).
        rewrite !opened_app, !filter_app_length, map_app, length_app.
        cbn [opened List.filter is_network].
        rewrite opened_requests, network_requests, length_map.
        cbn. rewrite I1. split; [reflexivity | lia].
    - cbn. split; [reflexivity | lia]. }
  destruct F as (F1 & F2). rewrite F1, length_map.
  split; [|split; [exact F2|]].
  - rewrite <- (inv_items _ _ _ I). apply submseteq_inserts_r. reflexivity.
  - intros W D.
    now destruct (Inv_done fl files s I W D) as (_ & _ & _ & P & _).
Qed.

Lemma pool_opens_each_item_once_witness :
  exists s,
    run demo_env demo_flags demo_transformer
      [Send; Recv 0; Send; Close; Recv 1;
       Process 1 (answer 200 ""); Process 0 redirecting; Leave 0; Leave 1]
      (pool_init demo_flags ["a.json"; "b.json"]) = Some s /\
    opened (log s) ≡ₚ ["a.json"; "b.json"] /\
    List.length (List.filter is_network (log s)) = 2%nat.
Proof.
  match goal with
  | |- exists s, run ?e ?fl ?t ?sc ?init = Some s /\ _ =>
      assert (E : exists s, run e fl t sc init = Some s /\ all_done s /\
                            List.length (List.filter is_network (log s)) = 2%nat)
        by (eexists; split; [vm_compute; reflexivity
                            | split; [repeat constructor | reflexivity]]);
      destruct E as (s & R & D & N); exists s; split; [exact R|];
      destruct (pool_opens_each_item_once e fl t ["a.json"; "b.json"] sc s
                  ltac:(cbn; unfold MaxInt; lia) R) as (_ & _ & H)
  end.
  split; [|exact N]. apply H; [cbn; lia | exact D].
Defined.

Lemma int64_small (z : Z) : - 2 ^ 63 <= z < 2 ^ 63 -> int64 z = z.
Proof. intros H. unfold int64. rewrite Z.mod_small; lia. Qed.

Lemma int64_range (z : Z) : - 2 ^ 63 <= int64 z < 2 ^ 63.
Proof.
  unfold int64. pose proof (Z.mod_pos_bound (z + 2 ^ 63) (2 ^ 64)). lia.
Qed.

(** X18. Pacing.  The pool never sleeps when the back-off is zero or less.
    When it is positive, every pause is a call of [time.Sleep] with the
    back-off multiplied by [time.Millisecond] in 64-bit arithmetic, there
    are never more pauses than identifiers received, and when every worker
    has left there has been one pause for each identifier.  The duration
    is the back-off in milliseconds as long as the back-off is at most
    9223372036854; above that the product wraps around and the pause is
    not the one asked for. *)
Theorem pool_pacing
  (e : Env) (fl : Flags) (t : Transformer) (files : list string)
  (sched : list action) (s : pool) :
  run e fl t sched (pool_init fl files) = Some s ->
  (backoff fl <= 0 -> List.filter is_sleep (log s) = []) /\
  (forall x, In x (List.filter is_sleep (log s)) ->
             x = Sleep (backoff_duration fl)) /\
  (List.length (List.filter is_sleep (log s)) <= List.length (pulled s))%nat /\
  (0 < backoff fl -> 1 <= workers fl ->
   Z.of_nat (List.length files) <= MaxInt -> all_done s ->
   List.length (List.filter is_sleep (log s)) = List.length files) /\
  (0 < backoff fl <= 9223372036854 ->
   backoff_duration fl = backoff fl * 1000000 /\ 0 < backoff_duration fl) /\
  (9223372036854 < backoff fl <= MaxInt ->
   backoff_duration fl <> backoff fl * 1000000).
Proof.
  intros R.
  assert (F : List.filter is_sleep (log s)
              = if backoff fl >? 0
                then List.repeat (Sleep (backoff_duration fl))
                       (List.length (pulled s))
                else []).
  { refine (run_invariant e fl t
              (fun s => List.filter is_sleep (log s)
                        = if backoff fl >? 0
                          then List.repeat (Sleep (backoff_duration fl))
                                 (List.length (pulled s))
                          else [])
              _ sched (pool_init fl files) s _ R).
    - clear. intros s a s' I H.
      step_cases H; cbn [log pulled]; try exact I.
      + rewrite List.filter_app, I, length_app.
        destruct (backoff fl >? 0); cbn; [|reflexivity].
        rewrite Nat.add_1_r. now rewrite <- List.repeat_cons.
      + cbn [fst] in Hshape. destruct Hshape as (reqs & -> & _).
        rewrite !List.filter_app, I. cbn [List.filter is_sleep].
        rewrite sleep_requests. now rewrite app_nil_r.
      + cbn [fst] in Hshape. destruct Hshape as (reqs & -> & _).
        rewrite !List.filter_app, I. cbn [List.filter is_sleep].
        rewrite sleep_requests. now rewrite app_nil_r.
    - cbn. now destruct (backoff fl >? 0). }
  rewrite F. split; [|split; [|split; [|split; [|split]]]].
  - intros B. destruct (backoff fl >? 0) eqn:G; [|reflexivity].
    apply Z.gtb_lt in G. lia.
  - intros x Hx. destruct (backoff fl >? 0); [|contradiction].
    now apply List.repeat_spec in Hx.
  - destruct (backoff fl >? 0); [rewrite List.repeat_length | cbn]; lia.
  - intros B W Fit D.
    pose proof (Inv_run e fl t files Fit sched _ s (Inv_init fl files) R) as I.
    destruct (Inv_done fl files s I W D) as (_ & _ & _ & _ & P & _).
    apply Z.gtb_lt in B. rewrite B, List.repeat_length.
    now apply Permutation_length.
  - intros B. unfold backoff_duration, Millisecond.
    rewrite (int64_small (backoff fl)) by lia.
    rewrite int64_small by lia. lia.
  - unfold MaxInt. intros B. unfold backoff_duration, Millisecond.
    rewrite (int64_small (backoff fl)) by lia.
    pose proof (int64_range (backoff fl * 1000000)). lia.
Qed.

Lemma pool_pacing_witness :
  exists s,
    run demo_env demo_flags_paced demo_transformer
      [Send; Send; Close; Recv 0; Process 0 (answer 500 "no"); Recv 0]
      (pool_init demo_flags_paced ["a.json"; "b.json"]) = Some s /\
    List.filter is_sleep (log s) = [Sleep 5000000; Sleep 5000000].
Proof.
  match goal with
  | |- exists s, run ?e ?fl ?t ?sc ?init = Some s /\ _ =>
      assert (E : exists s, run e fl t sc init = Some s /\
                            List.filter is_sleep (log s)
                            = [Sleep (backoff_duration fl);
                               Sleep (backoff_duration fl)])
        by (eexists; split; [vm_compute; reflexivity | reflexivity]);
      destruct E as (s & R & L); exists s; split; [exact R|];
      destruct (pool_pacing e fl t ["a.json"; "b.json"] sc s R)
        as (_ & _ & _ & _ & H & _)
  end.
  destruct H as [H _]; [cbn; lia|]. rewrite L, H. reflexivity.
Defined.

(** ** [main]: complete runs *)

(** X19. With a worker count of zero or less, [main] sends the identifiers
    into the queue, closes it and prints a summary of zero successes and
    zero failures: no item is opened and no request is sent, although the
    input list is not empty. *)
Theorem main_without_workers
  (e : Env) (fl : Flags) (t : Transformer) (files : list string)
  (tr0 : list effect) :
  main_startup e fl = (tr0, Run t files) ->
  workers fl <= 0 ->
  main_runs e fl (tr0 ++ [summary_line 0 0]) 0 /\
  (forall tr code,
      main_runs e fl tr code ->
      code = 0 /\ tr = tr0 ++ [summary_line 0 0]).
Proof.
  intros St W.
  assert (Inv0 : forall sched s,
             run e fl t sched (pool_init fl files) = Some s ->
             gor s = [] /\ ok s = 0 /\ fail s = 0 /\ log s = [] /\
             failures s = []).
  { intros sched s R.
    refine (run_invariant e fl t
              (fun s => gor s = [] /\ ok s = 0 /\ fail s = 0 /\ log s = [] /\
                        failures s = [])
              _ sched (pool_init fl files) s _ R).
    - clear. intros s a s' (G & I) H.
      step_cases H; cbn; try (now split); rewrite G in *; discriminate.
    - cbn. replace (Z.to_nat (workers fl)) with 0%nat by lia. now repeat split. }
  assert (Rep : forall s, ok s = 0 -> fail s = 0 -> failures s = [] ->
                          main_report e fl s = [summary_line 0 0]).
  { intros s O Fa F. unfold main_report. rewrite O, Fa, F. cbn [List.length].
    now rewrite andb_false_r. }
  unfold main_runs. rewrite St. split.
  - exists [], (pool_init fl files). split; [reflexivity|].
    split.
    + unfold all_done. cbn.
      replace (Z.to_nat (workers fl)) with 0%nat by lia. constructor.
    + split; [|reflexivity]. cbn [log pool_init].
      now rewrite Rep.
  - intros tr code (sched & s & R & _ & -> & ->).
    destruct (Inv0 sched s R) as (_ & O & F & L & Fs).
    split; [reflexivity|]. now rewrite L, (Rep s O F Fs).
Qed.

Lemma main_without_workers_witness :
  exists tr0,
    main_runs demo_env_listing demo_flags_no_workers
      (tr0 ++ [summary_line 0 0]) 0.
Proof.
  eexists.
  refine (proj1 (main_without_workers demo_env_listing demo_flags_no_workers
                   demo_transformer ["a.json"; "b.json"] _ eq_refl _)).
  cbn. lia.
Defined.

Lemma in_filter_true {A} (g : A -> bool) (l : list A) (x : A) :
  In x l -> g x = true -> In x (List.filter g l).
Proof. intros H1 H2. apply List.filter_In. now split. Qed.

(** X20. A run of [main] that reaches the pool ends with status 0.  Its
    effects are those of the start, then the log of the pool in the state
    in which every worker has left, then the report, whose last effect is
    the summary line, whatever failed on the way.  The counts printed are
    the counters of that state: the number of calls of [processFile] of
    the run that returned [nil], and the number that returned an error.
    The failure file is written, or its writing attempted, exactly when a
    failure-output path is set and a call or more returned an error: a
    run without failures leaves an older failure file as it is. *)
Theorem main_run_outcome
  (e : Env) (fl : Flags) (t : Transformer) (files : list string)
  (tr0 tr : list effect) (code : Z) :
  main_startup e fl = (tr0, Run t files) ->
  Z.of_nat (List.length files) <= MaxInt ->
  main_runs e fl tr code ->
  code = 0 /\
  exists sched s mid,
    run e fl t sched (pool_init fl files) = Some s /\
    all_done s /\
    tr = tr0 ++ log s ++ mid ++ [summary_line (ok s) (fail s)] /\
    ok s = Z.of_nat (List.length (List.filter succeeded (processed s))) /\
    fail s = Z.of_nat (List.length (failed_ids (processed s))) /\
    (mid <> [] <-> saveFailures fl <> "" /\ 0 < fail s) /\
    (List.filter is_save tr <> [] <-> saveFailures fl <> "" /\ 0 < fail s) /\
    (forall p written, In (SaveFile p written) tr -> p = saveFailures fl).
Proof.
  intros St Fit R. unfold main_runs in R. rewrite St in R.
  destruct R as (sched & s & Hrun & D & -> & ->).
  split; [reflexivity|].
  exists sched, s.
  pose proof (Inv_run e fl t files Fit sched _ s (Inv_init fl files) Hrun) as I.
  pose proof (failures_failed_ids e fl t files sched s Hrun) as F.
  assert (L : Forall (fun x => pool_effect x = true) (log s)).
  { refine (run_invariant e fl t
              (fun s => Forall (fun x => pool_effect x = true) (log s))
              _ sched (pool_init fl files) s _ Hrun).
    - clear. intros s a s' J H.
      step_cases H; cbn [log]; try exact J;
        try (cbn [fst] in Hshape; destruct Hshape as (reqs & -> & _));
        repeat (apply Forall_app; split); try exact J;
        try (destruct (backoff fl >? 0));
        repeat (first [apply pool_effect_requests | constructor]).
    - constructor. }
  pose proof (main_startup_effects e fl) as S0. rewrite St in S0. cbn [fst] in S0.
  assert (Fl : fail s = Z.of_nat (List.length (failed_ids (processed s)))).
  { rewrite (inv_fail _ _ _ I). unfold failed_ids. now rewrite length_map. }
  assert (NoSave0 : List.filter is_save tr0 = []).
  { clear -S0. induction S0 as [|x l (_ & Hx & _) _ IH]; [reflexivity|].
    cbn. now rewrite Hx. }
  assert (NoSaveL : List.filter is_save (log s) = []).
  { clear -L. induction L as [|x l Hx _ IH]; [reflexivity|].
    cbn. destruct x; try discriminate; exact IH. }
  unfold main_report.
  destruct (negb (String.eqb (saveFailures fl) "")
            && (0 <? List.length (failures s))%nat) eqn:G.
  - apply andb_true_iff in G as [G1 G2]. rewrite G1 in F.
    apply Nat.ltb_lt in G2.
    assert (Hs : saveFailures fl <> "").
    { intros E. rewrite E in G1. discriminate. }
    assert (Hpos : 0 < fail s) by (rewrite Fl, <- F; lia).
    destruct (saveFilesToFile (env_fs e) (saveFailures fl) (failures s))
      as [fs' [err|]].
    + exists [SaveFile (saveFailures fl) false; LogSaveError err].
      split; [exact Hrun|]. split; [exact D|].
      split; [reflexivity|].
      split; [exact (inv_ok _ _ _ I)|]. split; [exact Fl|].
      split; [split; [intros _; now split | discriminate]|]. split.
      * split; [intros _; now split|]. intros _.
        rewrite !List.filter_app, NoSave0, NoSaveL. discriminate.
      * intros p w Hin. apply (in_filter_true is_save) in Hin; [|reflexivity].
        rewrite !List.filter_app, NoSave0, NoSaveL in Hin. cbn in Hin.
        destruct Hin as [Hin|[]]. now injection Hin as <- _.
    + exists [SaveFile (saveFailures fl) true;
              LogPrint (Sprintf "Saved %d failed paths to %s"
                          [ArgD (Z.of_nat (List.length (failures s)));
                           ArgS (saveFailures fl)])].
      split; [exact Hrun|]. split; [exact D|].
      split; [reflexivity|].
      split; [exact (inv_ok _ _ _ I)|]. split; [exact Fl|].
      split; [split; [intros _; now split | discriminate]|]. split.
      * split; [intros _; now split|]. intros _.
        rewrite !List.filter_app, NoSave0, NoSaveL. discriminate.
      * intros p w Hin. apply (in_filter_true is_save) in Hin; [|reflexivity].
        rewrite !List.filter_app, NoSave0, NoSaveL in Hin. cbn in Hin.
        destruct Hin as [Hin|[]]. now injection Hin as <- _.
  - assert (No : ~ (saveFailures fl <> "" /\ 0 < fail s)).
    { intros [Hs Hpos].
      apply String.eqb_neq in Hs. rewrite Hs in G, F. cbn [negb andb] in G, F.
      apply Nat.ltb_ge in G. rewrite F in G. lia. }
    exists []. split; [exact Hrun|]. split; [exact D|].
    split; [reflexivity|].
    split; [exact (inv_ok _ _ _ I)|]. split; [exact Fl|].
    split; [split; [congruence | intros X; now destruct No]|]. split.
    + rewrite !List.filter_app, NoSave0, NoSaveL. cbn.
      split; [congruence | intros X; now destruct No].
    + intros p w Hin. apply (in_filter_true is_save) in Hin; [|reflexivity].
      rewrite !List.filter_app, NoSave0, NoSaveL in Hin. cbn in Hin.
      contradiction.
Qed.

Lemma main_run_outcome_witness :
  exists tr,
    main_runs demo_env_listing demo_flags tr 0 /\
    exists sched s mid,
      run demo_env_listing demo_flags demo_transformer sched
        (pool_init demo_flags ["a.json"; "b.json"]) = Some s /\
      all_done s /\
      tr = fst (main_startup demo_env_listing demo_flags) ++ log s ++ mid
             ++ [summary_line (ok s) (fail s)].
Proof.
  assert (E : exists s,
             run demo_env_listing demo_flags demo_transformer demo_schedule
               (pool_init demo_flags ["a.json"; "b.json"]) = Some s /\
             all_done s)
    by (eexists; split; [vm_compute; reflexivity | repeat constructor]).
  destruct E as (s & R & D).
  assert (St : main_startup demo_env_listing demo_flags
               = (fst (main_startup demo_env_listing demo_flags),
                  Run demo_transformer ["a.json"; "b.json"]))
    by reflexivity.
  exists (fst (main_startup demo_env_listing demo_flags) ++ log s
            ++ main_report demo_env_listing demo_flags s).
  assert (M : main_runs demo_env_listing demo_flags
                (fst (main_startup demo_env_listing demo_flags) ++ log s
                   ++ main_report demo_env_listing demo_flags s) 0).
  { unfold main_runs. rewrite St. cbn [fst].
    exists demo_schedule, s. repeat split; assumption. }
  split; [exact M|].
  destruct (main_run_outcome demo_env_listing demo_flags demo_transformer
              ["a.json"; "b.json"] _ _ 0 St ltac:(cbn; unfold MaxInt; lia) M)
    as (_ & sched' & s' & mid & R' & D' & H & _).
  exists sched', s', mid. split; [exact R'|]. split; [exact D' | exact H].
Defined.

Lemma single_worker (l : list worker) (w : nat) (st : worker) :
  List.length l = 1%nat -> l !! w = Some st -> l = [st] /\ w = 0%nat.
Proof.
  destruct l as [|a [|b l]]; try discriminate. intros _ H.
  destruct w as [|w]; [now injection H as -> | discriminate].
Qed.

(** X21. With one worker the identifiers are processed in input order: in
    every state the identifiers processed, followed by the one in hand,
    are the identifiers received, and when the worker has left the
    processed identifiers are the input list in its order; the failure
    list then keeps the input order. *)
Theorem single_worker_keeps_order
  (e : Env) (fl : Flags) (t : Transformer) (files : list string)
  (sched : list action) (s : pool) :
  workers fl = 1 ->
  Z.of_nat (List.length files) <= MaxInt ->
  run e fl t sched (pool_init fl files) = Some s ->
  List.map fst (processed s) ++ in_flight s = pulled s /\
  (all_done s ->
   List.map fst (processed s) = files /\
   sublist (failed_ids (processed s)) files /\
   (saveFailures fl <> "" -> sublist (failures s) files)).
Proof.
  intros W Fit R.
  assert (F : List.length (gor s) = 1%nat /\
              List.map fst (processed s) ++ in_flight s = pulled s /\
              failures s
              = if negb (String.eqb (saveFailures fl) "")
                then failed_ids (processed s) else []).
  { refine (run_invariant e fl t
              (fun s => List.length (gor s) = 1%nat /\
                        List.map fst (processed s) ++ in_flight s = pulled s /\
                        failures s
                        = if negb (String.eqb (saveFailures fl) "")
                          then failed_ids (processed s) else [])
              _ sched (pool_init fl files) s _ R).
    - clear. intros s a s' (L & I & Fs) H. unfold in_flight in *.
      step_cases H; cbn [gor processed pulled failures];
        try (now repeat split);
        destruct (single_worker _ _ _ L Ew) as [G ->]; rewrite G in *;
        cbn in I |- *.
      + rewrite app_nil_r in I. rewrite <- I. now repeat split.
      + rewrite map_app, failed_ids_snoc, Fs. cbn.
        rewrite app_nil_r, I. repeat split.
        now destruct (negb (String.eqb (saveFailures fl) "")).
      + rewrite map_app, failed_ids_snoc, Fs. cbn.
        rewrite !app_nil_r, I. now repeat split.
      + now repeat split.
    - cbn. rewrite W. cbn. repeat split.
      now destruct (negb (String.eqb (saveFailures fl) "")). }
  destruct F as (_ & F & Fs). split; [exact F|].
  intros D.
  pose proof (Inv_run e fl t files Fit sched _ s (Inv_init fl files) R) as I.
  destruct (Inv_done fl files s I ltac:(lia) D) as (Pn & J & _).
  assert (O : pulled s ++ jobs s ++ pending s = files).
  { refine (run_invariant e fl t
              (fun s => pulled s ++ jobs s ++ pending s = files)
              _ sched (pool_init fl files) s eq_refl R).
    clear. intros s a s' K H.
    step_cases H; cbn; rewrite <- K; rewrite <- ?app_assoc; reflexivity. }
  rewrite J, Pn, !app_nil_r in O.
  unfold in_flight in F. rewrite (held_by_all_exited _ D), app_nil_r in F.
  assert (E : List.map fst (processed s) = files) by congruence.
  split; [exact E|]. split.
  - rewrite <- E. apply failed_ids_sublist.
  - intros Hs. apply String.eqb_neq in Hs. rewrite Hs in Fs. cbn [negb] in Fs.
    rewrite Fs, <- E. apply failed_ids_sublist.
Qed.

Lemma single_worker_keeps_order_witness :
  exists s,
    run demo_env
      {| dir := "."; retryFile := ""; api := "https://api.example.com/v2";
         collection := 0; workers := 1; backoff := 5; maxConns := 256;
         apiKeyEnv := "OMNIPUB_API_KEY"; saveFailures := "failed.txt" |}
      demo_transformer
      [Send; Send; Close; Recv 0; Process 0 (answer 500 "no"); Recv 0;
       Process 0 (answer 200 ""); Leave 0]
      (pool_init
         {| dir := "."; retryFile := ""; api := "https://api.example.com/v2";
            collection := 0; workers := 1; backoff := 5; maxConns := 256;
            apiKeyEnv := "OMNIPUB_API_KEY"; saveFailures := "failed.txt" |}
         ["a.json"; "b.json"]) = Some s /\
    List.map fst (processed s) = ["a.json"; "b.json"].
Proof.
  match goal with
  | |- exists s, run ?e ?fl ?t ?sc ?init = Some s /\ _ =>
      assert (E : exists s, run e fl t sc init = Some s /\ all_done s)
        by (eexists; split; [vm_compute; reflexivity | repeat constructor]);
      destruct E as (s & R & D); exists s; split; [exact R|];
      destruct (single_worker_keeps_order e fl t ["a.json"; "b.json"] sc s
                  eq_refl ltac:(cbn; unfold MaxInt; lia) R) as [_ H]
  end.
  destruct (H D) as [E _]. exact E.
Defined.

(** ** The requests of a run *)

Lemma postItem_request_shape
  (e : Env) (fl : Flags) (t : Transformer) (art : Article)
  (req : http.Request) :
  postItem_request e t (buildHTML art) (buildMetadata art) (collectionID_of fl)
  = inr req ->
  request_of_run e fl t req.
Proof.
  intros R. pose proof (postItem_request_Form _ _ _ _ _ _ R) as F.
  unfold request_of_run. rewrite F, postItem_body_fields.
  unfold postItem_request, NewRequestWithContext in R.
  destruct (url_ok e _); [|discriminate]. injection R as <-.
  cbn [http.Method http.URL http.ReqHeader].
  split; [reflexivity|]. split; [reflexivity|]. split.
  { unfold http.Header_Set, http.Header_Clone.
    apply lookup_insert_ne. discriminate. }
  split.
  - unfold collectionID_of. destruct (collection fl >? 0) eqn:E.
    + apply Z.gtb_lt in E. cbn. split; [intros _; exact E | auto].
    + rewrite Z.gtb_ltb in E. apply Z.ltb_ge in E. cbn.
      split; [intros [H|[H|[]]]; discriminate | lia].
  - exists art. symmetry. apply postItem_body_fields.
Qed.

Lemma request_of_run_body
  (e : Env) (fl : Flags) (t : Transformer) (req : http.Request) :
  request_of_run e fl t req ->
  (In "collection_id" (List.map fst (http.Form req)) <-> 0 < collection fl) /\
  exists art,
    http.Form req
    = multipart.fields
        (postItem_body e (buildHTML art) (buildMetadata art)
           (collectionID_of fl)).
Proof. intros (_ & _ & _ & C & A). now split. Qed.

Lemma processFile_requests
  (e : Env) (fl : Flags) (t : Transformer) (net : http.RoundTrip)
  (file : string) (req : http.Request) :
  In (HttpDo req) (fst (processFile e t net file (collectionID_of fl))) ->
  carries_rendering e fl req.
Proof.
  destruct (processFile_effects_shape e t net file (collectionID_of fl))
    as [-> | (art & req0 & more & R & -> & _ & F)].
  { intros [H|[]]. discriminate. }
  pose proof (request_of_run_body e fl t req0
                (postItem_request_shape e fl t art req0 R)) as B.
  intros [H|[H|H]]; [discriminate| |].
  - injection H as <-. now right.
  - apply in_map_iff in H as (rq & [= <-] & Hin).
    rewrite List.Forall_forall in F. destruct (F _ Hin) as [E | E].
    + now left.
    + right. now rewrite E.
Qed.

(** X22. The requests of a run.  The first request of every call of
    [processFile] that sends one is a POST to the endpoint of the
    transformer, carries its credential, has the [collection_id] field
    exactly when the collection flag is greater than zero, and has as body
    the rendering of a decoded article.  Every request in the log of the
    pool, those that follow a redirect included, has no body or such a
    rendering as its body. *)
Theorem pool_requests_uniform
  (e : Env) (fl : Flags) (t : Transformer) (files : list string)
  (sched : list action) (s : pool) :
  run e fl t sched (pool_init fl files) = Some s ->
  (forall req, In (HttpDo req) (log s) -> carries_rendering e fl req) /\
  (forall net file req rest,
      fst (processFile e t net file (collectionID_of fl))
      = OpenItem file :: HttpDo req :: rest ->
      request_of_run e fl t req).
Proof.
  intros R. split.
  - intros req.
    refine (run_invariant e fl t
              (fun s => In (HttpDo req) (log s) -> carries_rendering e fl req)
              _ sched (pool_init fl files) s _ R).
    + clear. intros s a s' I H.
      step_cases H; cbn [log]; try exact I.
      * intros Hin. apply in_app_or in Hin as [Hin|Hin]; [now apply I|].
        destruct (backoff fl >? 0); [|contradiction].
        destruct Hin as [Hin|[]]. discriminate.
      * intros Hin. apply in_app_or in Hin as [Hin|Hin]; [now apply I|].
        apply in_app_or in Hin as [Hin|[Hin|[]]]; [|discriminate].
        apply (processFile_requests e fl t net f).
        now rewrite Epf.
      * intros Hin. apply in_app_or in Hin as [Hin|Hin]; [now apply I|].
        apply (processFile_requests e fl t net f).
        now rewrite Epf.
    + intros [].
  - intros net file req rest E.
    destruct (processFile_effects_shape e t net file (collectionID_of fl))
      as [E' | (art & req0 & more & Rq & E' & _)];
      rewrite E' in E; [discriminate|].
    injection E as <- _.
    exact (postItem_request_shape e fl t art req0 Rq).
Qed.

Lemma pool_requests_uniform_witness :
  exists s req next,
    run demo_env demo_flags demo_transformer
      [Send; Recv 0; Process 0 redirecting]
      (pool_init demo_flags ["a.json"]) = Some s /\
    log s = [OpenItem "a.json"; HttpDo req; HttpDo next] /\
    carries_rendering demo_env demo_flags req /\
    http.Form next = [].
Proof.
  assert (E : exists s req next,
             run demo_env demo_flags demo_transformer
               [Send; Recv 0; Process 0 redirecting]
               (pool_init demo_flags ["a.json"]) = Some s /\
             log s = [OpenItem "a.json"; HttpDo req; HttpDo next] /\
             http.Form next = []).
  { eexists. eexists. eexists. split; [vm_compute; reflexivity|].
    split; reflexivity. }
  destruct E as (s & req & next & R & L & N). exists s, req, next.
  split; [exact R|]. split; [exact L|]. split; [|exact N].
  destruct (pool_requests_uniform demo_env demo_flags demo_transformer
              ["a.json"] _ s R) as [H _].
  apply H. rewrite L. right. now left.
Defined.

(** ** [readFileList]: blanks around an identifier *)

Lemma blank_byte (c : ascii) :
  Ascii.eqb c " " || Ascii.eqb c (ascii_of_nat 9) = true ->
  byte_val c < utf8.RuneSelf /\ strings.asciiSpace (byte_val c) = true /\
  Ascii.eqb newline_byte c = false /\ c <> ascii_of_nat 13.
Proof.
  intros H. apply orb_true_iff in H as [H|H]; apply Ascii.eqb_eq in H; subst;
    repeat split; discriminate.
Qed.

Lemma TrimSpace_blanks_l (p s : string) :
  blanks p = true -> strings.TrimSpace (p +:+ s) = strings.TrimSpace s.
Proof.
  induction p as [|c p IH]; intros H; [reflexivity|].
  cbn [blanks] in H. apply andb_true_iff in H as [Hc H].
  destruct (blank_byte c Hc) as (A & B & _).
  change (String c p +:+ s) with (String c (p +:+ s)).
  cbn [strings.TrimSpace]. rewrite (proj2 (Z.leb_gt _ _)) by exact A.
  rewrite B. now apply IH.
Qed.

Lemma trimSpaceStop_blanks (p q : string) :
  blanks p = true ->
  strings.trimSpaceStop (p +:+ q) = strings.trimSpaceStop q.
Proof.
  induction p as [|c p IH]; intros H; [reflexivity|].
  cbn [blanks] in H. apply andb_true_iff in H as [Hc H].
  destruct (blank_byte c Hc) as (A & B & _).
  change (String c p +:+ q) with (String c (p +:+ q)).
  cbn [strings.trimSpaceStop]. rewrite (proj2 (Z.leb_gt _ _)) by exact A.
  rewrite B. now apply IH.
Qed.

Lemma blanks_app (a b : string) : blanks (a +:+ b) = blanks a && blanks b.
Proof.
  induction a as [|c a IH]; [reflexivity|].
  change (String c a +:+ b) with (String c (a +:+ b)).
  cbn [blanks]. now rewrite IH, andb_assoc.
Qed.

Lemma blanks_rev (a : string) : blanks (Str.rev a) = blanks a.
Proof.
  induction a as [|c a IH]; [reflexivity|].
  rewrite rev_cons, blanks_app, IH. cbn [blanks].
  rewrite andb_true_r. apply andb_comm.
Qed.

Lemma blanks_no_newline (p : string) :
  blanks p = true -> Str.has_byte newline_byte p = false.
Proof.
  induction p as [|c p IH]; intros H; [reflexivity|].
  cbn [blanks] in H. apply andb_true_iff in H as [Hc H].
  destruct (blank_byte c Hc) as (_ & _ & N & _).
  cbn [Str.has_byte]. now rewrite N, IH.
Qed.

Lemma blanks_last (p : string) (x : ascii) :
  blanks p = true -> Str.last p = Some x -> x <> ascii_of_nat 13.
Proof.
  induction p as [|c p IH]; intros H L; [discriminate|].
  cbn [blanks] in H. apply andb_true_iff in H as [Hc H].
  destruct p as [|c' p'].
  - cbn in L. injection L as <-. now destruct (blank_byte c Hc) as (_ & _ & _ & N).
  - apply IH; [exact H | exact L].
Qed.

Lemma trimSpaceStop_edged (f : string) :
  ascii_edged f -> strings.trimSpaceStop (Str.rev f) = f.
Proof.
  intros (c & d & r & -> & L & Hc & Sc & Hd & Sd & _).
  pose proof (TrimSpace_plain_ends c d r Hc Sc Hd Sd L) as T.
  cbn [strings.TrimSpace] in T.
  rewrite (proj2 (Z.leb_gt _ _)) in T by exact Hc. now rewrite Sc in T.
Qed.

(** Blanks before and after an identifier are trimmed away. *)
Lemma TrimSpace_padded (p1 f p2 : string) :
  blanks p1 = true -> blanks p2 = true -> ascii_edged f ->
  strings.TrimSpace (p1 +:+ f +:+ p2) = f.
Proof.
  intros H1 H2 Hf. rewrite TrimSpace_blanks_l by exact H1.
  pose proof (trimSpaceStop_edged f Hf) as T.
  destruct Hf as (c & d & r & -> & L & Hc & Sc & _).
  change (String c r +:+ p2) with (String c (r +:+ p2)).
  cbn [strings.TrimSpace]. rewrite (proj2 (Z.leb_gt _ _)) by exact Hc.
  rewrite Sc. change (String c (r +:+ p2)) with (String c r +:+ p2).
  rewrite rev_app, trimSpaceStop_blanks by now rewrite blanks_rev.
  exact T.
Qed.

Lemma padded_last (p1 f p2 : string) :
  blanks p2 = true -> ascii_edged f ->
  Str.last (p1 +:+ f +:+ p2) <> Some (ascii_of_nat 13).
Proof.
  intros H2 (c & d & r & -> & L & _ & _ & _ & Sd & _).
  destruct p2 as [|x p2].
  - rewrite app_nil_r_s, last_app_cons, L. intros E. injection E as ->.
    discriminate.
  - rewrite <- app_assoc_s, last_app_cons. intros E.
    now apply (blanks_last _ _ H2 E).
Qed.

(** X12. A list file whose lines have spaces and tabs before and after
    the identifier is read as the identifiers alone, in order. *)
Theorem readFileList_trims_blanks
  (fs : FileSystem) (filePath : string)
  (ls : list (string * string * string)) :
  Forall (fun l =>
            blanks (fst (fst l)) = true /\ blanks (snd l) = true /\
            ascii_edged (snd (fst l)) /\
            (N.of_nat (String.length
                         (fst (fst l) +:+ snd (fst l) +:+ snd l))
             < bufio.MaxScanTokenSize)%N) ls ->
  contents fs !! filePath = Some (padded_lines ls) ->
  readFileList fs filePath = inr (List.map (fun l => snd (fst l)) ls).
Proof.
  intros Hls Hc. unfold readFileList, os_Open. rewrite Hc.
  assert (S : bufio.ScanLines (padded_lines ls)
              = (List.map (fun l => fst (fst l) +:+ snd (fst l) +:+ snd l) ls,
                 None)).
  { unfold bufio.ScanLines. clear Hc.
    induction Hls as [|[[p1 f] p2] ls (H1 & H2 & Hf & Hlen) _ IH];
      [reflexivity|].
    cbn [fst snd] in *. cbn [padded_lines fold_right padded_line].
    fold (padded_lines ls).
    replace ((p1 +:+ f +:+ p2 +:+ nl) +:+ padded_lines ls)
      with ((p1 +:+ f +:+ p2) +:+ nl +:+ padded_lines ls)
      by now rewrite !app_assoc_s.
    rewrite scan_line.
    - rewrite IH. cbn [fst snd List.map].
      change (Str.rev_append (p1 +:+ f +:+ p2) "")
        with (Str.rev (p1 +:+ f +:+ p2)).
      rewrite dropCR_rev by now apply padded_last. reflexivity.
    - rewrite !has_byte_app.
      rewrite (blanks_no_newline p1), (blanks_no_newline p2) by assumption.
      destruct Hf as (c & d & r & -> & _ & _ & _ & _ & _ & N). now rewrite N.
    - lia. }
  rewrite S, collectPaths_filter. f_equal. clear S Hc.
  induction Hls as [|[[p1 f] p2] ls (H1 & H2 & Hf & _) _ IH]; [reflexivity|].
  cbn [fst snd List.map List.filter] in *.
  rewrite TrimSpace_padded by assumption.
  destruct Hf as (c & d & r & -> & _). cbn [String.eqb negb].
  now rewrite IH.
Qed.

Lemma readFileList_trims_blanks_witness :
  readFileList
    {| contents :=
         {["retry.txt" :=
             padded_lines [("  ", "a.json", " "); ("", "dir/b c.json", "")]]};
       can_create := fun _ => true |} "retry.txt"
  = inr ["a.json"; "dir/b c.json"].
Proof.
  apply (readFileList_trims_blanks _ "retry.txt"
           [("  ", "a.json", " "); ("", "dir/b c.json", "")]).
  - constructor; [|constructor; [|constructor]]; cbn [fst snd];
      (split; [reflexivity|]; split; [reflexivity|]; split;
       [|vm_compute; reflexivity]).
    + exists "a"%char, "n"%char, ".json". repeat split; reflexivity.
    + exists "d"%char, "n"%char, "ir/b c.json". repeat split; reflexivity.
  - apply lookup_singleton_eq.
Defined.

(** ** [buildHTML]: plain articles and titles *)

(** X2. An article whose title and excerpt hold none of the five special
    bytes and whose content holds neither script tag is rendered with its
    fields as they are. *)
Theorem buildHTML_plain_article (a : Article) :
  plain_text (Title a) -> plain_text (Excerpt a) ->
  Str.contains "<script" (Content a) = false ->
  Str.contains "</script>" (Content a) = false ->
  buildHTML a =
  "<h1>" +:+ Title a +:+ "</h1>" +:+ nl +:+
  match Excerpt a with
  | EmptyString => EmptyString
  | _ => "<p>" +:+ Excerpt a +:+ "</p>" +:+ nl
  end +:+
  "<div>" +:+ nl +:+ Content a +:+ nl +:+ "</div>" +:+ nl +:+
  "<h3>Metadata</h3>" +:+ nl +:+
  "<p>Source Url: <a href=" +:+ dq +:+ Link a +:+ dq +:+ ">" +:+ Link a
    +:+ "</a></p>" +:+
  "<p>Published Date: " +:+ PublishDate a +:+ "</p>" +:+
  "<p>Updated Date: " +:+ UpdatedDate a +:+ "</p>".
Proof.
  intros HT HE H1 H2. rewrite buildHTML_closed.
  destruct EscapeString_compositional as [_ P].
  now rewrite (P _ HT), (P _ HE), (cleanHTML_id _ H1 H2).
Qed.

Lemma buildHTML_plain_article_witness :
  buildHTML demo_article =
  "<h1>T</h1>" +:+ nl +:+ "<div>" +:+ nl +:+ "<p>c</p>" +:+ nl +:+ "</div>"
    +:+ nl +:+ "<h3>Metadata</h3>" +:+ nl +:+
  "<p>Source Url: <a href=" +:+ dq +:+ "http://e.x/" +:+ dq
    +:+ ">http://e.x/</a></p>" +:+
  "<p>Published Date: 2024-01-01</p>" +:+ "<p>Updated Date: 2024-01-02</p>".
Proof.
  rewrite (buildHTML_plain_article demo_article);
    [reflexivity | repeat split | repeat split | reflexivity | reflexivity].
Defined.

Lemma app_cut (x : ascii) (a b r r' : string) :
  Str.has_byte x a = false -> Str.has_byte x b = false ->
  a +:+ String x r = b +:+ String x r' -> a = b.
Proof.
  revert b; induction a as [|c a IH]; intros [|d b] Ha Hb H.
  - reflexivity.
  - change ("" +:+ String x r) with (String x r) in H.
    change (String d b +:+ String x r') with (String d (b +:+ String x r')) in H.
    injection H as <- _. cbn [Str.has_byte] in Hb.
    now rewrite Ascii.eqb_refl in Hb.
  - change ("" +:+ String x r') with (String x r') in H.
    change (String c a +:+ String x r) with (String c (a +:+ String x r)) in H.
    injection H as -> _. cbn [Str.has_byte] in Ha.
    now rewrite Ascii.eqb_refl in Ha.
  - change (String c a +:+ String x r) with (String c (a +:+ String x r)) in H.
    change (String d b +:+ String x r') with (String d (b +:+ String x r')) in H.
    injection H as -> H. cbn [Str.has_byte] in Ha, Hb.
    apply orb_false_iff in Ha as [_ Ha]. apply orb_false_iff in Hb as [_ Hb].
    f_equal. now apply IH.
Qed.

(** X3. The rendered HTML determines the title: two articles with the
    same rendering have the same title. *)
Theorem buildHTML_title_recoverable (a1 a2 : Article) :
  buildHTML a1 = buildHTML a2 -> Title a1 = Title a2.
Proof.
  rewrite !buildHTML_closed. intros H.
  change ("<h1>" +:+ ?x) with (String "<" (String "h" (String "1" (String ">" x)))) in H.
  cbn [String.append] in H. injection H as H.
  destruct (EscapeString_markup_free (Title a1)) as (F1 & _).
  destruct (EscapeString_markup_free (Title a2)) as (F2 & _).
  apply EscapeString_injective.
  exact (app_cut "<" _ _ _ _ F1 F2 H).
Qed.

Lemma buildHTML_title_recoverable_witness : Title demo_article = "T".
Proof.
  apply (buildHTML_title_recoverable demo_article
           {| Title := "T"; Content := "<p>c</p>"; Excerpt := "";
              Link := "http://e.x/"; PublishDate := "2024-01-01";
              UpdatedDate := "2024-01-02" |}).
  reflexivity.
Defined.
